(** * DeepWiki MCP: response assembler, markdown renderer, validators,
      polling loop and question tool

    A shallow embedding of the TypeScript/JavaScript sources of the
    repository, with the properties stated by its specification.

    Conventions of the embedding.
    - A JavaScript string is the list of its UTF-16 code units
      ([jsstring]); [length] is therefore the [.length] of the source.
    - Numbers that the code uses as line numbers, counters and indices are
      integers ([Z], [N] or [nat]); they print in decimal, as JavaScript
      prints every safe integer.
    - A function that can throw returns a [result]. *)

From Stdlib Require Import String Ascii.
From Stdlib Require Import List NArith ZArith Bool Lia Permutation.
Import ListNotations.
Local Open Scope list_scope.

Set Implicit Arguments.

(** ** JavaScript strings and arrays *)

Module JS.

Definition jsstring := list N.

(** A literal of the source, written as a Rocq string of ASCII characters. *)
Definition lit (s : string) : jsstring :=
  map N_of_ascii (list_ascii_of_string s).

Definition nl : N := 10.        (* '\n' *)
Definition colon : N := 58.     (* ':' *)
Definition slash : N := 47.     (* '/' *)
Definition hyphen : N := 45.    (* '-' *)
Definition backtick : N := 96.  (* '`' *)

Fixpoint eqb_str (a b : jsstring) : bool :=
  match a, b with
  | [], [] => true
  | x :: a', y :: b' => N.eqb x y && eqb_str a' b'
  | _, _ => false
  end.

(** WhiteSpace and LineTerminator code units of ECMAScript: what [\s]
    matches and what [String.prototype.trim] strips. *)
Definition is_space (c : N) : bool :=
  ((9 <=? c) && (c <=? 13) || (c =? 32) || (c =? 160) || (c =? 5760)
   || (8192 <=? c) && (c <=? 8202) || (c =? 8232) || (c =? 8233)
   || (c =? 8239) || (c =? 8287) || (c =? 12288) || (c =? 65279))%N.

Definition is_digit (c : N) : bool := ((48 <=? c) && (c <=? 57))%N.
Definition is_upper (c : N) : bool := ((65 <=? c) && (c <=? 90))%N.
Definition is_lower (c : N) : bool := ((97 <=? c) && (c <=? 122))%N.
Definition is_alnum (c : N) : bool := is_lower c || is_upper c || is_digit c.

Fixpoint dropWhile (p : N -> bool) (s : jsstring) : jsstring :=
  match s with
  | c :: s' => if p c then dropWhile p s' else s
  | [] => []
  end.

Definition trimStart (s : jsstring) : jsstring := dropWhile is_space s.
Definition trimEnd (s : jsstring) : jsstring := rev (dropWhile is_space (rev s)).
Definition trim (s : jsstring) : jsstring := trimEnd (trimStart s).

Fixpoint startsWith (pat s : jsstring) : bool :=
  match pat, s with
  | [], _ => true
  | p :: pat', c :: s' => N.eqb p c && startsWith pat' s'
  | _ :: _, [] => false
  end.

Definition endsWith (pat s : jsstring) : bool := startsWith (rev pat) (rev s).

(** [s.indexOf(pat)]; [None] stands for -1. *)
Fixpoint indexOf (pat s : jsstring) : option nat :=
  if startsWith pat s then Some 0
  else match s with
       | [] => None
       | _ :: s' => option_map S (indexOf pat s')
       end.

(** [s.indexOf(pat, from)] for [0 <= from]. *)
Definition indexOfFrom (pat : jsstring) (from : nat) (s : jsstring) : option nat :=
  option_map (Nat.add (Nat.min from (length s))) (indexOf pat (skipn from s)).

(** [s.lastIndexOf(pat)]; [None] stands for -1. *)
Fixpoint lastIndexOf (pat s : jsstring) : option nat :=
  match s with
  | [] => if startsWith pat [] then Some 0 else None
  | _ :: s' =>
      match lastIndexOf pat s' with
      | Some i => Some (S i)
      | None => if startsWith pat s then Some 0 else None
      end
  end.

Definition includes (pat s : jsstring) : bool :=
  match indexOf pat s with Some _ => true | None => false end.

(** [s.substring(a, b)] and [s.substring(a)] for non-negative arguments:
    both are clamped to the length and swapped when out of order. *)
Definition substring (a b : nat) (s : jsstring) : jsstring :=
  let a' := Nat.min a (length s) in
  let b' := Nat.min b (length s) in
  firstn (Nat.max a' b' - Nat.min a' b') (skipn (Nat.min a' b') s).

Definition substringFrom (a : nat) (s : jsstring) : jsstring := skipn a s.

(** [s.split(sep)] for a separator of one code unit; the result is never
    empty ([''.split('/')] is [['']]). *)
Fixpoint split (sep : N) (s : jsstring) : list jsstring :=
  match s with
  | [] => [[]]
  | c :: s' =>
      if N.eqb c sep then [] :: split sep s'
      else match split sep s' with
           | p :: ps => (c :: p) :: ps
           | [] => [[c]]
           end
  end.

(** [parts.join(sep)]. *)
Fixpoint join (sep : jsstring) (parts : list jsstring) : jsstring :=
  match parts with
  | [] => []
  | [p] => p
  | p :: ps => p ++ sep ++ join sep ps
  end.

(** ['c'.repeat(n)] is [List.repeat c n]. *)

(** [arr.slice(start, end)] with the relative-index rules of ECMAScript. *)
Definition slice {A} (start stop : Z) (l : list A) : list A :=
  let len := Z.of_nat (length l) in
  let k := if (start <? 0)%Z then Z.max (len + start) 0 else Z.min start len in
  let e := if (stop <? 0)%Z then Z.max (len + stop) 0 else Z.min stop len in
  firstn (Z.to_nat (e - k)) (skipn (Z.to_nat k) l).

(** Decimal rendering of integers, as [String(n)] and template literals do. *)
Fixpoint digits (u : Decimal.uint) : jsstring :=
  match u with
  | Decimal.Nil => []
  | Decimal.D0 u => 48%N :: digits u
  | Decimal.D1 u => 49%N :: digits u
  | Decimal.D2 u => 50%N :: digits u
  | Decimal.D3 u => 51%N :: digits u
  | Decimal.D4 u => 52%N :: digits u
  | Decimal.D5 u => 53%N :: digits u
  | Decimal.D6 u => 54%N :: digits u
  | Decimal.D7 u => 55%N :: digits u
  | Decimal.D8 u => 56%N :: digits u
  | Decimal.D9 u => 57%N :: digits u
  end.

Definition showN (n : N) : jsstring := digits (N.to_uint n).
Definition showNat (n : nat) : jsstring := showN (N.of_nat n).
Definition showZ (z : Z) : jsstring :=
  if (z <? 0)%Z then hyphen :: showN (Z.to_N (- z)) else showN (Z.to_N z).

(** Errors: the source throws [Error] objects with a message, and the
    engine throws [TypeError] on a property read of [undefined] or a call
    of something that is not a function. *)
Inductive exn :=
| Error (message : jsstring)
| TypeError.

Inductive result (A : Type) :=
| Ok (a : A)
| Throw (e : exn).
Arguments Ok {A} a.
Arguments Throw {A} e.

Definition bind {A B} (r : result A) (f : A -> result B) : result B :=
  match r with
  | Ok a => f a
  | Throw e => Throw e
  end.

Definition throws {A} (r : result A) : Prop :=
  exists e, r = Throw e.

End JS.

Import JS.
Notation "x <- c1 ;; c2" := (bind c1 (fun x => c2))
  (at level 61, c1 at next level, right associativity).

(** ** Regular expressions

    The fragment of ECMAScript regular expressions that the sources use:
    literals, character classes, greedy [*] and [+] over a class, an
    optional group, capture groups and the anchors [^] and [$] (no flag
    [m]).  The matcher is the backtracking one of the language: a greedy
    quantifier first takes as much as it can and gives back one code unit
    at a time when the rest of the pattern fails. *)

Module Regex.

Inductive re :=
| Eps
| Chr (p : N -> bool)
| Lit (l : jsstring)
| Seq (a b : re)
| Star (p : N -> bool)
| Plus (p : N -> bool)
| Opt (a : re)
| Grp (a : re)
| Bol
| Eol.

Definition caps := list jsstring.

(** A match: the index where it ends and the captures, in order. *)
Definition found := (nat * caps)%type.

Fixpoint star (p : N -> bool) (i : nat) (s : jsstring)
    (k : nat -> jsstring -> option found) : option found :=
  match s with
  | c :: s' =>
      if p c then
        match star p (S i) s' k with
        | Some r => Some r
        | None => k i s
        end
      else k i s
  | [] => k i []
  end.

Fixpoint run (r : re) (i : nat) (s : jsstring) (cs : caps)
    (k : nat -> jsstring -> caps -> option found) : option found :=
  match r with
  | Eps => k i s cs
  | Chr p =>
      match s with
      | c :: s' => if p c then k (S i) s' cs else None
      | [] => None
      end
  | Lit l =>
      if startsWith l s then k (i + length l) (skipn (length l) s) cs else None
  | Seq a b => run a i s cs (fun i' s' cs' => run b i' s' cs' k)
  | Star p => star p i s (fun i' s' => k i' s' cs)
  | Plus p =>
      match s with
      | c :: s' => if p c then star p (S i) s' (fun i' s' => k i' s' cs) else None
      | [] => None
      end
  | Opt a =>
      match run a i s cs k with
      | Some r => Some r
      | None => k i s cs
      end
  | Grp a => run a i s cs (fun i' s' cs' => k i' s' (cs' ++ [firstn (i' - i) s]))
  | Bol => if Nat.eqb i 0 then k i s cs else None
  | Eol => match s with [] => k i s cs | _ :: _ => None end
  end.

(** The match that starts at index [i], where [s] is the input from [i] on. *)
Definition matchAt (r : re) (i : nat) (s : jsstring) : option found :=
  run r i s [] (fun i' _ cs => Some (i', cs)).

(** [RegExp.prototype.exec]: the leftmost match, as (start, end, captures). *)
Fixpoint execFrom (r : re) (i : nat) (s : jsstring) : option (nat * nat * caps) :=
  match matchAt r i s with
  | Some (e, cs) => Some (i, e, cs)
  | None =>
      match s with
      | [] => None
      | _ :: s' => execFrom r (S i) s'
      end
  end.

(** [s.match(r)] without flag [g]: the captures of the leftmost match. *)
Definition match_ (r : re) (s : jsstring) : option caps :=
  match execFrom r 0 s with
  | Some (_, _, cs) => Some cs
  | None => None
  end.

(** [r.test(s)]. *)
Definition test (r : re) (s : jsstring) : bool :=
  match execFrom r 0 s with Some _ => true | None => false end.

(** [s.match(r)] with flag [g]: every match, left to right, the search
    resuming where the previous match ended (one further on after an empty
    match).  [n] bounds the number of steps; [length s + 1] is enough. *)
Fixpoint matchAllFrom (n : nat) (r : re) (i : nat) (s : jsstring) : list jsstring :=
  match n with
  | O => []
  | S n' =>
      match matchAt r i s with
      | Some (e, _) =>
          if Nat.ltb i e then firstn (e - i) s :: matchAllFrom n' r e (skipn (e - i) s)
          else match s with
               | [] => [[]]
               | _ :: s' => [] :: matchAllFrom n' r (S i) s'
               end
      | None =>
          match s with
          | [] => []
          | _ :: s' => matchAllFrom n' r (S i) s'
          end
      end
  end.

Definition matchAll (r : re) (s : jsstring) : list jsstring :=
  matchAllFrom (S (length s)) r 0 s.

(** [s.replace(r, '')] without flag [g]: the leftmost match removed. *)
Definition removeFirst (r : re) (s : jsstring) : jsstring :=
  match execFrom r 0 s with
  | Some (b, e, _) => firstn b s ++ skipn e s
  | None => s
  end.

Definition exactly (c : N) : N -> bool := N.eqb c.
Definition excluding (c : N) : N -> bool := fun x => negb (N.eqb c x).

End Regex.

(** ** Parameter validators (utils/validation.ts) *)

Module Validation.
Import Regex.

Definition dq : N := 34.   (* the double quote *)
Definition quoted (s : jsstring) : jsstring := [dq] ++ s ++ [dq].

(** A string is truthy when it is not empty. *)
Definition truthy (s : jsstring) : bool :=
  match s with [] => false | _ :: _ => true end.

Definition alnum_or_hyphen (c : N) : bool := is_alnum c || N.eqb c hyphen.
Definition id_char (c : N) : bool :=
  is_alnum c || N.eqb c 95 || N.eqb c hyphen.

(** [/^[a-zA-Z0-9]([a-zA-Z0-9-]*[a-zA-Z0-9])?$/] *)
Definition repoPattern : re :=
  Seq Bol
    (Seq (Chr is_alnum)
       (Seq (Opt (Grp (Seq (Star alnum_or_hyphen) (Chr is_alnum)))) Eol)).

(** [/^[a-zA-Z0-9_-]+$/] *)
Definition queryIdPattern : re := Seq Bol (Seq (Plus id_char) Eol).

Definition validateRepo (repo : jsstring) : result unit :=
  if negb (truthy repo) then
    Throw (Error (lit "Repository is required and must be a string"))
  else
    let trimmed := trim repo in
    if Nat.eqb (length trimmed) 0 then
      Throw (Error (lit "Repository cannot be empty"))
    else
      let parts := split slash trimmed in
      match parts with
      | [owner; repoName] =>
          if negb (truthy owner) || negb (truthy repoName) then
            Throw (Error (lit "Invalid repository format. Both owner and repo name are required, got "
                          ++ quoted repo))
          else if negb (test repoPattern owner) then
            Throw (Error (lit "Invalid repository owner " ++ quoted owner
                          ++ lit ". Must contain only alphanumeric characters and hyphens, and cannot start or end with a hyphen."))
          else if negb (test repoPattern repoName) then
            Throw (Error (lit "Invalid repository name " ++ quoted repoName
                          ++ lit ". Must contain only alphanumeric characters and hyphens, and cannot start or end with a hyphen."))
          else Ok tt
      | _ =>
          Throw (Error (lit "Invalid repository format. Expected " ++ quoted (lit "owner/repo")
                        ++ lit ", got " ++ quoted repo))
      end.

Definition validateQuestion (question : jsstring) : result unit :=
  if negb (truthy question) then
    Throw (Error (lit "Question is required and must be a string"))
  else
    let trimmed := trim question in
    if Nat.eqb (length trimmed) 0 then
      Throw (Error (lit "Question cannot be empty"))
    else if (10000 <? N.of_nat (length trimmed))%N then
      Throw (Error (lit "Question is too long (" ++ showNat (length trimmed)
                    ++ lit " characters). Maximum length is 10,000 characters."))
    else Ok tt.

Definition validateQueryId (queryId : jsstring) : result unit :=
  if negb (truthy queryId) then
    Throw (Error (lit "Query ID is required and must be a string"))
  else
    let trimmed := trim queryId in
    if Nat.eqb (length trimmed) 0 then
      Throw (Error (lit "Query ID cannot be empty"))
    else if negb (test queryIdPattern trimmed) then
      Throw (Error (lit "Invalid query ID format " ++ quoted queryId
                    ++ lit ". Must contain only alphanumeric characters, hyphens, and underscores."))
    else Ok tt.

(** The array validators walk the array and throw at the first bad
    element; the [typeof] and [Number.isInteger] tests hold of every
    element of the types used here. *)
Fixpoint checkReferencesNumbers (i : nat) (l : list Z) : result unit :=
  match l with
  | [] => Ok tt
  | refNum :: l' =>
      if (refNum <? 1)%Z then
        Throw (Error (lit "Reference number at index " ++ showNat i
                      ++ lit " must be positive, got " ++ showZ refNum))
      else checkReferencesNumbers (S i) l'
  end.

Definition validateReferencesNumbers (referencesNumbers : list Z) : result unit :=
  if Nat.eqb (length referencesNumbers) 0 then
    Throw (Error (lit "References numbers array cannot be empty"))
  else checkReferencesNumbers 0 referencesNumbers.

Fixpoint checkContextFiles (i : nat) (l : list jsstring) : result unit :=
  match l with
  | [] => Ok tt
  | file :: l' =>
      if Nat.eqb (length (trim file)) 0 then
        Throw (Error (lit "Context file at index " ++ showNat i ++ lit " cannot be empty"))
      else checkContextFiles (S i) l'
  end.

Definition validateContextFiles (contextFiles : list jsstring) : result unit :=
  if Nat.eqb (length contextFiles) 0 then
    Throw (Error (lit "Context files array cannot be empty"))
  else checkContextFiles 0 contextFiles.

Record LineRange := { range_from : Z; range_to : Z }.

Fixpoint checkContextRanges (l : list (jsstring * LineRange)) : result unit :=
  match l with
  | [] => Ok tt
  | (file, range) :: l' =>
      if Nat.eqb (length (trim file)) 0 then
        Throw (Error (lit "File path in contextRanges cannot be empty"))
      else if (range_from range <? 1)%Z then
        Throw (Error (lit "Start line for file " ++ quoted file
                      ++ lit " must be positive, got " ++ showZ (range_from range)))
      else if (range_to range <? range_from range)%Z then
        Throw (Error (lit "End line (" ++ showZ (range_to range) ++ lit ") for file "
                      ++ quoted file
                      ++ lit " must be greater than or equal to start line ("
                      ++ showZ (range_from range) ++ lit ")"))
      else checkContextRanges l'
  end.

(** The argument is [Object.entries(contextRanges)]. *)
Definition validateContextRanges (entries : list (jsstring * LineRange)) : result unit :=
  if Nat.eqb (length entries) 0 then
    Throw (Error (lit "Context ranges object cannot be empty"))
  else checkContextRanges entries.

(** [toLowerCase], as far as a comparison with an ASCII literal can see:
    the capital letters of ASCII and the two code units outside ASCII
    whose lower case contains an ASCII letter (U+212A Kelvin sign and
    U+0130 dotted capital I). *)
Definition lowerUnit (c : N) : jsstring :=
  if is_upper c then [(c + 32)%N]
  else if N.eqb c 8490 then [107%N]
  else if N.eqb c 304 then [105%N; 775%N]
  else [c].

Definition toLowerCase (s : jsstring) : jsstring := flat_map lowerUnit s.

Definition validateSaveToFile (saveToFile : jsstring) : result unit :=
  let normalized := toLowerCase saveToFile in
  if negb (eqb_str normalized (lit "save-only"))
     && negb (eqb_str normalized (lit "save-and-show")) then
    Throw (Error (lit "saveToFile must be either " ++ quoted (lit "save-only")
                  ++ lit " or " ++ quoted (lit "save-and-show") ++ lit ", got "
                  ++ quoted saveToFile))
  else Ok tt.

End Validation.

(** ** Plain objects used as maps

    An object literal [{}] holds its own properties and inherits those of
    [Object.prototype].  A read [o[k]] finds an own property first and an
    inherited one otherwise; every inherited value is truthy and none is
    an array.  The own properties are kept in insertion order, which is
    the order of enumeration for every key that is not the decimal
    numeral of an array index; the properties proved below look keys up
    and do not depend on that order. *)

Module Obj.

Definition t (V : Type) := list (jsstring * V).

Fixpoint getOwn {V} (k : jsstring) (o : t V) : option V :=
  match o with
  | [] => None
  | (k', v) :: o' => if eqb_str k' k then Some v else getOwn k o'
  end.

(** [o[k] = v]: an existing own property keeps its place. *)
Fixpoint set {V} (k : jsstring) (v : V) (o : t V) : t V :=
  match o with
  | [] => [(k, v)]
  | (k', v') :: o' => if eqb_str k' k then (k', v) :: o' else (k', v') :: set k v o'
  end.

Definition keys {V} (o : t V) : list jsstring := map fst o.

Definition prototypeKeys : list jsstring :=
  [ lit "constructor"; lit "__defineGetter__"; lit "__defineSetter__";
    lit "hasOwnProperty"; lit "__lookupGetter__"; lit "__lookupSetter__";
    lit "isPrototypeOf"; lit "propertyIsEnumerable"; lit "toString";
    lit "valueOf"; lit "__proto__"; lit "toLocaleString" ].

Definition inherited (k : jsstring) : bool := existsb (eqb_str k) prototypeKeys.

End Obj.

(** ** The response assembler (parsers/json-transformer.ts) *)

Module Transformer.
Import Regex.

(** [Reference] and [ReferenceData] are the same interface. *)
Record Reference := {
  file_path : jsstring;
  range_start : Z;
  range_end : Z
}.

Record StatsData := { key : jsstring; value : Z }.

(** [data?: string | ReferenceData | StatsData | [string, string, string]] *)
Inductive ItemData :=
| NoData
| DString (s : jsstring)
| DReference (r : Reference)
| DStats (s : StatsData)
| DTuple (repoPath filename content : jsstring).

Record ResponseItem := { item_type : jsstring; item_data : ItemData }.

Record ApiQuery := {
  user_query : jsstring;
  use_knowledge : bool;
  engine_id : jsstring;
  repo_context_ids : list jsstring;
  response : list ResponseItem;
  error : option jsstring;
  state : jsstring;
  redis_stream : option jsstring
}.

(** [rawResponse: ApiQuery | ApiQuery[]] *)
Inductive RawResponse :=
| Single (q : ApiQuery)
| Many (qs : list ApiQuery).

Record InputResponse := {
  timestamp : jsstring;
  success : bool;
  queryId : jsstring;
  answer : jsstring;
  references : list Reference;
  stats : list (jsstring * Z);
  rawResponse : RawResponse
}.

Record AnswerSegment := { text : jsstring; reference : option jsstring }.

Record ReferencedFile := {
  reference_range : jsstring;
  reference_material : jsstring
}.

Record FullContextItem := { file_name : jsstring; file_text : jsstring }.

Record ConversationQuery := {
  cq_user_query : jsstring;
  answer_segments : list AnswerSegment
}.

Record OutputResponse := {
  query_id : jsstring;
  conversation : list ConversationQuery;
  out_repo_context_ids : list jsstring;
  referenced_files : Obj.t (list ReferencedFile);
  full_context : list FullContextItem
}.

(** [/Repo\s+([^:]+):\s+([^:]+)(?::\d+-\d+)?/] *)
Definition repoRefPattern : re :=
  Seq (Lit (lit "Repo"))
   (Seq (Plus is_space)
    (Seq (Grp (Plus (excluding colon)))
     (Seq (Chr (exactly colon))
      (Seq (Plus is_space)
       (Seq (Grp (Plus (excluding colon)))
        (Opt (Seq (Chr (exactly colon))
              (Seq (Plus is_digit) (Seq (Chr (exactly hyphen)) (Plus is_digit)))))))))).

Definition rangeSuffix (rangeStart rangeEnd : Z) : jsstring :=
  [colon] ++ showZ rangeStart ++ [hyphen] ++ showZ rangeEnd.

(** Lines 135-167: the reference string of an answer segment.  The range
    fields of a [ReferenceData] are numbers, so the tests
    [rangeStart !== undefined && rangeEnd !== undefined] succeed. *)
Definition referenceString (filePath : jsstring) (rangeStart rangeEnd : Z) : jsstring :=
  if includes (lit "Repo ") filePath then
    match match_ repoRefPattern filePath with
    | Some [m1; m2] => m1 ++ lit ": " ++ m2 ++ rangeSuffix rangeStart rangeEnd
    | _ => filePath
    end
  else
    let parts := split slash filePath in
    if Nat.leb 3 (length parts) then
      let repo := join [slash] (firstn 2 parts) in
      let file := join [slash] (skipn 2 parts) in
      repo ++ lit ": " ++ file ++ rangeSuffix rangeStart rangeEnd
    else filePath ++ rangeSuffix rangeStart rangeEnd.

(** The state of the loop over the response items of one query. *)
Record Assembly := {
  currentChunks : list jsstring;
  queryAnswerSegments : list AnswerSegment
}.

Definition closeSegment (a : Assembly) (referenceStr : jsstring) : Assembly :=
  {| currentChunks := [];
     queryAnswerSegments :=
       queryAnswerSegments a
       ++ [{| text := join [] (currentChunks a); reference := Some referenceStr |}] |}.

(** One iteration of the loop of lines 128-177. *)
Definition assembleItem (a : Assembly) (item : ResponseItem) : result Assembly :=
  match item_data item with
  | DString s =>
      if eqb_str (item_type item) (lit "chunk") && Validation.truthy s then
        Ok {| currentChunks := currentChunks a ++ [s];
              queryAnswerSegments := queryAnswerSegments a |}
      else Ok a
  | DReference r =>
      if eqb_str (item_type item) (lit "reference") then
        match currentChunks a with
        | [] => Ok a
        | _ :: _ =>
            Ok (closeSegment a (referenceString (file_path r) (range_start r) (range_end r)))
        end
      else Ok a
  | DStats _ =>
      (* an object that is no array passes the test of line 131; it has no
         [file_path], and [filePath.includes] is a read on [undefined] *)
      if eqb_str (item_type item) (lit "reference") then
        match currentChunks a with
        | [] => Ok a
        | _ :: _ => Throw TypeError
        end
      else Ok a
  | DTuple _ _ _ => Ok a
  | NoData => Ok a
  end.

Fixpoint assembleItems (a : Assembly) (items : list ResponseItem) : result Assembly :=
  match items with
  | [] => Ok a
  | item :: items' =>
      a' <- assembleItem a item ;;
      assembleItems a' items'
  end.

(** Lines 123-190: the conversation entry of one query. *)
Definition assembleQuery (query : ApiQuery) : result ConversationQuery :=
  a <- assembleItems {| currentChunks := []; queryAnswerSegments := [] |} (response query) ;;
  let segments :=
    match currentChunks a with
    | [] => queryAnswerSegments a
    | _ :: _ =>
        queryAnswerSegments a
        ++ [{| text := join [] (currentChunks a); reference := None |}]
    end in
  Ok {| cq_user_query := user_query query; answer_segments := segments |}.

Fixpoint assembleQueries (queries : list ApiQuery) : result (list ConversationQuery) :=
  match queries with
  | [] => Ok []
  | query :: queries' =>
      c <- assembleQuery query ;;
      cs <- assembleQueries queries' ;;
      Ok (c :: cs)
  end.

Definition searchPattern : jsstring := lit "Searching codebase...".

(** Lines 199-218, on the text of the first segment. *)
Definition stripPreamble (t : jsstring) : jsstring :=
  if includes searchPattern t then
    match lastIndexOf searchPattern t with
    | Some lastIndex =>
        let endOfLine :=
          match indexOfFrom [nl] lastIndex t with
          | Some e => e
          | None => length t
          end in
        let remainingText := substringFrom (endOfLine + 1) t in
        removeFirst (Seq Bol (Plus (exactly nl))) remainingText
    | None => t
    end
  else t.

(** Lines 194-219. *)
Definition filterPreamble (conv : list ConversationQuery) : list ConversationQuery :=
  match conv with
  | c0 :: conv' =>
      match answer_segments c0 with
      | firstSegment :: segs =>
          if Validation.truthy (text firstSegment) then
            {| cq_user_query := cq_user_query c0;
               answer_segments :=
                 {| text := stripPreamble (text firstSegment);
                    reference := reference firstSegment |} :: segs |} :: conv'
          else conv
      | [] => conv
      end
  | [] => conv
  end.

(** Lines 222-241: the captures and the map from full path to lines. *)
Record Captures := {
  captured : list FullContextItem;
  fileContentMap : Obj.t (list jsstring)
}.

Definition captureItem (c : Captures) (item : ResponseItem) : Captures :=
  match item_data item with
  | DTuple repoPath filename content =>
      if eqb_str (item_type item) (lit "file_contents") then
        let fullPath := repoPath ++ [slash] ++ filename in
        {| captured := captured c ++ [{| file_name := fullPath; file_text := content |}];
           fileContentMap := Obj.set fullPath (split nl content) (fileContentMap c) |}
      else c
  | _ => c
  end.

Definition captureQueries (queries : list ApiQuery) : Captures :=
  fold_left (fun c query => fold_left captureItem (response query) c) queries
    {| captured := []; fileContentMap := [] |}.

Definition degenerate (ref : Reference) : bool :=
  (range_start ref =? 0)%Z && (range_end ref =? 0)%Z.

(** Lines 250-261: the key of a reference in [referenced_files]. *)
Definition referenceKey (ref : Reference) : jsstring :=
  let filePath := file_path ref in
  if includes (lit "Repo ") filePath then
    match match_ repoRefPattern filePath with
    | Some [m1; m2] => m1 ++ [slash] ++ m2
    | _ => filePath
    end
  else filePath.

(** Lines 268-285. *)
Definition referenceMaterial (files : Obj.t (list jsstring)) (filePath : jsstring)
    (ref : Reference) : jsstring :=
  match Obj.getOwn filePath files with
  | Some fileLines =>
      let startLine := Z.max 0 (range_start ref - 1) in
      let endLine := Z.min (Z.of_nat (length fileLines) - 1) (range_end ref) in
      if (startLine <=? endLine)%Z then
        join [nl] (slice startLine (endLine + 1) fileLines)
      else []
  | None => []
  end.

(** One iteration of the loop of lines 244-291.  When the key names a
    property of [Object.prototype] that the map does not own, the read of
    line 263 finds the inherited value, no array is stored, and the
    iteration ends in a [TypeError] ([slice] or [push] of a value that has
    none). *)
Definition resolveReference (files : Obj.t (list jsstring))
    (acc : Obj.t (list ReferencedFile)) (ref : Reference)
    : result (Obj.t (list ReferencedFile)) :=
  if degenerate ref then Ok acc
  else
    let filePath := referenceKey ref in
    let entry :=
      {| reference_range := showZ (range_start ref) ++ [hyphen] ++ showZ (range_end ref);
         reference_material := referenceMaterial files filePath ref |} in
    match Obj.getOwn filePath acc with
    | Some entries => Ok (Obj.set filePath (entries ++ [entry]) acc)
    | None =>
        if Obj.inherited filePath then Throw TypeError
        else Ok (Obj.set filePath [entry] acc)
    end.

Fixpoint resolveReferences (files : Obj.t (list jsstring))
    (acc : Obj.t (list ReferencedFile)) (refs : list Reference)
    : result (Obj.t (list ReferencedFile)) :=
  match refs with
  | [] => Ok acc
  | ref :: refs' =>
      acc' <- resolveReference files acc ref ;;
      resolveReferences files acc' refs'
  end.

Definition queriesOf (raw : RawResponse) : list ApiQuery :=
  match raw with
  | Single q => [q]
  | Many qs => qs
  end.

Definition transformResponse (input : InputResponse) : result OutputResponse :=
  let queries := queriesOf (rawResponse input) in
  match queries with
  | [] => Throw TypeError     (* [queries[0].repo_context_ids] *)
  | q0 :: _ =>
      conv <- assembleQueries queries ;;
      let c := captureQueries queries in
      files <- resolveReferences (fileContentMap c) [] (references input) ;;
      Ok {| query_id := queryId input;
            conversation := filterPreamble conv;
            out_repo_context_ids := repo_context_ids q0;
            referenced_files := files;
            full_context := captured c |}
  end.

End Transformer.

(** ** The document renderer (parsers/markdown-generator.js) *)

Module Markdown.
Import Regex Transformer.

Record MarkdownOptions := {
  includeAnswer : bool;
  includeReferencesList : bool;
  referencesAll : bool;
  referencesNumbers : option (list Z);
  contextAll : bool;
  contextFiles : option (list jsstring);
  contextRanges : option (list (jsstring * Validation.LineRange))
}.

(** [segment.reference] as a condition: present and not the empty string. *)
Definition citation (segment : AnswerSegment) : option jsstring :=
  match reference segment with
  | Some r => if Validation.truthy r then Some r else None
  | None => None
  end.

Definition arrayIncludes (x : jsstring) (l : list jsstring) : bool :=
  existsb (eqb_str x) l.

(** A [Set] of strings, in insertion order. *)
Definition setAdd (x : jsstring) (s : list jsstring) : list jsstring :=
  if arrayIncludes x s then s else s ++ [x].

Definition formatQueryId (data : OutputResponse) : jsstring :=
  lit "# Query ID" ++ [nl; nl] ++ query_id data ++ [nl].

Section Answer.

(** [protoText k] is the text that a template literal gives to the value
    found on [Object.prototype] under an inherited key [k]; it depends on
    the engine. *)
Variable protoText : jsstring -> jsstring.

Record AnswerState := {
  answerText : jsstring;
  referenceCounter : nat;
  referenceMap : Obj.t nat
}.

Definition answerSegment (st : AnswerState) (segment : AnswerSegment) : AnswerState :=
  match citation segment with
  | Some r =>
      match Obj.getOwn r (referenceMap st) with
      | Some n =>
          {| answerText := answerText st ++ text segment ++ lit " [" ++ showNat n ++ lit "]";
             referenceCounter := referenceCounter st;
             referenceMap := referenceMap st |}
      | None =>
          if Obj.inherited r then
            {| answerText := answerText st ++ text segment ++ lit " [" ++ protoText r ++ lit "]";
               referenceCounter := referenceCounter st;
               referenceMap := referenceMap st |}
          else
            {| answerText :=
                 answerText st ++ text segment ++ lit " ["
                 ++ showNat (referenceCounter st) ++ lit "]";
               referenceCounter := S (referenceCounter st);
               referenceMap := Obj.set r (referenceCounter st) (referenceMap st) |}
      end
  | None =>
      {| answerText := answerText st ++ text segment;
         referenceCounter := referenceCounter st;
         referenceMap := referenceMap st |}
  end.

Fixpoint answerQueries (i : nat) (st : AnswerState) (conv : list ConversationQuery)
    : AnswerState :=
  match conv with
  | [] => st
  | query :: conv' =>
      let st1 :=
        if Nat.ltb 0 i then
          {| answerText :=
               answerText st ++ [nl] ++ lit "---" ++ [nl; nl] ++ lit "**Follow-up:** "
               ++ cq_user_query query ++ [nl; nl];
             referenceCounter := referenceCounter st;
             referenceMap := referenceMap st |}
        else st in
      answerQueries (S i) (fold_left answerSegment (answer_segments query) st1) conv'
  end.

Definition formatAnswer (data : OutputResponse) : jsstring :=
  answerText
    (answerQueries 0
       {| answerText := lit "# Answer" ++ [nl; nl]; referenceCounter := 1; referenceMap := [] |}
       (conversation data))
  ++ [nl].

End Answer.

(** The references of all segments of all queries, in order. *)
Definition citations (data : OutputResponse) : list jsstring :=
  flat_map
    (fun query =>
       flat_map (fun segment => match citation segment with Some r => [r] | None => [] end)
         (answer_segments query))
    (conversation data).

(** The loop of lines 66-72 and 102-108. *)
Definition collectUnique (acc : list jsstring) (refs : list jsstring) : list jsstring :=
  fold_left (fun u r => if arrayIncludes r u then u else u ++ [r]) refs acc.

Definition uniqueReferences (data : OutputResponse) : list jsstring :=
  collectUnique [] (citations data).

Fixpoint referenceLines (index : nat) (refs : list jsstring) : jsstring :=
  match refs with
  | [] => []
  | ref :: refs' =>
      lit "[" ++ showNat (index + 1) ++ lit "]: " ++ ref ++ lit " " ++ [nl]
      ++ referenceLines (S index) refs'
  end.

Definition formatReferences (data : OutputResponse) : jsstring :=
  lit "# References" ++ [nl; nl] ++ referenceLines 0 (uniqueReferences data).

Definition formatRepoContextIds (data : OutputResponse) : jsstring :=
  lit "# Repo Context IDs" ++ [nl; nl]
  ++ flat_map (fun id => lit "- " ++ id ++ [nl]) (out_repo_context_ids data).

Record Fence := { open : jsstring; close : jsstring }.

(** [/`+/g] *)
Definition backtickRuns : re := Plus (exactly backtick).

(** The loop of lines 90-92, from a starting maximum. *)
Definition longest (matches : list jsstring) (start : nat) : nat :=
  fold_left (fun m x => Nat.max m (length x)) matches start.

Definition getCodeFence (content : jsstring) : Fence :=
  let backtickMatches := matchAll backtickRuns content in
  let maxBackticks := longest backtickMatches 0 in
  let fenceLength := Nat.max 3 (maxBackticks + 1) in
  let fence := repeat backtick fenceLength in
  {| open := fence; close := fence |}.

(** Fence, content, a newline unless the content ends with one, fence. *)
Definition fencedBlock (content : jsstring) : jsstring :=
  let fence := getCodeFence content in
  open fence ++ [nl] ++ content
  ++ (if endsWith [nl] content then [] else [nl])
  ++ close fence ++ [nl; nl].

(** Lines 117-122.  A read of [uniqueReferences] outside its bounds would
    put [undefined] into the set, and line 128 would throw on it. *)
Fixpoint selectReferences (unique : list jsstring) (selectedNumbers : list Z)
    (included : list jsstring) : result (list jsstring) :=
  match selectedNumbers with
  | [] => Ok included
  | num :: rest =>
      let refIndex := (num - 1)%Z in
      if (0 <=? refIndex)%Z && (refIndex <? Z.of_nat (length unique))%Z then
        match nth_error unique (Z.to_nat refIndex) with
        | Some ref => selectReferences unique rest (setAdd ref included)
        | None => Throw TypeError
        end
      else selectReferences unique rest included
  end.

Definition includedReferences (unique : list jsstring) (includeAll : bool)
    (selectedNumbers : option (list Z)) : result (list jsstring) :=
  if includeAll then Ok (fold_left (fun s ref => setAdd ref s) unique [])
  else match selectedNumbers with
       | Some nums => selectReferences unique nums []
       | None => Ok []
       end.

(** Lines 128-142: file name and line range of a reference string. *)
Definition parseReference (ref : jsstring) : option (jsstring * jsstring) :=
  match indexOf [colon] ref with
  | Some firstColonIndex =>
      let repoPart := trim (substring 0 firstColonIndex ref) in
      let rest := trim (substringFrom (firstColonIndex + 1) ref) in
      match lastIndexOf [colon] rest with
      | Some lastColonIndex =>
          let pathPart := trim (substring 0 lastColonIndex rest) in
          let lineRange := trim (substringFrom (lastColonIndex + 1) rest) in
          Some (repoPart ++ [slash] ++ pathPart, lineRange)
      | None => None
      end
  | None => None
  end.

(** A [Map] from file name to a [Set] of line ranges. *)
Definition RangesMap := list (jsstring * list jsstring).

Fixpoint mapGet {V} (k : jsstring) (m : list (jsstring * V)) : option V :=
  match m with
  | [] => None
  | (k', v) :: m' => if eqb_str k' k then Some v else mapGet k m'
  end.

Definition groupReference (m : RangesMap) (ref : jsstring) : RangesMap :=
  match parseReference ref with
  | Some (fileName, lineRange) =>
      match mapGet fileName m with
      | Some ranges => Obj.set fileName (setAdd lineRange ranges) m
      | None => m ++ [(fileName, [lineRange])]
      end
  | None => m
  end.

Definition fileRangesMap (included : list jsstring) : RangesMap :=
  fold_left groupReference included [].

Definition formatEntry (includedRanges : list jsstring) (entry : ReferencedFile) : jsstring :=
  if arrayIncludes (reference_range entry) includedRanges then
    lit "**[" ++ reference_range entry ++ lit "]:**" ++ [nl; nl]
    ++ fencedBlock (reference_material entry)
  else [].

Definition formatFile (m : RangesMap) (file : jsstring * list ReferencedFile) : jsstring :=
  match mapGet (fst file) m with
  | Some includedRanges =>
      lit "## " ++ fst file ++ [nl; nl]
      ++ flat_map (formatEntry includedRanges) (snd file)
  | None => []
  end.

Definition formatReferencedFiles (data : OutputResponse) (includeAll : bool)
    (selectedNumbers : option (list Z)) : result jsstring :=
  included <- includedReferences (uniqueReferences data) includeAll selectedNumbers ;;
  Ok (lit "# Referenced Files" ++ [nl; nl]
      ++ flat_map (formatFile (fileRangesMap included)) (referenced_files data)).

Definition showFile (includeAll : bool) (selectedFiles : option (list jsstring))
    (fileName : jsstring) : bool :=
  includeAll
  || match selectedFiles with
     | Some files => arrayIncludes fileName files
     | None => false
     end.

Definition formatContext (includeAll : bool) (selectedFiles : option (list jsstring))
    (fileRanges : option (list (jsstring * Validation.LineRange)))
    (context : FullContextItem) : jsstring :=
  let fileName := file_name context in
  if showFile includeAll selectedFiles fileName then
    let lines := split nl (file_text context) in
    let totalLines := Z.of_nat (length lines) in
    let range :=
      match fileRanges with
      | Some ranges =>
          match mapGet fileName ranges with
          | Some r => (Validation.range_from r, Z.min (Validation.range_to r) (totalLines - 1))
          | None => (0, totalLines - 1)%Z
          end
      | None => (0, totalLines - 1)%Z
      end in
    let content := join [nl] (slice (fst range) (snd range + 1) lines) in
    lit "## " ++ fileName ++ lit " [" ++ showZ (fst range) ++ [hyphen] ++ showZ (snd range)
    ++ lit "]" ++ [nl; nl] ++ fencedBlock content
  else [].

Definition formatFullContext (data : OutputResponse) (includeAll : bool)
    (selectedFiles : option (list jsstring))
    (fileRanges : option (list (jsstring * Validation.LineRange))) : jsstring :=
  lit "# Full Context Files" ++ [nl; nl]
  ++ flat_map (formatContext includeAll selectedFiles fileRanges) (full_context data).

Definition formatFullContextNamesOnly (data : OutputResponse) : jsstring :=
  lit "# Full Context Files" ++ [nl; nl]
  ++ flat_map
       (fun context =>
          let totalLines := Z.of_nat (length (split nl (file_text context))) in
          lit "## " ++ file_name context ++ lit " [0-" ++ showZ (totalLines - 1) ++ lit "]"
          ++ [nl; nl])
       (full_context data).

Definition isSome {A} (o : option A) : bool :=
  match o with Some _ => true | None => false end.

Definition generateMarkdown (protoText : jsstring -> jsstring) (data : OutputResponse)
    (options : MarkdownOptions) : result jsstring :=
  let markdown := formatQueryId data ++ [nl] in
  let markdown :=
    if includeAnswer options then markdown ++ formatAnswer protoText data ++ [nl]
    else markdown in
  let markdown := markdown ++ formatRepoContextIds data ++ [nl] in
  let markdown :=
    if includeReferencesList options then markdown ++ formatReferences data ++ [nl]
    else markdown in
  markdown <-
    (if referencesAll options || isSome (referencesNumbers options) then
       files <- formatReferencedFiles data (referencesAll options) (referencesNumbers options) ;;
       Ok (markdown ++ files ++ [nl])
     else Ok markdown) ;;
  let markdown :=
    if includeAnswer options && includeReferencesList options then
      markdown ++ formatFullContextNamesOnly data
    else if contextAll options || isSome (contextFiles options) then
      markdown ++ formatFullContext data (contextAll options) (contextFiles options)
                    (contextRanges options)
    else markdown in
  Ok (trim markdown).

End Markdown.

(** ** The polling loop (automation/deepwiki-automator.js) *)

Module Automator.
Import Transformer.

Definition REGULAR_MODE : list Z := [10; 15; 20; 30; 45; 75; 120; 180; 300]%Z.
Definition DEEP_MODE : list Z := [180; 240; 300; 420; 540; 720; 900]%Z.
Definition STUCK_THRESHOLD_REGULAR : Z := 60000.
Definition STUCK_THRESHOLD_DEEP : Z := 120000.

(** [parseInt(s, 10)] on a trimmed string: an optional sign and the
    longest run of decimal digits; [None] is [NaN]. *)
Fixpoint digitsValue (acc : Z) (s : jsstring) : Z :=
  match s with
  | c :: s' => if is_digit c then digitsValue (acc * 10 + (Z.of_N c - 48)) s' else acc
  | [] => acc
  end.

Definition parseUnsigned (s : jsstring) : option Z :=
  match s with
  | c :: _ => if is_digit c then Some (digitsValue 0 s) else None
  | [] => None
  end.

Definition parseInt (s : jsstring) : option Z :=
  match trimStart s with
  | c :: s' =>
      if N.eqb c 45 then option_map Z.opp (parseUnsigned s')
      else if N.eqb c 43 then parseUnsigned s'
      else parseUnsigned (c :: s')
  | [] => None
  end.

Fixpoint insertSorted (x : Z) (l : list Z) : list Z :=
  match l with
  | [] => [x]
  | y :: l' => if (x <? y)%Z then x :: l else y :: insertSorted x l'
  end.

(** [parsed.sort((a, b) => a - b)] *)
Definition sortAscending (l : list Z) : list Z :=
  fold_left (fun acc x => insertSorted x acc) l [].

(** The callback of [map] at lines 690-696; [None] when it throws. *)
Definition parseInterval (s : jsstring) : option Z :=
  match parseInt (trim s) with
  | Some seconds => if (seconds <=? 0)%Z then None else Some seconds
  | None => None
  end.

Fixpoint parseIntervals (l : list jsstring) : option (list Z) :=
  match l with
  | [] => Some []
  | s :: l' =>
      match parseInterval s with
      | Some seconds =>
          match parseIntervals l' with
          | Some rest => Some (seconds :: rest)
          | None => None
          end
      | None => None
      end
  end.

Definition parseCustomPollSchedule (envVar : option jsstring) (defaultSchedule : list Z)
    : list Z :=
  match envVar with
  | None => defaultSchedule
  | Some env =>
      if eqb_str (trim env) [] then defaultSchedule
      else
        match parseIntervals (split 44 env) with
        | Some parsed =>
            if Nat.eqb (length parsed) 0 then defaultSchedule else sortAscending parsed
        | None => defaultSchedule
        end
  end.

(** What one [fetch] of the status endpoint can give. *)
Inductive JsonBody :=
| BodyUnparsable (message : jsstring)         (* [response.json()] rejects *)
| BodyNull                                    (* the JSON value [null] *)
| BodyJson (queries : option (list ApiQuery)) (* [None]: no array under [queries] *).

Inductive FetchOutcome :=
| FetchRejects (message : jsstring)
| HttpResponse (status : N) (statusText : jsstring) (body : JsonBody).

(** The data handed back by a completed poll. *)
Record ApiData := {
  api_answer : option jsstring;
  api_references : option (list Reference);
  api_stats : option (Obj.t Z);
  api_rawResponse : list ApiQuery
}.

Record Extraction := {
  queryAnswer : jsstring;
  allReferences : list Reference;
  allStats : Obj.t Z
}.

Definition noRange (path : jsstring) : Reference :=
  {| file_path := path; range_start := 0; range_end := 0 |}.

(** The [switch] of lines 885-916. *)
Definition extractItem (e : Extraction) (item : ResponseItem) : Extraction :=
  if negb (Validation.truthy (item_type item)) then e
  else if eqb_str (item_type item) (lit "chunk") then
    match item_data item with
    | DString s =>
        {| queryAnswer := queryAnswer e ++ s;
           allReferences := allReferences e; allStats := allStats e |}
    | _ => e
    end
  else if eqb_str (item_type item) (lit "reference") then
    match item_data item with
    | NoData => e
    | DString s =>
        if Validation.truthy s then
          {| queryAnswer := queryAnswer e;
             allReferences := allReferences e ++ [noRange []]; allStats := allStats e |}
        else e
    | DReference r =>
        {| queryAnswer := queryAnswer e;
           allReferences := allReferences e ++ [r]; allStats := allStats e |}
    | DStats _ | DTuple _ _ _ =>
        {| queryAnswer := queryAnswer e;
           allReferences := allReferences e ++ [noRange []]; allStats := allStats e |}
    end
  else if eqb_str (item_type item) (lit "stats") then
    match item_data item with
    | DStats s =>
        if Validation.truthy (key s) && negb (eqb_str (key s) (lit "__proto__")) then
          {| queryAnswer := queryAnswer e;
             allReferences := allReferences e;
             allStats := Obj.set (key s) (value s) (allStats e) |}
        else e
    | _ => e
    end
  else if eqb_str (item_type item) (lit "file_contents") then
    match item_data item with
    | DTuple repoPath filename _ =>
        {| queryAnswer := queryAnswer e;
           allReferences := allReferences e ++ [noRange (repoPath ++ [slash] ++ filename)];
           allStats := allStats e |}
    | _ => e
    end
  else e.

Definition answerSeparator : jsstring := [nl; nl] ++ lit "---" ++ [nl; nl].

Definition extractQuery (acc : jsstring * Extraction) (query : ApiQuery)
    : jsstring * Extraction :=
  let (fullAnswer, e) := acc in
  let e' :=
    fold_left extractItem (response query)
      {| queryAnswer := []; allReferences := allReferences e; allStats := allStats e |} in
  let fullAnswer' :=
    if Validation.truthy (trim (queryAnswer e')) then
      (if Validation.truthy fullAnswer then fullAnswer ++ answerSeparator else fullAnswer)
      ++ trim (queryAnswer e')
    else fullAnswer in
  (fullAnswer', e').

Definition extractDataFromAllQueries (queries : list ApiQuery) : ApiData :=
  let (fullAnswer, e) :=
    fold_left extractQuery queries
      ([], {| queryAnswer := []; allReferences := []; allStats := [] |}) in
  {| api_answer :=
       if Validation.truthy (trim fullAnswer) then Some (trim fullAnswer) else None;
     api_references :=
       match allReferences e with [] => None | _ :: _ => Some (allReferences e) end;
     api_stats := match allStats e with [] => None | _ :: _ => Some (allStats e) end;
     api_rawResponse := queries |}.

(** The local variables of [fetchApiResponse], with the clock ([now], in
    milliseconds) and the number of stall warnings written to the log. *)
Record PollState := {
  now : Z;
  lastState : jsstring;
  lastResponseLength : nat;
  lastChangeTime : Z;
  attempts : nat;
  stallWarnings : nat
}.

Inductive Check :=
| Completed (data : ApiData)
| Raised (e : exn)
| NotYet.

Definition detectProgressChanges (lastQuery : ApiQuery) (st : PollState) : PollState :=
  let currentResponseLength := length (response lastQuery) in
  let stateChanged := negb (eqb_str (state lastQuery) (lastState st)) in
  let responseGrew := Nat.ltb (lastResponseLength st) currentResponseLength in
  if stateChanged || responseGrew then
    {| now := now st;
       lastState := if stateChanged then state lastQuery else lastState st;
       lastResponseLength := currentResponseLength;
       lastChangeTime := now st;
       attempts := attempts st;
       stallWarnings := stallWarnings st |}
  else st.

Definition checkIfStuck (lastQuery : ApiQuery) (stuckThreshold : Z) (st : PollState)
    : PollState :=
  if (stuckThreshold <? now st - lastChangeTime st)%Z
     && eqb_str (state lastQuery) (lit "pending") then
    {| now := now st; lastState := lastState st;
       lastResponseLength := lastResponseLength st;
       lastChangeTime := lastChangeTime st;
       attempts := attempts st;
       stallWarnings := S (stallWarnings st) |}
  else st.

Definition optTruthy (o : option jsstring) : bool :=
  match o with Some s => Validation.truthy s | None => false end.

(** Lines 817-851: what the body of the [try] does with a parsed answer. *)
Definition classify (stuckThreshold : Z) (queries : option (list ApiQuery)) (st : PollState)
    : Check * PollState :=
  match queries with
  | Some (q :: qs) =>
      let lastQuery := last qs q in
      let st := checkIfStuck lastQuery stuckThreshold (detectProgressChanges lastQuery st) in
      if eqb_str (state lastQuery) (lit "done") || eqb_str (state lastQuery) (lit "complete")
      then (Completed (extractDataFromAllQueries (q :: qs)), st)
      else if eqb_str (state lastQuery) (lit "error") || optTruthy (error lastQuery) then
        (Raised (Error (lit "Query failed: "
                        ++ (if optTruthy (error lastQuery)
                            then match error lastQuery with Some m => m | None => [] end
                            else lit "Unknown error"))), st)
      else (NotYet, st)
  | _ => (NotYet, st)
  end.

Definition advance (st : PollState) (t : Z) : PollState :=
  {| now := t; lastState := lastState st;
     lastResponseLength := lastResponseLength st;
     lastChangeTime := lastChangeTime st;
     attempts := attempts st;
     stallWarnings := stallWarnings st |}.

Definition countAttempt (st : PollState) : PollState :=
  {| now := now st; lastState := lastState st;
     lastResponseLength := lastResponseLength st;
     lastChangeTime := lastChangeTime st;
     attempts := S (attempts st);
     stallWarnings := stallWarnings st |}.

Section Polling.

(** The status endpoint: what a request to [url] issued at time [t] gives,
    and how long it takes. *)
Variable endpoint : jsstring -> Z -> FetchOutcome.
Variable latency : jsstring -> Z -> Z.

(** [checkApiProgress] followed by the body of the [try]. *)
Definition checkOnce (apiUrl : jsstring) (stuckThreshold : Z) (st : PollState)
    : Check * PollState :=
  let outcome := endpoint apiUrl (now st) in
  let st := advance st (now st + latency apiUrl (now st)) in
  match outcome with
  | FetchRejects message => (Raised (Error message), st)
  | HttpResponse status statusText body =>
      if negb ((200 <=? status) && (status <=? 299))%N then
        (Raised (Error (lit "API responded with " ++ showN status ++ lit ": " ++ statusText)), st)
      else
        match body with
        | BodyUnparsable message => (Raised (Error message), st)
        | BodyNull => (Raised TypeError, st)
        | BodyJson queries => classify stuckThreshold queries st
        end
  end.

(** The test of the [catch] clause, lines 854-860. *)
Definition notReadyYet (e : exn) : bool :=
  match e with
  | Error message => includes (lit "404") message
  | TypeError => false
  end.

Definition waitForNextScheduledCheck (startTime offset : Z) (st : PollState) : PollState :=
  let nextCheckTime := (startTime + offset * 1000)%Z in
  if (now st <? nextCheckTime)%Z then advance st nextCheckTime else st.

(** The [while] loop of lines 807-864 over the offsets not yet used, and
    the timeout of lines 865-871. *)
Fixpoint pollLoop (apiUrl : jsstring) (useDeepResearch : bool) (startTime stuckThreshold : Z)
    (schedule : list Z) (st : PollState) : result ApiData * PollState :=
  match schedule with
  | [] =>
      (Throw (Error (lit "Query did not complete within scheduled checks ("
                     ++ (if useDeepResearch then lit "deep research" else lit "regular")
                     ++ lit " mode).")), st)
  | offset :: schedule' =>
      let st := countAttempt (waitForNextScheduledCheck startTime offset st) in
      match checkOnce apiUrl stuckThreshold st with
      | (Completed data, st') => (Ok data, st')
      | (Raised e, st') =>
          if notReadyYet e then
            pollLoop apiUrl useDeepResearch startTime stuckThreshold schedule' st'
          else (Throw e, st')
      | (NotYet, st') =>
          pollLoop apiUrl useDeepResearch startTime stuckThreshold schedule' st'
      end
  end.

(** [fetchApiResponse], called at time [t0] with the two environment
    variables that may override the schedules. *)
Definition fetchApiResponse (envRegular envDeep : option jsstring) (t0 : Z)
    (queryId : jsstring) (useDeepResearch : bool) : result ApiData * PollState :=
  let apiUrl := lit "https://api.devin.ai/ada/query/" ++ queryId in
  let pollSchedule :=
    if useDeepResearch then parseCustomPollSchedule envDeep DEEP_MODE
    else parseCustomPollSchedule envRegular REGULAR_MODE in
  let stuckThreshold :=
    if useDeepResearch then STUCK_THRESHOLD_DEEP else STUCK_THRESHOLD_REGULAR in
  pollLoop apiUrl useDeepResearch t0 stuckThreshold pollSchedule
    {| now := t0; lastState := []; lastResponseLength := 0; lastChangeTime := t0;
       attempts := 0; stallWarnings := 0 |}.

End Polling.

End Automator.

(** ** The question tool (tools/wiki-question.ts) *)

Module Tool.
Import Transformer Markdown Validation.

Record WikiQuestionToolParams := {
  repo : jsstring;
  question : option jsstring;
  paramQueryId : option jsstring;
  useDeepResearch : option bool;
  goDeeper : option bool;
  followUpQuestion : option jsstring;
  includeFullConversation : option bool;
  p_includeAnswer : option bool;
  p_includeReferencesList : option bool;
  p_referencesAll : option bool;
  p_referencesNumbers : option (list Z);
  p_contextAll : option bool;
  p_contextFiles : option (list jsstring);
  p_contextRanges : option (list (jsstring * LineRange));
  saveToFile : option jsstring;
  saveLocation : option jsstring
}.

(** What the tool asks of its collaborators.  The three request handlers
    drive the browser; each stands for the whole of its body. *)
Inductive call : Type -> Type :=
| CacheGetJSON (type identifier repo : jsstring) : call (option OutputResponse)
| HandleGoDeeperRequest (queryId : jsstring) : call (result (OutputResponse * jsstring))
| HandleFollowUpRequest (queryId followUp : jsstring) (deep : bool) (repo : jsstring)
    : call (result (OutputResponse * jsstring))
| HandleNewQuestion (repo question : jsstring) (deep : bool)
    : call (result (OutputResponse * jsstring))
| SaveResponseToFile (data : OutputResponse) (saveToFile : jsstring)
    (saveLocation : option jsstring) (queryId repo : jsstring)
    (question : option jsstring) (goDeeper : bool) (followUpQuestion : option jsstring)
    (markdown : jsstring)
    : call (result jsstring).

(** A computation that returns, throws, or makes a call and goes on with
    the answer. *)
Inductive prog (A : Type) : Type :=
| Return (a : A)
| Raise (e : exn)
| Call (X : Type) (c : call X) (k : X -> prog A).
Arguments Return {A} a.
Arguments Raise {A} e.
Arguments Call {A X} c k.

Fixpoint pbind {A B} (p : prog A) (f : A -> prog B) : prog B :=
  match p with
  | Return a => f a
  | Raise e => Raise e
  | Call c k => Call c (fun x => pbind (k x) f)
  end.

Definition liftResult {A} (r : result A) : prog A :=
  match r with
  | Ok a => Return a
  | Throw e => Raise e
  end.

(** An awaited call whose promise may reject. *)
Definition await {A} (c : call (result A)) : prog A := Call c liftResult.

(** A call that was made, with the answer it got. *)
Inductive made :=
| Made (X : Type) (c : call X) (x : X).
Arguments Made {X} c x.

(** Running a computation against collaborators that answer by [world]. *)
Fixpoint exec {A} (world : forall X, call X -> X) (p : prog A) : list made * result A :=
  match p with
  | Return a => ([], Ok a)
  | Raise e => ([], Throw e)
  | Call c k =>
      let x := world _ c in
      let (trace, r) := exec world (k x) in
      (Made c x :: trace, r)
  end.

Definition isAutomation (m : made) : bool :=
  match m with
  | Made (HandleGoDeeperRequest _) _ => true
  | Made (HandleFollowUpRequest _ _ _ _) _ => true
  | Made (HandleNewQuestion _ _ _) _ => true
  | Made _ _ => false
  end.

(** What a trace shows: the cache asked for [identifier] and answering
    nothing, or answering [cached]; the saving of the file rejected with
    [e]. *)
Definition cacheMiss (identifier repo : jsstring) (m : made) : Prop :=
  match m with
  | Made c x =>
      match c in call X return X -> Prop with
      | CacheGetJSON t i r =>
          fun x => t = lit "question" /\ i = identifier /\ r = repo /\ x = None
      | _ => fun _ => False
      end x
  end.

Definition cacheHit (identifier repo : jsstring) (cached : OutputResponse) (m : made)
    : Prop :=
  match m with
  | Made c x =>
      match c in call X return X -> Prop with
      | CacheGetJSON t i r =>
          fun x => t = lit "question" /\ i = identifier /\ r = repo /\ x = Some cached
      | _ => fun _ => False
      end x
  end.

Definition saveRejected (e : exn) (m : made) : Prop :=
  match m with
  | Made c x =>
      match c in call X return X -> Prop with
      | SaveResponseToFile _ _ _ _ _ _ _ _ _ => fun x => x = Throw e
      | _ => fun _ => False
      end x
  end.

Definition isSaving (m : made) : bool :=
  match m with
  | Made (SaveResponseToFile _ _ _ _ _ _ _ _ _) _ => true
  | Made _ _ => false
  end.

(** An error whose message begins with the code unit [c]. *)
Definition beginsWith (c : N) (e : exn) : Prop :=
  match e with
  | Error (x :: _) => x = c
  | _ => False
  end.

Definition orFalse (o : option bool) : bool :=
  match o with Some b => b | None => false end.
Definition orTrue (o : option bool) : bool :=
  match o with Some b => b | None => true end.

(** An optional string as a condition, and its value when the condition holds. *)
Definition given (o : option jsstring) : option jsstring :=
  match o with
  | Some s => if truthy s then Some s else None
  | None => None
  end.

Definition whenGiven {A} (o : option A) (f : A -> result unit) : result unit :=
  match o with
  | Some a => f a
  | None => Ok tt
  end.

Definition filterConversationForFollowUp (transformedJson : OutputResponse)
    (includeFull : bool) : OutputResponse :=
  if includeFull then transformedJson
  else if Nat.ltb 1 (length (conversation transformedJson)) then
    {| query_id := query_id transformedJson;
       conversation :=
         match rev (conversation transformedJson) with
         | lastQuery :: _ => [lastQuery]
         | [] => []
         end;
       out_repo_context_ids := out_repo_context_ids transformedJson;
       referenced_files := referenced_files transformedJson;
       full_context := full_context transformedJson |}
  else transformedJson.

Definition tempCacheKey (repo question : jsstring) (deep : bool) : jsstring :=
  lit "question_" ++ repo ++ lit "_" ++ question ++ lit "_"
  ++ (if deep then lit "deep" else lit "regular").

Section WithEngine.

Variable protoText : jsstring -> jsstring.

(** Lines 415-448. *)
Definition validateParams (params : WikiQuestionToolParams) : result unit :=
  _ <- validateRepo (repo params) ;;
  _ <- whenGiven (given (question params)) validateQuestion ;;
  _ <- whenGiven (given (paramQueryId params)) validateQueryId ;;
  _ <- whenGiven (given (followUpQuestion params)) validateQuestion ;;
  _ <- whenGiven (p_referencesNumbers params) validateReferencesNumbers ;;
  _ <- whenGiven (p_contextFiles params) validateContextFiles ;;
  _ <- whenGiven (p_contextRanges params) validateContextRanges ;;
  whenGiven (given (saveToFile params)) validateSaveToFile.

(** Lines 464-502: the response the tool works with and the query id. *)
Definition route (params : WikiQuestionToolParams) : prog (OutputResponse * jsstring) :=
  let deep := orFalse (useDeepResearch params) in
  if orFalse (goDeeper params) then
    match given (paramQueryId params) with
    | None => Raise (Error (lit "Query ID is required for Go Deeper functionality"))
    | Some qid => await (HandleGoDeeperRequest qid)
    end
  else
    match given (followUpQuestion params) with
    | Some followUp =>
        match given (paramQueryId params) with
        | None => Raise (Error (lit "Query ID is required for follow-up questions"))
        | Some qid => await (HandleFollowUpRequest qid followUp deep (repo params))
        end
    | None =>
        match given (paramQueryId params) with
        | Some qid =>
            Call (CacheGetJSON (lit "question") qid (repo params))
              (fun transformedJson =>
                 match transformedJson with
                 | None =>
                     Raise (Error (lit "No cached response found for query ID: " ++ qid))
                 | Some cached => Return (cached, qid)
                 end)
        | None =>
            match given (question params) with
            | None => Raise (Error (lit "Question is required when queryId is not provided"))
            | Some q =>
                let tempKey := tempCacheKey (repo params) q deep in
                Call (CacheGetJSON (lit "question") tempKey (repo params))
                  (fun transformedJson =>
                     match transformedJson with
                     | None => await (HandleNewQuestion (repo params) q deep)
                     | Some cached => Return (cached, tempKey)
                     end)
            end
        end
    end.

Definition markdownOptions (params : WikiQuestionToolParams) : MarkdownOptions :=
  {| includeAnswer := orTrue (p_includeAnswer params);
     includeReferencesList := orTrue (p_includeReferencesList params);
     referencesAll := orFalse (p_referencesAll params);
     referencesNumbers := p_referencesNumbers params;
     contextAll := orFalse (p_contextAll params);
     contextFiles := p_contextFiles params;
     contextRanges := p_contextRanges params |}.

(** The response handed to the renderer, lines 505-509. *)
Definition rendered (params : WikiQuestionToolParams) (transformedJson : OutputResponse)
    : OutputResponse :=
  match given (followUpQuestion params) with
  | Some _ =>
      filterConversationForFollowUp transformedJson (orFalse (includeFullConversation params))
  | None => transformedJson
  end.

(** Lines 504-541. *)
Definition finish (params : WikiQuestionToolParams) (transformedJson : OutputResponse)
    (actualQueryId : jsstring) : prog jsstring :=
  pbind (liftResult (generateMarkdown protoText (rendered params transformedJson)
                       (markdownOptions params)))
    (fun markdown =>
       let markdown :=
         if orFalse (useDeepResearch params)
            && (isSome (given (followUpQuestion params)) || isSome (given (question params)))
         then lit "**Deep Research Mode Used**" ++ [nl; nl] ++ markdown
         else markdown in
       match given (saveToFile params) with
       | Some mode =>
           if eqb_str (toLowerCase mode) (lit "save-only")
              || eqb_str (toLowerCase mode) (lit "save-and-show") then
             let queryId :=
               if truthy actualQueryId then actualQueryId
               else if truthy (query_id transformedJson) then query_id transformedJson
               else lit "unknown" in
             pbind (await (SaveResponseToFile transformedJson mode (saveLocation params)
                             queryId (repo params) (question params)
                             (orFalse (goDeeper params)) (followUpQuestion params) markdown))
               (fun filePath =>
                  let head :=
                    lit "Query ID: " ++ queryId ++ [nl] ++ lit "Output saved to: " ++ filePath in
                  if eqb_str (toLowerCase mode) (lit "save-only") then Return head
                  else Return (head ++ [nl; nl] ++ lit "---" ++ [nl; nl] ++ markdown))
           else Return markdown
       | None => Return markdown
       end).

Definition wikiQuestionTool (params : WikiQuestionToolParams) : prog jsstring :=
  pbind (liftResult (validateParams params))
    (fun _ => pbind (route params) (fun r => finish params (fst r) (snd r))).

End WithEngine.

End Tool.

(** ** The notions in which the properties are stated

    Among them the readings of the specification that are compared with
    the code. *)

Module Spec.
Import Validation.

(** A segment of [owner/repo]: not empty, alphanumerics and hyphens only,
    no hyphen at either end. *)
Definition segmentForm (s : jsstring) : Prop :=
  s <> []
  /\ Forall (fun c => is_alnum c = true \/ c = hyphen) s
  /\ hd_error s <> Some hyphen
  /\ hd_error (rev s) <> Some hyphen.

Definition ownerRepoForm (s : jsstring) : Prop :=
  exists owner name, s = owner ++ [slash] ++ name /\ segmentForm owner /\ segmentForm name.

(** A query identifier: not empty, alphanumerics, hyphens and underscores only. *)
Definition queryIdForm (s : jsstring) : Prop :=
  s <> [] /\ Forall (fun c => is_alnum c = true \/ c = hyphen \/ c = 95%N) s.

(** A selected number that is a position of the reference list. *)
Definition inBounds (unique : list jsstring) (num : Z) : bool :=
  (1 <=? num)%Z && (num <=? Z.of_nat (length unique))%Z.

(** The options with another selection of reference numbers. *)
Definition selecting (options : Markdown.MarkdownOptions) (numbers : list Z)
    : Markdown.MarkdownOptions :=
  {| Markdown.includeAnswer := Markdown.includeAnswer options;
     Markdown.includeReferencesList := Markdown.includeReferencesList options;
     Markdown.referencesAll := Markdown.referencesAll options;
     Markdown.referencesNumbers := Some numbers;
     Markdown.contextAll := Markdown.contextAll options;
     Markdown.contextFiles := Markdown.contextFiles options;
     Markdown.contextRanges := Markdown.contextRanges options |}.

(** The line range [r] of file [f] is selected in the map [m]. *)
Definition covers (m : Markdown.RangesMap) (f r : jsstring) : Prop :=
  exists rs, Markdown.mapGet f m = Some rs /\ In r rs.

(** The file [f] has an entry in the map [m]. *)
Definition listed (m : Markdown.RangesMap) (f : jsstring) : Prop :=
  Markdown.mapGet f m <> None.

(** A text chunk that the assembler accumulates. *)
Definition isText (item : Transformer.ResponseItem) : bool :=
  eqb_str (Transformer.item_type item) (lit "chunk")
  && match Transformer.item_data item with
     | Transformer.DString s => Validation.truthy s
     | _ => false
     end.

(** A citation fragment, and one whose range is not 0-0. *)
Definition isCitation (item : Transformer.ResponseItem) : bool :=
  eqb_str (Transformer.item_type item) (lit "reference")
  && match Transformer.item_data item with
     | Transformer.DReference _ => true
     | _ => false
     end.

Definition isProperCitation (item : Transformer.ResponseItem) : bool :=
  eqb_str (Transformer.item_type item) (lit "reference")
  && match Transformer.item_data item with
     | Transformer.DReference r => negb (Transformer.degenerate r)
     | _ => false
     end.

(** Text is pending in the assembler's buffer. *)
Definition pendingText (a : Transformer.Assembly) : bool :=
  match Transformer.currentChunks a with [] => false | _ :: _ => true end.

(** The citations that arrive while text is pending: text since the
    sequence began or since the last such citation. *)
Fixpoint closingCitations (pending : bool) (items : list Transformer.ResponseItem) : nat :=
  match items with
  | [] => 0
  | item :: items' =>
      if isText item then closingCitations true items'
      else if isCitation item then
        (if pending then 1 else 0) + closingCitations false items'
      else closingCitations pending items'
  end.

Definition hasReference (segment : Transformer.AnswerSegment) : bool :=
  Markdown.isSome (Transformer.reference segment).

Definition referencedSegments (segments : list Transformer.AnswerSegment) : nat :=
  length (filter hasReference segments).

(** The input with another list of references. *)
Definition withReferences (input : Transformer.InputResponse)
    (refs : list Transformer.Reference) : Transformer.InputResponse :=
  {| Transformer.timestamp := Transformer.timestamp input;
     Transformer.success := Transformer.success input;
     Transformer.queryId := Transformer.queryId input;
     Transformer.answer := Transformer.answer input;
     Transformer.references := refs;
     Transformer.stats := Transformer.stats input;
     Transformer.rawResponse := Transformer.rawResponse input |}.

Definition proper (ref : Transformer.Reference) : bool :=
  negb (Transformer.degenerate ref).

(** The segments of one query, against its fragments: as many referenced
    segments as citations that closed pending text, followed by at most
    one segment without reference. *)
Definition assembledFrom (items : list Transformer.ResponseItem)
    (segments : list Transformer.AnswerSegment) : Prop :=
  referencedSegments segments = closingCitations false items
  /\ exists referenced trailing,
       segments = referenced ++ trailing
       /\ Forall (fun s => hasReference s = true) referenced
       /\ (trailing = []
           \/ exists t, trailing = [{| Transformer.text := t; Transformer.reference := None |}]).

(** The reading of the repository validator on the string as given, not
    trimmed. *)
Definition rejectsUntrimmed (repo : jsstring) : Prop :=
  throws (Validation.validateRepo repo) <-> ~ ownerRepoForm repo.

(** A fragment tagged [reference] whose data is an object of another shape. *)
Definition mistyped (item : Transformer.ResponseItem) : bool :=
  eqb_str (Transformer.item_type item) (lit "reference")
  && match Transformer.item_data item with
     | Transformer.DStats _ => true
     | _ => false
     end.

(** The reading of the example that cites three lines, 9 to 11. *)
Definition citesThreeLines (input : Transformer.InputResponse) (lines : list jsstring)
    : Prop :=
  exists out k entries entry,
    Transformer.transformResponse input = Ok out
    /\ In (k, entries) (Transformer.referenced_files out)
    /\ In entry entries
    /\ Transformer.reference_material entry = join [nl] (firstn 3 (skipn 9 lines)).

(** The reading that counts the citations whose range is not 0-0. *)
Definition countsProperCitations (input : Transformer.InputResponse) : Prop :=
  forall out,
    Transformer.transformResponse input = Ok out ->
    Forall2
      (fun query cq =>
         referencedSegments (Transformer.answer_segments cq)
         = length (filter isProperCitation (Transformer.response query)))
      (Transformer.queriesOf (Transformer.rawResponse input))
      (Transformer.conversation out).

End Spec.

(** ** Concrete inputs *)

Module Examples.
Import Transformer.

Definition chunk (s : string) : ResponseItem :=
  {| item_type := lit "chunk"; item_data := DString (lit s) |}.

Definition refTo (path : string) (a b : Z) : Reference :=
  {| file_path := lit path; range_start := a; range_end := b |}.

Definition citation (path : string) (a b : Z) : ResponseItem :=
  {| item_type := lit "reference"; item_data := DReference (refTo path a b) |}.

Definition capture (repoPath filename : string) (content : jsstring) : ResponseItem :=
  {| item_type := lit "file_contents";
     item_data := DTuple (lit repoPath) (lit filename) content |}.

Definition queryOf (question : jsstring) (ids : list jsstring) (items : list ResponseItem)
    : ApiQuery :=
  {| user_query := question; use_knowledge := true; engine_id := [];
     repo_context_ids := ids; response := items; error := None;
     state := lit "done"; redis_stream := None |}.

Definition inputOf (id : jsstring) (refs : list Reference) (queries : list ApiQuery)
    : InputResponse :=
  {| timestamp := []; success := true; queryId := id; answer := [];
     references := refs; stats := []; rawResponse := Many queries |}.

(** The example of the specification: text, a citation of lines 10-12 of
    [a/b/x.py], text, and the capture of that file. *)
Definition lookingAt (id question : jsstring) (ids : list jsstring) (content : jsstring)
    : InputResponse :=
  inputOf id [refTo "a/b/x.py" 10 12]
    [queryOf question ids
       [chunk "Looking at "; citation "a/b/x.py" 10 12; chunk " next.";
        capture "a/b" "x.py" content]].

(** Twenty lines, [line 0] to [line 19]. *)
Definition twentyLines : list jsstring :=
  map (fun n => lit "line " ++ showNat n) (seq 0 20).

(** The same with a second reference to the file, of range 0-0, as the
    extraction of the automator adds one for every capture. *)
Definition lookingAtTwice (content : jsstring) : InputResponse :=
  Spec.withReferences (lookingAt (lit "q1") (lit "why") [] content)
    [refTo "a/b/x.py" 0 0; refTo "a/b/x.py" 10 12].

(** Text followed by a citation with the range 0-0. *)
Definition degenerateCitation : InputResponse :=
  inputOf (lit "q1") []
    [queryOf (lit "why") [] [chunk "See the README"; citation "o/r/README.md" 0 0]].

(** A fragment tagged [reference] that carries a statistic. *)
Definition mistypedReference : InputResponse :=
  inputOf (lit "q1") []
    [queryOf (lit "why") []
       [chunk "See ";
        {| item_type := lit "reference";
           item_data := DStats {| key := lit "tokens"; value := 1 |} |}]].

(** A reference to a path that names a property of [Object.prototype]. *)
Definition inheritedPath : InputResponse :=
  inputOf (lit "q1") [refTo "constructor" 1 2] [queryOf (lit "why") [] [chunk "See "]].

(** A document with two turns and two distinct references, the first of
    them cited twice. *)
Definition twoReferences : OutputResponse :=
  {| query_id := lit "q1";
     conversation :=
       [{| cq_user_query := lit "why";
           answer_segments :=
             [{| text := lit "First"; reference := Some (lit "o/r: a.py:1-2") |};
              {| text := lit "second"; reference := Some (lit "o/r: b.py:3-4") |}] |};
        {| cq_user_query := lit "and then";
           answer_segments :=
             [{| text := lit "Again"; reference := Some (lit "o/r: a.py:1-2") |};
              {| text := lit "done"; reference := None |}] |}];
     out_repo_context_ids := [lit "ctx"];
     referenced_files :=
       [(lit "o/r/a.py",
         [{| reference_range := lit "1-2"; reference_material := lit "x = `1`" |}]);
        (lit "o/r/b.py",
         [{| reference_range := lit "3-4"; reference_material := lit "y" |}])];
     full_context := [] |}.

Definition standardOptions : Markdown.MarkdownOptions :=
  {| Markdown.includeAnswer := true;
     Markdown.includeReferencesList := true;
     Markdown.referencesAll := false;
     Markdown.referencesNumbers := None;
     Markdown.contextAll := false;
     Markdown.contextFiles := None;
     Markdown.contextRanges := None |}.

(** A status endpoint that answers 404 until twenty seconds have passed
    and the finished query afterwards, at once. *)
Definition doneQuery : ApiQuery :=
  queryOf (lit "why") [] [chunk "Because."].

Definition lateEndpoint (url : jsstring) (t : Z) : Automator.FetchOutcome :=
  if (t <? 20000)%Z then Automator.HttpResponse 404 (lit "Not Found") Automator.BodyNull
  else Automator.HttpResponse 200 (lit "OK") (Automator.BodyJson (Some [doneQuery])).

Definition noLatency (url : jsstring) (t : Z) : Z := 0.

(** A call for a cached answer, and collaborators with an empty cache. *)
Definition cachedCall : Tool.WikiQuestionToolParams :=
  {| Tool.repo := lit "o/r"; Tool.question := None;
     Tool.paramQueryId := Some (lit "query-12345");
     Tool.useDeepResearch := None; Tool.goDeeper := None;
     Tool.followUpQuestion := None; Tool.includeFullConversation := None;
     Tool.p_includeAnswer := None; Tool.p_includeReferencesList := None;
     Tool.p_referencesAll := None; Tool.p_referencesNumbers := None;
     Tool.p_contextAll := None; Tool.p_contextFiles := None;
     Tool.p_contextRanges := None; Tool.saveToFile := None;
     Tool.saveLocation := None |}.

Definition emptyWorld (X : Type) (c : Tool.call X) : X :=
  match c in Tool.call X return X with
  | Tool.CacheGetJSON _ _ _ => None
  | Tool.HandleGoDeeperRequest _ => Throw TypeError
  | Tool.HandleFollowUpRequest _ _ _ _ => Throw TypeError
  | Tool.HandleNewQuestion _ _ _ => Throw TypeError
  | Tool.SaveResponseToFile _ _ _ _ _ _ _ _ _ => Throw TypeError
  end.

End Examples.


(** ** Further notions: the polling loop *)

Module PollingNotions.
Import Transformer Automator.

(** An answer of the status endpoint for a query that is still being
    worked on: not found yet, or found with its last turn pending and no
    error recorded. *)
Definition stillWorking (o : FetchOutcome) : Prop :=
  match o with
  | FetchRejects _ => False
  | HttpResponse status _ body =>
      status = 404%N
      \/ (((200 <=? status) && (status <=? 299))%N = true
          /\ match body with
             | BodyJson (Some (q :: qs)) =>
                 state (last qs q) = lit "pending"
                 /\ optTruthy (error (last qs q)) = false
             | _ => False
             end)
  end.

(** The message of the timeout of lines 865-871. *)
Definition timeoutMessage (useDeepResearch : bool) : jsstring :=
  lit "Query did not complete within scheduled checks ("
  ++ (if useDeepResearch then lit "deep research" else lit "regular")
  ++ lit " mode).".

(** The state in which the check of [offset] is made. *)
Definition atCheck (startTime offset : Z) (st : PollState) : PollState :=
  countAttempt (waitForNextScheduledCheck startTime offset st).

(** Two states that differ at most in the number of warnings logged. *)
Definition sameProgress (a b : PollState) : Prop :=
  now a = now b /\ lastState a = lastState b
  /\ lastResponseLength a = lastResponseLength b
  /\ lastChangeTime a = lastChangeTime b
  /\ attempts a = attempts b.

(** A schedule whose offsets do not decrease. *)
Fixpoint ascending (l : list Z) : bool :=
  match l with
  | x :: l' =>
      match l' with
      | y :: _ => (x <=? y)%Z && ascending l'
      | [] => true
      end
  | [] => true
  end.

End PollingNotions.

(** ** Further notions: the response assembler *)

Module TransformerNotions.
Import Transformer.

(** The text that a fragment adds to the answer of its turn. *)
Definition chunkData (item : ResponseItem) : jsstring :=
  if eqb_str (item_type item) (lit "chunk") then
    match item_data item with
    | DString s => s
    | _ => []
    end
  else [].

Definition textOf (items : list ResponseItem) : jsstring := flat_map chunkData items.

Definition segmentsText (segments : list AnswerSegment) : jsstring :=
  flat_map text segments.

(** The file that a fragment captures. *)
Definition captureOf (item : ResponseItem) : list FullContextItem :=
  match item_data item with
  | DTuple repoPath filename content =>
      if eqb_str (item_type item) (lit "file_contents") then
        [{| file_name := repoPath ++ [slash] ++ filename; file_text := content |}]
      else []
  | _ => []
  end.

Definition capturesOf (queries : list ApiQuery) : list FullContextItem :=
  flat_map (fun query => flat_map captureOf (response query)) queries.

(** The last capture of a path. *)
Definition lastCapture (path : jsstring) (captures : list FullContextItem)
    : option FullContextItem :=
  find (fun c => eqb_str (file_name c) path) (rev captures).

(** Lines [first] to [last] of a file, both included, counted from 1. *)
Definition linesFromTo (first last : Z) (lines : list jsstring) : list jsstring :=
  firstn (Z.to_nat (last + 1 - first)) (skipn (Z.to_nat (first - 1)) lines).

(** The captures so far, and the lines on record for a path: those of
    its last capture. *)
Definition recorded (c0 c : Captures) (new : list FullContextItem) : Prop :=
  captured c = captured c0 ++ new
  /\ forall path,
       Obj.getOwn path (fileContentMap c)
       = match lastCapture path new with
         | Some x => Some (split nl (file_text x))
         | None => Obj.getOwn path (fileContentMap c0)
         end.


End TransformerNotions.

(** ** The automator around the polling loop (automation/deepwiki-automator.js) *)

Module Automation.
Import Regex Transformer Automator.

(** [/search\/([^/]+)$/] *)
Definition searchUrlPattern : re :=
  Seq (Lit (lit "search/")) (Seq (Grp (Plus (excluding slash))) Eol).

Definition extractQueryId (url : jsstring) : option jsstring :=
  match match_ searchUrlPattern url with
  | Some (m1 :: _) => Some m1
  | _ => None
  end.

Definition constructQueryUrl (queryId : jsstring) : jsstring :=
  lit "https://deepwiki.com/search/" ++ queryId.

(** [s.split(sep)[1]] for a string that includes [sep]: what lies between
    the first occurrence of [sep] and the next one after it. *)
Definition secondPart (sep s : jsstring) : jsstring :=
  match indexOf sep s with
  | Some i =>
      let rest := skipn (i + length sep) s in
      match indexOf sep rest with
      | Some j => firstn j rest
      | None => rest
      end
  | None => []
  end.

Definition extractRepoPath (repoUrl : jsstring) : jsstring :=
  if includes (lit "deepwiki.com/") repoUrl then secondPart (lit "deepwiki.com/") repoUrl
  else if includes (lit "github.com/") repoUrl then secondPart (lit "github.com/") repoUrl
  else repoUrl.

(** What [askQuestion], [goDeeper] and [sendFollowUp] resolve to. *)
Record AutomationResult := {
  r_success : bool;
  r_queryId : option jsstring;
  r_answer : option jsstring;
  r_references : option (list Reference);
  r_stats : option (Obj.t Z);
  r_rawResponse : option (list ApiQuery);
  r_error : option jsstring
}.

(** [{ success: true, queryId, ...apiResponse }] *)
Definition succeeded (queryId : jsstring) (apiResponse : ApiData) : AutomationResult :=
  {| r_success := true;
     r_queryId := Some queryId;
     r_answer := api_answer apiResponse;
     r_references := api_references apiResponse;
     r_stats := api_stats apiResponse;
     r_rawResponse := Some (api_rawResponse apiResponse);
     r_error := None |}.

Section Browser.

(** The message that the engine gives to its own [TypeError]. *)
Variable typeErrorMessage : jsstring.

Definition messageOf (e : exn) : jsstring :=
  match e with
  | Error message => message
  | TypeError => typeErrorMessage
  end.

(** [{ success: false, error: error.message }] *)
Definition failed (e : exn) : AutomationResult :=
  {| r_success := false;
     r_queryId := None;
     r_answer := None;
     r_references := None;
     r_stats := None;
     r_rawResponse := None;
     r_error := Some (messageOf e) |}.

(** The [try], [catch] and [finally] of the three entry points: the body
    gives a result or throws, a throw becomes a failed result, and the
    cleanup runs last; if the cleanup throws, the call rejects. *)
Definition guarded (body : result AutomationResult) (cleanup : result unit)
    : result AutomationResult :=
  let outcome :=
    match body with
    | Ok r => r
    | Throw e => failed e
    end in
  _ <- cleanup ;;
  Ok outcome.

(** [askQuestion], lines 319-395.  [newUrl] is what the browser steps up
    to the opening of the answer tab give: the address of that tab, or a
    throw; [settle] are the steps on the tab before the polling; [poll] is
    [fetchApiResponse]. *)
Definition askQuestion (newUrl : result jsstring) (settle : result unit)
    (poll : jsstring -> bool -> result ApiData) (cleanup : result unit)
    (useDeepResearch : bool) : result AutomationResult :=
  guarded
    (url <- newUrl ;;
     match extractQueryId url with
     | Some queryId =>
         if Validation.truthy queryId then
           _ <- settle ;;
           apiResponse <- poll queryId useDeepResearch ;;
           Ok (succeeded queryId apiResponse)
         else Throw (Error (lit "Failed to extract query ID from URL: " ++ url))
     | None => Throw (Error (lit "Failed to extract query ID from URL: " ++ url))
     end)
    cleanup.

(** [goDeeper], lines 417-478: the new query is always polled in deep
    research mode. *)
Definition goDeeper (newUrl : result jsstring) (settle : result unit)
    (poll : jsstring -> bool -> result ApiData) (cleanup : result unit)
    : result AutomationResult :=
  guarded
    (url <- newUrl ;;
     match extractQueryId url with
     | Some newQueryId =>
         if Validation.truthy newQueryId then
           _ <- settle ;;
           apiResponse <- poll newQueryId true ;;
           Ok (succeeded newQueryId apiResponse)
         else Throw (Error (lit "Failed to extract new query ID from Go Deeper URL: " ++ url))
     | None => Throw (Error (lit "Failed to extract new query ID from Go Deeper URL: " ++ url))
     end)
    cleanup.

(** [sendFollowUp], lines 502-563: the query id is kept. *)
Definition sendFollowUp (submit : result unit)
    (poll : jsstring -> bool -> result ApiData) (cleanup : result unit)
    (queryId : jsstring) (useDeepResearch : bool) : result AutomationResult :=
  guarded
    (_ <- submit ;;
     apiResponse <- poll queryId useDeepResearch ;;
     Ok (succeeded queryId apiResponse))
    cleanup.

End Browser.

End Automation.

(** ** The request handlers of the question tool (tools/wiki-question.ts) *)

Module Handlers.
Import Transformer Automation.

(** What a handler asks of its collaborators: the automator, the clock
    and the cache. *)
Inductive call : Type -> Type :=
| AskQuestion (repoUrl question : jsstring) (deep : bool) : call (result AutomationResult)
| GoDeeper (queryId : jsstring) : call (result AutomationResult)
| SendFollowUp (queryId followUpQuestion : jsstring) (deep : bool)
    : call (result AutomationResult)
| Now : call jsstring
| CacheSetJSON (type identifier : jsstring) (data : OutputResponse) (repo : jsstring)
    : call (result unit).

Inductive prog (A : Type) : Type :=
| Return (a : A)
| Raise (e : exn)
| Call (X : Type) (c : call X) (k : X -> prog A).
Arguments Return {A} a.
Arguments Raise {A} e.
Arguments Call {A X} c k.

Fixpoint pbind {A B} (p : prog A) (f : A -> prog B) : prog B :=
  match p with
  | Return a => f a
  | Raise e => Raise e
  | Call c k => Call c (fun x => pbind (k x) f)
  end.

Definition liftResult {A} (r : result A) : prog A :=
  match r with
  | Ok a => Return a
  | Throw e => Raise e
  end.

Definition await {A} (c : call (result A)) : prog A := Call c liftResult.

Inductive made :=
| Made (X : Type) (c : call X) (x : X).
Arguments Made {X} c x.

Fixpoint exec {A} (world : forall X, call X -> X) (p : prog A) : list made * result A :=
  match p with
  | Return a => ([], Ok a)
  | Raise e => ([], Throw e)
  | Call c k =>
      let x := world _ c in
      let (trace, r) := exec world (k x) in
      (Made c x :: trace, r)
  end.

(** The writes to the cache that a trace shows. *)
Definition cacheWrite (m : made) : list (jsstring * jsstring * OutputResponse * jsstring) :=
  match m with
  | Made (CacheSetJSON type identifier data repo) _ => [(type, identifier, data, repo)]
  | Made _ _ => []
  end.

Definition cacheWrites (trace : list made) :=
  flat_map cacheWrite trace.

Definition orEmpty (o : option jsstring) : jsstring :=
  match o with Some s => s | None => [] end.

(** [`${result.error}`] *)
Definition errorText (r : AutomationResult) : jsstring :=
  match r_error r with
  | Some message => message
  | None => lit "undefined"
  end.

(** The object literal of lines 42-59, 103-120 and 162-179: the input of
    the assembler, with a single empty turn when the result carries no
    raw response. *)
Definition toInputResponse (now userQuery : jsstring) (r : AutomationResult)
    : InputResponse :=
  {| timestamp := now;
     success := r_success r;
     queryId := orEmpty (r_queryId r);
     answer := orEmpty (r_answer r);
     references := match r_references r with Some l => l | None => [] end;
     stats := match r_stats r with Some o => o | None => [] end;
     rawResponse :=
       match r_rawResponse r with
       | Some queries => Many queries
       | None =>
           Single {| user_query := userQuery; use_knowledge := true; engine_id := [];
                     repo_context_ids := []; response := []; error := None;
                     state := lit "done"; redis_stream := None |}
       end |}.

Definition handleNewQuestion (repo question : jsstring) (useDeepResearch : bool)
    : prog (OutputResponse * jsstring) :=
  pbind (await (AskQuestion repo question useDeepResearch)) (fun r =>
  if negb (r_success r) then
    Raise (Error (lit "Failed to get answer: " ++ errorText r))
  else
    Call Now (fun now =>
    pbind (liftResult (transformResponse (toInputResponse now question r)))
      (fun transformedJson =>
    let responseQueryId := orEmpty (r_queryId r) in
    if Validation.truthy responseQueryId then
      pbind (await (CacheSetJSON (lit "question") responseQueryId transformedJson repo))
        (fun _ => Return (transformedJson, responseQueryId))
    else
      let tempCacheKey := Tool.tempCacheKey repo question useDeepResearch in
      pbind (await (CacheSetJSON (lit "question") tempCacheKey transformedJson repo))
        (fun _ => Return (transformedJson, tempCacheKey))))).

Definition handleFollowUpRequest (paramQueryId followUpQuestion : jsstring)
    (useDeepResearch : bool) (repo : jsstring) : prog (OutputResponse * jsstring) :=
  pbind (await (SendFollowUp paramQueryId followUpQuestion useDeepResearch)) (fun r =>
  if negb (r_success r) then
    Raise (Error (lit "Failed to send follow-up: " ++ errorText r))
  else
    Call Now (fun now =>
    pbind (liftResult
             (transformResponse
                (toInputResponse now (lit "Follow-up: " ++ followUpQuestion) r)))
      (fun transformedJson =>
    pbind (await (CacheSetJSON (lit "question") paramQueryId transformedJson repo))
      (fun _ => Return (transformedJson, paramQueryId))))).

Definition handleGoDeeperRequest (paramQueryId : jsstring)
    : prog (OutputResponse * jsstring) :=
  pbind (await (GoDeeper paramQueryId)) (fun r =>
  if negb (r_success r) then
    Raise (Error (lit "Failed to execute Go Deeper: " ++ errorText r))
  else
    Call Now (fun now =>
    pbind (liftResult
             (transformResponse
                (toInputResponse now (lit "Go Deeper from " ++ paramQueryId) r)))
      (fun transformedJson =>
    let newQueryId := orEmpty (r_queryId r) in
    if Validation.truthy newQueryId then
      (* [result.queryId?.split('_')[0] || ''] *)
      let repo := hd [] (split 95 newQueryId) in
      pbind (await (CacheSetJSON (lit "question") newQueryId transformedJson repo))
        (fun _ => Return (transformedJson, newQueryId))
    else Return (transformedJson, newQueryId)))).

End Handlers.

(** ** Further notions: the document renderer *)

Module RendererNotions.
Import Transformer Markdown.

(** The place of a string in a list, counted from 1; 0 when it is absent. *)
Fixpoint position (r : jsstring) (l : list jsstring) : nat :=
  match l with
  | [] => 0
  | x :: l' =>
      if eqb_str x r then 1
      else match position r l' with
           | 0 => 0
           | S n => S (S n)
           end
  end.

(** The reference that a segment cites, if any. *)
Definition cited (segment : AnswerSegment) : list jsstring :=
  match citation segment with
  | Some r => [r]
  | None => []
  end.

(** The text of a segment, marked with the number that its reference has
    in the list [u]. *)
Definition markedSegment (u : list jsstring) (segment : AnswerSegment) : jsstring :=
  text segment
  ++ match citation segment with
     | Some r => lit " [" ++ showNat (position r u) ++ lit "]"
     | None => []
     end.

Definition followUpHeading (query : ConversationQuery) : jsstring :=
  [nl] ++ lit "---" ++ [nl; nl] ++ lit "**Follow-up:** " ++ cq_user_query query ++ [nl; nl].

Fixpoint markedTurns (i : nat) (u : list jsstring) (conv : list ConversationQuery)
    : jsstring :=
  match conv with
  | [] => []
  | query :: conv' =>
      (if Nat.ltb 0 i then followUpHeading query else [])
      ++ flat_map (markedSegment u) (answer_segments query)
      ++ markedTurns (S i) u conv'
  end.

(** A reference map that gives every string of [u] its place in [u], and
    nothing else. *)
Definition numbers (m : Obj.t nat) (u : list jsstring) : Prop :=
  forall r,
    Obj.getOwn r m = if arrayIncludes r u then Some (position r u) else None.

(** The numbers 1 to [n]. *)
Definition everyNumber (n : nat) : list Z := map Z.of_nat (seq 1 n).

(** The options with another selection of context files. *)
Definition withContext (options : MarkdownOptions) (all : bool)
    (files : option (list jsstring))
    (ranges : option (list (jsstring * Validation.LineRange))) : MarkdownOptions :=
  {| includeAnswer := includeAnswer options;
     includeReferencesList := includeReferencesList options;
     referencesAll := referencesAll options;
     referencesNumbers := referencesNumbers options;
     contextAll := all;
     contextFiles := files;
     contextRanges := ranges |}.

(** Two responses that differ at most in the texts of their captures,
    the number of lines of each capture being the same. *)
Definition sameOutline (a b : OutputResponse) : Prop :=
  query_id a = query_id b
  /\ conversation a = conversation b
  /\ out_repo_context_ids a = out_repo_context_ids b
  /\ referenced_files a = referenced_files b
  /\ Forall2
       (fun x y =>
          file_name x = file_name y
          /\ length (split nl (file_text x)) = length (split nl (file_text y)))
       (full_context a) (full_context b).

(** A path [owner/repo/file] of a repository that the validator accepts,
    with a file name that holds no colon and no blank at either end. *)
Definition repositoryPath (owner repo file : jsstring) : Prop :=
  Spec.segmentForm owner /\ Spec.segmentForm repo
  /\ Forall (fun c => c <> colon) file /\ trim file = file.

End RendererNotions.

(** ** The validators of the wiki tool (utils/validation.ts) *)

Module WikiValidation.
Import Validation.

Fixpoint checkChapters (i : nat) (l : list jsstring) : result unit :=
  match l with
  | [] => Ok tt
  | chapter :: l' =>
      if Nat.eqb (length (trim chapter)) 0 then
        Throw (Error (lit "Chapter at index " ++ showNat i ++ lit " cannot be empty"))
      else checkChapters (S i) l'
  end.

Definition validateChapters (chapters : list jsstring) : result unit :=
  if Nat.eqb (length chapters) 0 then
    Throw (Error (lit "Chapters array cannot be empty"))
  else checkChapters 0 chapters.

(** The depth is an integer here; the tests of its type succeed. *)
Definition validateDepth (depth : Z) : result unit :=
  if (depth <? 1)%Z || (4 <? depth)%Z then
    Throw (Error (lit "Depth must be between 1 and 4, got " ++ showZ depth))
  else Ok tt.

Fixpoint checkChapterDepths (l : list (jsstring * Z)) : result unit :=
  match l with
  | [] => Ok tt
  | (chapter, depth) :: l' =>
      if Nat.eqb (length (trim chapter)) 0 then
        Throw (Error (lit "Chapter name in chapterDepths cannot be empty"))
      else
        _ <- validateDepth depth ;;
        checkChapterDepths l'
  end.

(** The argument is [Object.entries(chapterDepths)]. *)
Definition validateChapterDepths (entries : list (jsstring * Z)) : result unit :=
  if Nat.eqb (length entries) 0 then
    Throw (Error (lit "Chapter depths object cannot be empty"))
  else checkChapterDepths entries.

Definition validateAction (action : jsstring) : result unit :=
  let normalized := toLowerCase action in
  if negb (eqb_str normalized (lit "structure"))
     && negb (eqb_str normalized (lit "extract")) then
    Throw (Error (lit "Action must be either " ++ quoted (lit "structure") ++ lit " or "
                  ++ quoted (lit "extract") ++ lit ", got " ++ quoted action))
  else Ok tt.

End WikiValidation.

(** ** The names of the saved files (utils/file-helpers.js, tools/wiki-question.ts) *)

Module FileHelpers.
Import Validation.

(** [s.split(/\s+/)]: the runs of code units between the runs of blanks;
    a blank at either end gives an empty first or last part. *)
Fixpoint splitBlanks (s : jsstring) : list jsstring :=
  match s with
  | [] => [[]]
  | c :: s' =>
      if is_space c then
        match s' with
        | c' :: _ => if is_space c' then splitBlanks s' else [] :: splitBlanks s'
        | [] => [] :: splitBlanks s'
        end
      else match splitBlanks s' with
           | p :: ps => (c :: p) :: ps
           | [] => [[c]]
           end
  end.

(** [s.replace(/[^a-zA-Z0-9\s]/g, ' ')] *)
Definition blankOut (s : jsstring) : jsstring :=
  map (fun c => if is_alnum c || is_space c then c else 32%N) s.

Definition stopWords : list jsstring :=
  [lit "how"; lit "what"; lit "why"; lit "when"; lit "where"; lit "the"; lit "and";
   lit "for"; lit "with"].

Definition meaningful (word : jsstring) : bool :=
  Nat.ltb 2 (length word) && negb (Markdown.arrayIncludes word stopWords).

(** The lower case of the question is taken before everything outside
    letters, digits and blanks is blanked out, so that of a code unit
    outside ASCII only an ASCII letter in its lower case can survive. *)
Definition generateDescriptiveName (question : option jsstring) : jsstring :=
  match Tool.given question with
  | Some q =>
      let words :=
        join [hyphen]
          (firstn 3 (filter meaningful (splitBlanks (blankOut (toLowerCase q))))) in
      if truthy words then words else lit "query"
  | None => lit "query"
  end.

(** [s.replace(a, b)] for two code units: the first [a] becomes [b]. *)
Fixpoint replaceFirst (a b : N) (s : jsstring) : jsstring :=
  match s with
  | [] => []
  | c :: s' => if N.eqb c a then b :: s' else c :: replaceFirst a b s'
  end.

Definition getRepoFolder (repo : jsstring) : jsstring := replaceFirst slash hyphen repo.

(** The name of the file that [saveResponseToFile] writes when no
    location is given; [dateStr] and [timeStr] come from the clock. *)
Definition outputFileName (dateStr timeStr : jsstring) (goDeeper : bool)
    (followUpQuestion question : option jsstring) (queryId : jsstring) : jsstring :=
  let description :=
    if goDeeper then lit "go-deeper"
    else match Tool.given followUpQuestion with
         | Some followUp => lit "follow-up-" ++ generateDescriptiveName (Some followUp)
         | None => generateDescriptiveName question
         end in
  dateStr ++ lit "_" ++ timeStr ++ lit "_" ++ description ++ lit "_query-" ++ queryId
  ++ lit ".md".

(** A code unit of a name in kebab case. *)
Definition kebab (c : N) : bool := is_lower c || is_digit c || N.eqb c hyphen.

(** [generateWikiDescription] of the server (index.ts): the descriptive
    part of the name of a saved wiki page.  [s.replace(/[^a-zA-Z0-9]/g, '-')]
    is a map over the code units. *)
Definition generateWikiDescription (action : jsstring) (chapters : option (list jsstring))
    : jsstring :=
  if eqb_str action (lit "structure") then lit "structure"
  else
    match chapters with
    | Some l =>
        if eqb_str action (lit "extract") then
          match l with
          | [chapter] =>
              map (fun c => if is_alnum c then c else hyphen) (toLowerCase chapter)
              ++ lit "-extract"
          | _ => showNat (length l) ++ lit "-chapters"
          end
        else lit "wiki-content"
    | None => lit "wiki-content"
    end.

Definition wikiFileName (dateStr timeStr action : jsstring)
    (chapters : option (list jsstring)) : jsstring :=
  dateStr ++ lit "_" ++ timeStr ++ lit "_" ++ generateWikiDescription action chapters
  ++ lit ".md".

End FileHelpers.

(** ** Where the cache keeps a response (cache/cache-manager.js)

    A file of the cache is named by its path below the cache directory,
    as the list of the segments that [path.join] puts together. *)

Module Cache.
Import Validation.

Section Hash.

(** [createHash('md5').update(s).digest('hex')] *)
Variable md5hex : jsstring -> jsstring.

Definition getRepoFolder (repo : jsstring) : jsstring :=
  FileHelpers.replaceFirst slash hyphen repo.

Definition getCacheSubfolder (type : jsstring) : jsstring :=
  if eqb_str type (lit "question") then lit "questions" else lit "wiki".

(** The class of the pattern that [getCacheFileName] replaces by an
    underscore: the angle brackets, the colon, the double quote, the two
    slashes, the bar, the question mark and the star. *)
Definition forbidden (c : N) : bool :=
  existsb (N.eqb c) [60; 62; 58; 34; 47; 92; 124; 63; 42]%N.

Definition sanitize (identifier : jsstring) : jsstring :=
  map (fun c => if forbidden c then 95%N else c) identifier.

Definition getCacheFileName (type identifier : jsstring) : jsstring :=
  if eqb_str type (lit "question") && includes (lit "-") identifier
     && Nat.ltb 30 (length identifier) then
    lit "query-" ++ sanitize identifier ++ lit ".json"
  else if eqb_str type (lit "wiki") then lit "wiki_" ++ md5hex identifier ++ lit ".md"
  else type ++ lit "_" ++ md5hex identifier ++ lit ".json".

(** [name.replace(/\.(json|md)$/, '')] *)
Definition stripExtension (name : jsstring) : jsstring :=
  if endsWith (lit ".json") name then firstn (length name - 5) name
  else if endsWith (lit ".md") name then firstn (length name - 3) name
  else name.

(** The file that [set] writes. *)
Definition writePath (type identifier repo : jsstring) : list jsstring :=
  if truthy repo then
    [getRepoFolder repo; getCacheSubfolder type; getCacheFileName type identifier]
  else [stripExtension (getCacheFileName type identifier)].

(** The files that [get] tries, in order. *)
Definition readPaths (type identifier repo : jsstring) : list (list jsstring) :=
  (if truthy repo then
     [[getRepoFolder repo; getCacheSubfolder type; getCacheFileName type identifier]]
   else [])
  ++ [[stripExtension (getCacheFileName type identifier)];
      [type ++ lit "_" ++ md5hex identifier]].

End Hash.

(** A code unit of a query id that the validator accepts. *)
Definition idUnit (c : N) : Prop := is_alnum c = true \/ c = hyphen \/ c = 95%N.

(** A segment that [path.join] leaves as it is: not empty, not [.] or
    [..], without separator. *)
Definition plainSegment (s : jsstring) : Prop :=
  s <> [] /\ s <> lit "." /\ s <> lit ".."
  /\ Forall (fun c => c <> slash /\ c <> 92%N) s.

End Cache.

(** ** The handler of the question tool in the server (index.ts) *)

Module Server.
Import Transformer Markdown Validation Tool.



(** [[...].filter(Boolean).length] *)
Definition countTruthy (l : list bool) : nat := length (filter (fun b => b) l).

(** The checks that come before the call of the tool. *)
Definition checkActions (params : WikiQuestionToolParams) : result unit :=
  if negb (isSome (given (question params)))
     && negb (isSome (given (paramQueryId params))) then
    Throw (Error (lit "Either 'question' or 'queryId' must be provided"))
  else if orFalse (goDeeper params) && negb (isSome (given (paramQueryId params))) then
    Throw (Error (lit "'queryId' is required when using 'goDeeper'"))
  else if isSome (given (followUpQuestion params))
          && negb (isSome (given (paramQueryId params))) then
    Throw (Error (lit "'queryId' is required when using 'followUpQuestion'"))
  else if Nat.ltb 1
            (countTruthy [isSome (given (question params)); orFalse (goDeeper params);
                          isSome (given (followUpQuestion params))]) then
    Throw (Error (lit "Cannot use 'question', 'goDeeper', and 'followUpQuestion' together. Choose one action."))
  else Ok tt.

Section WithEngine.

Variable typeErrorMessage : jsstring.
Variable protoText : jsstring -> jsstring.



End WithEngine.

End Server.

(** ** Further notions: the question tool *)

Module ToolNotions.
Import Transformer Tool.

(** A question put to the cache. *)
Definition isLookup (m : made) : bool :=
  match m with
  | Made (CacheGetJSON _ _ _) _ => true
  | Made _ _ => false
  end.

(** The calls of a run in the order that the tool keeps: at most one
    question to the cache, at most one request to the automator, at most
    one saving of a file. *)
Definition disciplined (trace : list made) : Prop :=
  exists lookups automation saves,
    trace = lookups ++ automation ++ saves
    /\ length lookups <= 1 /\ length automation <= 1 /\ length saves <= 1
    /\ Forall (fun m => isLookup m = true) lookups
    /\ Forall (fun m => isAutomation m = true) automation
    /\ Forall (fun m => isSaving m = true) saves.

End ToolNotions.

(** ** Further concrete inputs *)

Module Cases.
Import Transformer.

(** A status endpoint that never finds the query. *)
Definition neverFound (url : jsstring) (t : Z) : Automator.FetchOutcome :=
  Automator.HttpResponse 404 (lit "Not Found") Automator.BodyNull.

(** A status endpoint that reports the finished query at once. *)
Definition readyEndpoint (url : jsstring) (t : Z) : Automator.FetchOutcome :=
  Automator.HttpResponse 200 (lit "OK") (Automator.BodyJson (Some [Examples.doneQuery])).

(** A status endpoint that answers with a server error. *)
Definition serverError (url : jsstring) (t : Z) : Automator.FetchOutcome :=
  Automator.HttpResponse 500 (lit "Internal Server Error") Automator.BodyNull.

(** A query that failed upstream, with an error text that quotes a
    status code. *)
Definition failedQuery : ApiQuery :=
  {| user_query := lit "why"; use_knowledge := true; engine_id := [];
     repo_context_ids := []; response := [];
     error := Some (lit "upstream answered 404");
     state := lit "error"; redis_stream := None |}.

Definition failedUpstream (url : jsstring) (t : Z) : Automator.FetchOutcome :=
  Automator.HttpResponse 200 (lit "OK") (Automator.BodyJson (Some [failedQuery])).

Definition freshState (t0 : Z) : Automator.PollState :=
  {| Automator.now := t0; Automator.lastState := [];
     Automator.lastResponseLength := 0; Automator.lastChangeTime := t0;
     Automator.attempts := 0; Automator.stallWarnings := 0 |}.

(** Collaborators of the handlers: an automator that answers every
    request with the finished query [doneQuery] under the id [abc_1], and
    one whose browser fails; the cache accepts every write. *)
Definition doneResult : Automation.AutomationResult :=
  Automation.succeeded (lit "abc_1") (Automator.extractDataFromAllQueries [Examples.doneQuery]).

Definition doneOutput : OutputResponse :=
  {| query_id := lit "abc_1";
     conversation :=
       [{| cq_user_query := lit "why";
           answer_segments := [{| text := lit "Because."; reference := None |}] |}];
     out_repo_context_ids := [];
     referenced_files := [];
     full_context := [] |}.

Definition answeringWorld (X : Type) (c : Handlers.call X) : X :=
  match c in Handlers.call X return X with
  | Handlers.AskQuestion _ _ _ => Ok doneResult
  | Handlers.GoDeeper _ => Ok doneResult
  | Handlers.SendFollowUp _ _ _ => Ok doneResult
  | Handlers.Now => []
  | Handlers.CacheSetJSON _ _ _ _ => Ok tt
  end.

Definition failingWorld (X : Type) (c : Handlers.call X) : X :=
  match c in Handlers.call X return X with
  | Handlers.AskQuestion _ _ _ => Ok (Automation.failed [] (Error (lit "no browser")))
  | Handlers.GoDeeper _ => Ok (Automation.failed [] (Error (lit "no browser")))
  | Handlers.SendFollowUp _ _ _ => Ok (Automation.failed [] (Error (lit "no browser")))
  | Handlers.Now => []
  | Handlers.CacheSetJSON _ _ _ _ => Ok tt
  end.

(** A call whose repository is not of the form [owner/repo]. *)
Definition malformedCall : Tool.WikiQuestionToolParams :=
  {| Tool.repo := lit "nonsense"; Tool.question := Some (lit "why");
     Tool.paramQueryId := None;
     Tool.useDeepResearch := None; Tool.goDeeper := None;
     Tool.followUpQuestion := None; Tool.includeFullConversation := None;
     Tool.p_includeAnswer := None; Tool.p_includeReferencesList := None;
     Tool.p_referencesAll := None; Tool.p_referencesNumbers := None;
     Tool.p_contextAll := None; Tool.p_contextFiles := None;
     Tool.p_contextRanges := None; Tool.saveToFile := None;
     Tool.saveLocation := None |}.

End Cases.

Unset Implicit Arguments.


(** * Properties *)

(** ** Strings *)

Section StringFacts.

Lemma eqb_str_eq (a b : jsstring) : eqb_str a b = true <-> a = b.
Proof.
  revert b; induction a as [|x a IH]; destruct b as [|y b]; simpl;
    try (split; (discriminate || reflexivity)).
  rewrite andb_true_iff, N.eqb_eq, IH.
  split; [intros [-> ->]; reflexivity | intros H; inversion H; auto].
Qed.

Lemma eqb_str_refl (a : jsstring) : eqb_str a a = true.
Proof. apply eqb_str_eq; reflexivity. Qed.

Lemma eqb_str_neq (a b : jsstring) : eqb_str a b = false <-> a <> b.
Proof.
  rewrite <- eqb_str_eq. destruct (eqb_str a b); split; congruence.
Qed.

Lemma startsWith_app (p s : jsstring) : startsWith p (p ++ s) = true.
Proof. induction p; simpl; [reflexivity | now rewrite N.eqb_refl]. Qed.

Lemma startsWith_split (p s : jsstring) :
  startsWith p s = true <-> exists t, s = p ++ t.
Proof.
  revert s; induction p as [|x p IH]; intros s; simpl.
  - split; [intros _; now exists s | reflexivity].
  - destruct s as [|c s].
    + split; [discriminate | intros [t H]; discriminate].
    + rewrite andb_true_iff, N.eqb_eq, IH. split.
      * intros [-> [t ->]]. now exists t.
      * intros [t H]. inversion H; subst. split; [reflexivity | now exists t].
Qed.

Lemma indexOf_some_iff (p s : jsstring) :
  (exists i, indexOf p s = Some i) <-> exists a b, s = a ++ p ++ b.
Proof.
  induction s as [|c s IH].
  - simpl. destruct (startsWith p []) eqn:E.
    + split; [intros _ | intros _; now exists 0].
      apply startsWith_split in E. destruct E as [t E].
      exists [], t. exact E.
    + split; [intros [i H]; discriminate |].
      intros (a & b & H). destruct a; simpl in H.
      * assert (startsWith p [] = true) by (apply startsWith_split; now exists b).
        congruence.
      * discriminate.
  - cbn [indexOf]. destruct (startsWith p (c :: s)) eqn:E.
    + split; [intros _ | intros _; now exists 0].
      apply startsWith_split in E. destruct E as [t E].
      exists [], t. exact E.
    + split.
      * intros [i H]. destruct (indexOf p s) as [j|] eqn:Ej; [|discriminate].
        destruct IH as [IH _]. destruct IH as (a & b & ->); [now exists j|].
        now exists (c :: a), b.
      * intros (a & b & H). destruct a as [|x a]; simpl in H.
        -- assert (startsWith p (c :: s) = true) by (apply startsWith_split; now exists b).
           congruence.
        -- inversion H; subst.
           destruct IH as [_ IH]. destruct IH as [j Hj]; [now exists a, b|].
           rewrite Hj. now exists (S j).
Qed.

Lemma includes_iff (p s : jsstring) :
  includes p s = true <-> exists a b, s = a ++ p ++ b.
Proof.
  rewrite <- indexOf_some_iff. unfold includes.
  destruct (indexOf p s) as [i|]; split; try congruence.
  - intros _. now exists i.
  - intros [i H]. discriminate.
Qed.

Lemma includes_app (a p b : jsstring) : includes p (a ++ p ++ b) = true.
Proof. apply includes_iff. now exists a, b. Qed.

Lemma dropWhile_app_stop (p : N -> bool) (a b : jsstring) :
  Forall (fun c => p c = true) a ->
  dropWhile p (a ++ b) = dropWhile p b.
Proof. induction 1 as [|c a Hc _ IH]; simpl; [reflexivity | now rewrite Hc]. Qed.

Lemma dropWhile_id (p : N -> bool) (c : N) (s : jsstring) :
  p c = false -> dropWhile p (c :: s) = c :: s.
Proof. intros H; simpl; now rewrite H. Qed.

End StringFacts.


(** ** Regular expressions *)

Section RegexFacts.
Import Regex.

(** A greedy star succeeds exactly when some prefix inside the class
    leaves a rest on which the continuation succeeds. *)
Lemma star_some (p : N -> bool) (s : jsstring) :
  forall i k,
    (exists r, star p i s k = Some r) <->
    exists a b, s = a ++ b /\ Forall (fun c => p c = true) a
                /\ exists r, k (i + length a) b = Some r.
Proof.
  induction s as [|c s IH]; intros i k; simpl.
  - split.
    + intros [r H]. exists [], []. simpl. rewrite Nat.add_0_r. eauto.
    + intros (a & b & E & _ & r & H).
      symmetry in E. apply app_eq_nil in E. destruct E; subst.
      simpl in H. rewrite Nat.add_0_r in H. eauto.
  - destruct (p c) eqn:Hc.
    + split.
      * intros [r H]. destruct (star p (S i) s k) as [r'|] eqn:E.
        -- destruct (IH (S i) k) as [IH1 _]. destruct IH1 as (a & b & -> & Ha & r1 & Hr1); [eauto|].
           exists (c :: a), b. repeat split; [constructor; auto|].
           simpl. rewrite <- Nat.add_succ_comm. eauto.
        -- exists [], (c :: s). simpl. rewrite Nat.add_0_r. eauto.
      * intros (a & b & E & Ha & r & H). destruct a as [|x a]; simpl in *.
        -- subst b. rewrite Nat.add_0_r in H.
           destruct (star p (S i) s k); eauto.
        -- inversion E; subst. inversion Ha; subst.
           destruct (IH (S i) k) as [_ IH2].
           destruct IH2 as [r' Hr']; [exists a, b; repeat split; auto|].
           ++ rewrite Nat.add_succ_comm. eauto.
           ++ rewrite Hr'. eauto.
    + split.
      * intros [r H]. exists [], (c :: s). simpl. rewrite Nat.add_0_r. eauto.
      * intros (a & b & E & Ha & r & H). destruct a as [|x a]; simpl in *.
        -- subst b. rewrite Nat.add_0_r in H. eauto.
        -- inversion E; subst. inversion Ha; subst. congruence.
Qed.

(** With a continuation that always succeeds, the star takes the whole
    run. *)
Lemma star_greedy (p : N -> bool) (s : jsstring) :
  forall i (k : nat -> jsstring -> option found),
    (forall j t, k j t <> None) ->
    star p i s k = k (i + (length s - length (dropWhile p s))) (dropWhile p s).
Proof.
  induction s as [|c s IH]; intros i k Hk; simpl.
  - now rewrite Nat.add_0_r.
  - destruct (p c) eqn:Hc.
    + rewrite IH by assumption.
      assert (L : length (dropWhile p s) <= length s).
      { clear. induction s as [|c s IH]; simpl; [lia|]. destruct (p c); simpl; lia. }
      replace (S i + (length s - length (dropWhile p s)))
        with (i + (S (length s) - length (dropWhile p s))) by lia.
      destruct (k _ _) eqn:E; [reflexivity | now apply Hk in E].
    + f_equal. simpl. lia.
Qed.

(** An anchored pattern matches at index 0 or nowhere. *)
Lemma execFrom_anchored (r : re) (s : jsstring) (i : nat) :
  execFrom (Seq Bol r) (S i) s = None.
Proof.
  revert i; induction s as [|c s IH]; intros i; simpl; [reflexivity | apply IH].
Qed.

Lemma test_anchored (r : re) (s : jsstring) :
  test (Seq Bol r) s = true <->
  exists f, run r 0 s [] (fun i' _ cs => Some (i', cs)) = Some f.
Proof.
  unfold test. destruct s as [|c s]; cbn [execFrom matchAt run Nat.eqb].
  - destruct (run r 0 [] [] _) as [[e cs]|]; split; eauto; try discriminate.
    intros [f H]; discriminate.
  - destruct (run r 0 (c :: s) [] _) as [[e cs]|].
    + split; eauto.
    + rewrite execFrom_anchored. split; [discriminate | intros [f H]; discriminate].
Qed.

End RegexFacts.


(** ** Splitting and joining *)

Section SplitFacts.

Lemma split_nonempty (sep : N) (s : jsstring) : split sep s <> [].
Proof.
  induction s as [|c s IH]; simpl; [discriminate|].
  destruct (N.eqb c sep); [discriminate|].
  destruct (split sep s); discriminate.
Qed.

Lemma split_no_sep (sep : N) (s : jsstring) :
  Forall (fun c => c <> sep) s -> split sep s = [s].
Proof.
  induction 1 as [|c s Hc _ IH]; simpl; [reflexivity|].
  apply N.eqb_neq in Hc. now rewrite Hc, IH.
Qed.

Lemma split_app (sep : N) (a b : jsstring) :
  Forall (fun c => c <> sep) a -> split sep (a ++ sep :: b) = a :: split sep b.
Proof.
  induction 1 as [|c a Hc _ IH]; simpl.
  - now rewrite N.eqb_refl.
  - apply N.eqb_neq in Hc. now rewrite Hc, IH.
Qed.

Lemma join_cons (sep : jsstring) (p q : jsstring) (ps : list jsstring) :
  join sep (p :: q :: ps) = p ++ sep ++ join sep (q :: ps).
Proof. reflexivity. Qed.

Lemma join_split (sep : N) (s : jsstring) : join [sep] (split sep s) = s.
Proof.
  induction s as [|c s IH]; simpl; [reflexivity|].
  generalize (split_nonempty sep s). revert IH.
  destruct (split sep s) as [|p ps]; [congruence|]. intros IH _.
  destruct (N.eqb c sep) eqn:E.
  - apply N.eqb_eq in E; subst c. rewrite join_cons, IH. reflexivity.
  - destruct ps as [|q ps].
    + simpl in *. now rewrite IH.
    + rewrite join_cons in *. rewrite <- IH. reflexivity.
Qed.

Lemma split_parts_no_sep (sep : N) (s : jsstring) :
  Forall (Forall (fun c => c <> sep)) (split sep s).
Proof.
  induction s as [|c s IH]; simpl; [repeat constructor|].
  destruct (N.eqb c sep) eqn:E.
  - constructor; [constructor | exact IH].
  - destruct (split sep s) as [|p ps]; [repeat constructor; now apply N.eqb_neq|].
    inversion IH; subst. constructor; [|assumption].
    constructor; [now apply N.eqb_neq | assumption].
Qed.

(** Joining lines that hold no newline and splitting again gives the lines. *)
Lemma split_join (sep : N) (ls : list jsstring) :
  ls <> [] -> Forall (Forall (fun c => c <> sep)) ls ->
  split sep (join [sep] ls) = ls.
Proof.
  induction ls as [|l ls IH]; [congruence|].
  intros _ H. inversion H; subst.
  destruct ls as [|l' ls].
  - simpl. now apply split_no_sep.
  - change (join [sep] (l :: l' :: ls)) with (l ++ sep :: join [sep] (l' :: ls)).
    rewrite split_app by assumption. f_equal. apply IH; [discriminate | assumption].
Qed.

End SplitFacts.

(** ** The validators *)

Section ValidationFacts.
Import Regex Validation Spec.

Lemma result_unit_cases (r : result unit) : r = Ok tt \/ throws r.
Proof. destruct r as [[]|e]; [now left | right; now exists e]. Qed.

Lemma throws_iff_not_ok (r : result unit) : throws r <-> r <> Ok tt.
Proof.
  destruct r as [[]|e]; split.
  - intros [e H]; discriminate.
  - congruence.
  - discriminate.
  - intros _. now exists e.
Qed.

Lemma alnum_not_hyphen (c : N) : is_alnum c = true -> c <> hyphen.
Proof. intros H ->. vm_compute in H. discriminate. Qed.

Lemma alnum_or_hyphen_iff (c : N) :
  alnum_or_hyphen c = true <-> (is_alnum c = true \/ c = hyphen).
Proof. unfold alnum_or_hyphen. now rewrite orb_true_iff, N.eqb_eq. Qed.

Lemma id_char_iff (c : N) :
  id_char c = true <-> (is_alnum c = true \/ c = hyphen \/ c = 95%N).
Proof. unfold id_char. rewrite !orb_true_iff, !N.eqb_eq. tauto. Qed.

(** What the pattern of a segment accepts, read off the pattern. *)
Lemma repoPattern_shape (s : jsstring) :
  test repoPattern s = true <->
  exists c t, s = c :: t /\ is_alnum c = true
    /\ (t = [] \/ exists a d, t = a ++ [d]
                      /\ Forall (fun x => alnum_or_hyphen x = true) a
                      /\ is_alnum d = true).
Proof.
  unfold repoPattern. rewrite test_anchored.
  destruct s as [|c t]; cbn [run].
  { split; [intros [f H]; discriminate | intros (c & t & H & _); discriminate]. }
  destruct (is_alnum c) eqn:Hc.
  2:{ split; [intros [f H]; discriminate|].
      intros (c' & t' & H & Hc' & _). inversion H; subst. congruence. }
  match goal with
  | |- context [star ?p ?i ?s ?k] => pose proof (star_some p s i k) as HS
  end.
  split.
  - intros [f H]. exists c, t. repeat split; auto.
    match type of H with
    | match ?x with _ => _ end = _ => destruct x as [r|] eqn:E
    end.
    + right. destruct HS as [HS _]. destruct HS as (a & b & -> & Ha & r' & Hr'); [eauto|].
      destruct b as [|d b]; [discriminate|].
      destruct (is_alnum d) eqn:Hd; [|discriminate].
      destruct b; [|discriminate].
      exists a, d. auto.
    + left. destruct t; [reflexivity | discriminate].
  - intros (c' & t' & H & _ & Ht). inversion H; subst c' t'; clear H.
    destruct Ht as [-> | (a & d & -> & Ha & Hd)].
    + simpl. eauto.
    + destruct HS as [_ HS]. destruct HS as [r Hr].
      * exists a, [d]. repeat split; auto. rewrite Hd. eauto.
      * rewrite Hr. eauto.
Qed.

Lemma repoPattern_segmentForm (s : jsstring) :
  test repoPattern s = true <-> segmentForm s.
Proof.
  rewrite repoPattern_shape. unfold segmentForm. split.
  - intros (c & t & -> & Hc & Ht). split; [discriminate|].
    destruct Ht as [-> | (a & d & -> & Ha & Hd)].
    + repeat split.
      * constructor; auto.
      * simpl. intros H; inversion H. now apply alnum_not_hyphen in Hc.
      * simpl. intros H; inversion H. now apply alnum_not_hyphen in Hc.
    + repeat split.
      * constructor; [auto|]. apply Forall_app. split.
        -- eapply Forall_impl; [|exact Ha]. intros x; apply alnum_or_hyphen_iff.
        -- constructor; auto.
      * simpl. intros H; inversion H. now apply alnum_not_hyphen in Hc.
      * change (c :: a ++ [d]) with ((c :: a) ++ [d]). rewrite rev_app_distr. simpl.
        intros H; inversion H. now apply alnum_not_hyphen in Hd.
  - intros (Hne & Hall & Hhd & Hlast).
    destruct s as [|c t]; [congruence|]. exists c, t. split; [reflexivity|].
    inversion Hall as [|? ? Hc Ht]; subst.
    assert (Hc' : is_alnum c = true).
    { destruct Hc as [Hc | ->]; [exact Hc | simpl in Hhd; congruence]. }
    split; [exact Hc'|].
    destruct t as [|x t']; [now left|].
    destruct (@exists_last _ (x :: t')) as (a & d & E); [discriminate|].
    rewrite E in *. clear E x t'.
    right. exists a, d. split; [reflexivity|].
    apply Forall_app in Ht. destruct Ht as [Ha Hd]. split.
    + eapply Forall_impl; [|exact Ha]. intros x; apply alnum_or_hyphen_iff.
    + inversion Hd as [|? ? Hd' _]; subst.
      destruct Hd' as [Hd' | ->]; [exact Hd'|].
      change (c :: a ++ [hyphen]) with ((c :: a) ++ [hyphen]) in Hlast.
      rewrite rev_app_distr in Hlast. simpl in Hlast. congruence.
Qed.

Lemma segmentForm_no_slash (s : jsstring) :
  segmentForm s -> Forall (fun c => c <> slash) s.
Proof.
  intros (_ & H & _). eapply Forall_impl; [|exact H].
  intros c [Hc | ->] E; [|discriminate]. subst c. vm_compute in Hc. discriminate.
Qed.

Lemma truthy_iff (s : jsstring) : truthy s = true <-> s <> [].
Proof. destruct s; simpl; split; congruence. Qed.

Lemma trim_nil : trim [] = [].
Proof. reflexivity. Qed.

Lemma length_zero_iff (s : jsstring) : Nat.eqb (length s) 0 = true <-> s = [].
Proof. destruct s; simpl; split; congruence. Qed.

Lemma validateRepo_ok (repo : jsstring) :
  validateRepo repo = Ok tt <-> ownerRepoForm (trim repo).
Proof.
  unfold validateRepo, ownerRepoForm. split.
  - destruct (truthy repo); simpl; [|discriminate].
    destruct (Nat.eqb (length (trim repo)) 0); [discriminate|].
    pose proof (join_split slash (trim repo)) as J.
    destruct (split slash (trim repo)) as [|owner [|name [|x parts]]]; try discriminate.
    destruct (truthy owner); simpl; [|discriminate].
    destruct (truthy name); simpl; [|discriminate].
    destruct (test repoPattern owner) eqn:Ho; simpl; [|discriminate].
    destruct (test repoPattern name) eqn:Hn; simpl; [|discriminate].
    intros _. exists owner, name. rewrite <- J.
    split; [reflexivity|]. split; now apply repoPattern_segmentForm.
  - intros (owner & name & E & Ho & Hn).
    assert (Hrepo : truthy repo = true).
    { apply truthy_iff. intros ->. rewrite trim_nil in E. destruct owner; discriminate. }
    rewrite Hrepo. simpl.
    assert (Hlen : Nat.eqb (length (trim repo)) 0 = false).
    { rewrite E. destruct owner; reflexivity. }
    rewrite Hlen, E.
    change (owner ++ [slash] ++ name) with (owner ++ slash :: name).
    rewrite split_app by now apply segmentForm_no_slash.
    rewrite split_no_sep by now apply segmentForm_no_slash.
    assert (truthy owner = true) as -> by (apply truthy_iff; apply Ho).
    assert (truthy name = true) as -> by (apply truthy_iff; apply Hn).
    apply repoPattern_segmentForm in Ho, Hn. now rewrite Ho, Hn.
Qed.

Lemma queryIdPattern_form (s : jsstring) :
  test queryIdPattern s = true <-> queryIdForm s.
Proof.
  unfold queryIdPattern, queryIdForm. rewrite test_anchored.
  destruct s as [|c t]; cbn [run].
  { split; [intros [f H]; discriminate | intros [H _]; congruence]. }
  destruct (id_char c) eqn:Hc.
  - match goal with
    | |- context [star ?p ?i ?s ?k] => rewrite (star_some p s i k)
    end.
    split.
    + intros (a & b & -> & Ha & r & Hr). destruct b; [|discriminate].
      split; [discriminate|]. constructor; [now apply id_char_iff|].
      rewrite app_nil_r. eapply Forall_impl; [|exact Ha]. intros x; apply id_char_iff.
    + intros [_ H]. inversion H; subst.
      exists t, []. rewrite app_nil_r. repeat split; eauto.
      eapply Forall_impl; [|eassumption]. intros x; apply id_char_iff.
  - split; [intros [f H]; discriminate|].
    intros [_ H]. inversion H; subst.
    assert (id_char c = true) by now apply id_char_iff. congruence.
Qed.

Lemma validateQueryId_ok (queryId : jsstring) :
  validateQueryId queryId = Ok tt <-> queryIdForm (trim queryId).
Proof.
  unfold validateQueryId. rewrite <- queryIdPattern_form.
  destruct queryId as [|c s]; [simpl; split; discriminate|].
  cbn [truthy negb].
  destruct (Nat.eqb (length (trim (c :: s))) 0) eqn:E.
  - apply length_zero_iff in E. rewrite E. simpl. split; discriminate.
  - destruct (test queryIdPattern (trim (c :: s))); simpl; split; congruence.
Qed.

Lemma validateQuestion_throws (question : jsstring) :
  throws (validateQuestion question) <->
  (trim question = [] \/ (10000 < N.of_nat (length (trim question)))%N).
Proof.
  rewrite throws_iff_not_ok. unfold validateQuestion.
  destruct question as [|c s].
  { simpl. split; [now left | discriminate]. }
  cbn [truthy negb].
  destruct (Nat.eqb (length (trim (c :: s))) 0) eqn:E.
  - apply length_zero_iff in E. split; [now left | discriminate].
  - destruct (N.ltb_spec 10000 (N.of_nat (length (trim (c :: s))))) as [L|L].
    + split; [now right | discriminate].
    + split; [congruence|]. intros [H | H]; [|lia].
      rewrite H in E. discriminate.
Qed.

End ValidationFacts.


(** ** Code fences *)

Section FenceFacts.
Import Regex Transformer Markdown.

Lemma dropWhile_length (p : N -> bool) (s : jsstring) :
  length (dropWhile p s) <= length s.
Proof. induction s as [|c s IH]; simpl; [lia|]. destruct (p c); simpl; lia. Qed.

Lemma dropWhile_app (p : N -> bool) (a b : jsstring) :
  dropWhile p (a ++ b) =
  match dropWhile p a with
  | [] => dropWhile p b
  | c :: r => (c :: r) ++ b
  end.
Proof.
  induction a as [|x a IH]; simpl; [now destruct (dropWhile p b)|].
  destruct (p x); [exact IH | reflexivity].
Qed.

Lemma dropWhile_skipn (p : N -> bool) (s : jsstring) :
  skipn (length s - length (dropWhile p s)) s = dropWhile p s.
Proof.
  induction s as [|c s IH]; [reflexivity|].
  pose proof (dropWhile_length p s) as L.
  cbn [dropWhile]. destruct (p c).
  - replace (length (c :: s) - length (dropWhile p s))
      with (S (length s - length (dropWhile p s))) by (simpl length; lia).
    exact IH.
  - now rewrite Nat.sub_diag.
Qed.

Lemma dropWhile_repeat (c : N) (n : nat) (s : jsstring) :
  dropWhile (exactly c) (repeat c n ++ s) = dropWhile (exactly c) s.
Proof.
  induction n as [|n IH]; simpl; [reflexivity|].
  unfold exactly at 1. now rewrite N.eqb_refl.
Qed.

(** A match of [`+] at the head of [s] is the whole run of backticks. *)
Lemma matchAt_plus (p : N -> bool) (i : nat) (s : jsstring) :
  matchAt (Plus p) i s =
  match s with
  | c :: _ =>
      if p c then Some (i + (length s - length (dropWhile p s)), []) else None
  | [] => None
  end.
Proof.
  unfold matchAt. destruct s as [|c s]; [reflexivity|].
  cbn [run dropWhile]. destruct (p c); [|reflexivity].
  rewrite star_greedy by discriminate.
  pose proof (dropWhile_length p s). do 2 f_equal. simpl length. lia.
Qed.

Lemma longest_ge_acc (l : list jsstring) (acc : nat) : acc <= longest l acc.
Proof.
  unfold longest. revert acc; induction l as [|x l IH]; intros acc; simpl; [lia|].
  specialize (IH (Nat.max acc (length x))). lia.
Qed.

Lemma longest_run (n : nat) :
  forall (s : jsstring) (i acc : nat) (pre post : jsstring) (m : nat),
    length s < n ->
    s = pre ++ repeat backtick m ++ post ->
    m <= longest (matchAllFrom n backtickRuns i s) acc.
Proof.
  unfold backtickRuns.
  induction n as [|n IH]; intros s i acc pre post m Hlen E; [lia|].
  destruct s as [|c s].
  { destruct pre; [|discriminate]. destruct m; [lia | discriminate]. }
  cbn [matchAllFrom]. rewrite matchAt_plus. cbv beta iota.
  destruct (exactly backtick c) eqn:Hc.
  - pose proof (dropWhile_length (exactly backtick) (c :: s)) as L.
    assert (D : length (dropWhile (exactly backtick) (c :: s)) <= length s).
    { cbn [dropWhile]. rewrite Hc. apply dropWhile_length. }
    pose proof (dropWhile_skipn (exactly backtick) (c :: s)) as Hskip.
    remember (length (c :: s) - length (dropWhile (exactly backtick) (c :: s))) as run eqn:Erun.
    assert (Hrun : 0 < run) by (simpl length in *; lia).
    replace (Nat.ltb i (i + run)) with true by (symmetry; apply Nat.ltb_lt; lia).
    replace (i + run - i) with run by lia.
    rewrite Hskip.
    unfold longest. cbn [fold_left].
    fold (longest (matchAllFrom n (Plus (exactly backtick)) (i + run)
            (dropWhile (exactly backtick) (c :: s)))
            (Nat.max acc (length (firstn run (c :: s))))).
    assert (Hfirst : length (firstn run (c :: s)) = run).
    { rewrite length_firstn. simpl length in *. lia. }
    rewrite Hfirst.
    pose proof (dropWhile_app (exactly backtick) pre (repeat backtick m ++ post)) as A.
    rewrite <- E in A.
    destruct (dropWhile (exactly backtick) pre) as [|x r] eqn:Epre.
    + rewrite dropWhile_repeat in A.
      pose proof (dropWhile_length (exactly backtick) post) as Lp.
      assert (length (c :: s) = length pre + (m + length post)).
      { rewrite E. now rewrite !length_app, repeat_length. }
      etransitivity; [|apply longest_ge_acc].
      rewrite A in Erun. lia.
    + eapply IH; [|exact A]. simpl length in *. lia.
  - destruct pre as [|x pre].
    + destruct m; [lia|]. simpl in E. inversion E; subst.
      unfold exactly in Hc. now rewrite N.eqb_refl in Hc.
    + simpl in E. inversion E; subst. eapply IH; [|reflexivity].
      simpl in Hlen. lia.
Qed.

Lemma getCodeFence_length (content : jsstring) :
  open (getCodeFence content)
  = repeat backtick (Nat.max 3 (longest (matchAll backtickRuns content) 0 + 1))
  /\ close (getCodeFence content) = open (getCodeFence content).
Proof. split; reflexivity. Qed.

Lemma fence_covers_run (content pre post : jsstring) (n : nat) :
  content = pre ++ repeat backtick n ++ post ->
  n + 1 <= length (open (getCodeFence content)).
Proof.
  intros E. destruct (getCodeFence_length content) as [-> _].
  rewrite repeat_length.
  pose proof (@longest_run (S (length content)) content 0 0 pre post n
                (Nat.lt_succ_diag_r _) E) as H.
  unfold matchAll. lia.
Qed.

Lemma fence_not_inside (content : jsstring) :
  includes (open (getCodeFence content)) content = false.
Proof.
  destruct (includes _ content) eqn:E; [|reflexivity].
  apply includes_iff in E. destruct E as (a & b & E).
  destruct (getCodeFence_length content) as [Ho _].
  rewrite Ho in E.
  apply fence_covers_run in E. rewrite Ho, repeat_length in E. lia.
Qed.

End FenceFacts.


(** ** The renderer: sets, maps and the selection of references *)

Section SelectionFacts.
Import Transformer Markdown Spec.

Lemma arrayIncludes_In (x : jsstring) (l : list jsstring) :
  arrayIncludes x l = true <-> In x l.
Proof.
  unfold arrayIncludes. rewrite existsb_exists. split.
  - intros (y & Hy & E). apply eqb_str_eq in E. now subst.
  - intros H. exists x. split; [exact H | apply eqb_str_refl].
Qed.

Lemma arrayIncludes_ext (x : jsstring) (l l' : list jsstring) :
  (In x l <-> In x l') -> arrayIncludes x l = arrayIncludes x l'.
Proof.
  intros H. destruct (arrayIncludes x l) eqn:E, (arrayIncludes x l') eqn:E';
    try reflexivity.
  - apply arrayIncludes_In, H, arrayIncludes_In in E. congruence.
  - apply arrayIncludes_In, H, arrayIncludes_In in E'. congruence.
Qed.

Lemma setAdd_In (x y : jsstring) (s : list jsstring) :
  In y (setAdd x s) <-> y = x \/ In y s.
Proof.
  unfold setAdd. destruct (arrayIncludes x s) eqn:E.
  - apply arrayIncludes_In in E. split; [auto | intros [-> | H]; auto].
  - rewrite in_app_iff. simpl. split; intros H; intuition auto.
Qed.

Lemma inBounds_index (unique : list jsstring) (num : Z) :
  (0 <=? num - 1)%Z && (num - 1 <? Z.of_nat (length unique))%Z = inBounds unique num.
Proof.
  unfold inBounds.
  destruct (Z.leb_spec 0 (num - 1)), (Z.leb_spec 1 num); try lia;
  destruct (Z.ltb_spec (num - 1) (Z.of_nat (length unique))),
           (Z.leb_spec num (Z.of_nat (length unique))); try lia; reflexivity.
Qed.

(** The selection loop never reads outside the list, and what it collects
    is the set of the references under the selected positions. *)
Lemma selectReferences_spec (unique : list jsstring) (nums : list Z) :
  forall inc, exists s,
    selectReferences unique nums inc = Ok s
    /\ forall y, In y s <->
         In y inc
         \/ exists n, In n nums /\ inBounds unique n = true
                      /\ nth_error unique (Z.to_nat (n - 1)) = Some y.
Proof.
  induction nums as [|num nums IH]; intros inc; cbn [selectReferences].
  - exists inc. split; [reflexivity|]. intros y. split; [auto|].
    intros [H | (n & [] & _)]. exact H.
  - rewrite inBounds_index. destruct (inBounds unique num) eqn:B.
    + destruct (nth_error unique (Z.to_nat (num - 1))) as [ref|] eqn:E.
      * destruct (IH (setAdd ref inc)) as (s & -> & Hs). exists s.
        split; [reflexivity|]. intros y. rewrite Hs, setAdd_In. split.
        -- intros [[-> | H] | (n & Hn & Bn & En)]; auto.
           ++ right. exists num. simpl. auto.
           ++ right. exists n. simpl. auto.
        -- intros [H | (n & [<- | Hn] & Bn & En)]; auto.
           ++ left. left. congruence.
           ++ right. exists n. auto.
      * exfalso. apply nth_error_None in E. unfold inBounds in B.
        apply andb_true_iff in B. destruct B as [B1 B2].
        apply Z.leb_le in B1, B2. lia.
    + destruct (IH inc) as (s & -> & Hs). exists s.
      split; [reflexivity|]. intros y. rewrite Hs. split.
      * intros [H | (n & Hn & Bn & En)]; auto. right. exists n. simpl. auto.
      * intros [H | (n & [<- | Hn] & Bn & En)]; auto; [congruence|].
        right. exists n. auto.
Qed.

(** Numbers outside the bounds leave the loop where it is. *)
Lemma selectReferences_filter (unique : list jsstring) (nums : list Z) :
  forall inc,
    selectReferences unique (filter (inBounds unique) nums) inc
    = selectReferences unique nums inc.
Proof.
  induction nums as [|num nums IH]; intros inc; [reflexivity|].
  cbn [filter selectReferences]. rewrite inBounds_index.
  destruct (inBounds unique num) eqn:B; [|apply IH].
  cbn [selectReferences]. rewrite inBounds_index, B.
  destruct (nth_error unique (Z.to_nat (num - 1))); [apply IH | reflexivity].
Qed.

Lemma mapGet_set_same {V} (k : jsstring) (v : V) (m : list (jsstring * V)) :
  mapGet k m <> None -> mapGet k (Obj.set k v m) = Some v.
Proof.
  induction m as [|[k' v'] m IH]; simpl; [congruence|].
  destruct (eqb_str k' k) eqn:E; simpl; rewrite E; [reflexivity | exact IH].
Qed.

Lemma mapGet_set_other {V} (k k' : jsstring) (v : V) (m : list (jsstring * V)) :
  k' <> k -> mapGet k (Obj.set k' v m) = mapGet k m.
Proof.
  intros N. induction m as [|[k0 v0] m IH]; simpl.
  - apply eqb_str_neq in N. now rewrite N.
  - destruct (eqb_str k0 k') eqn:E; simpl.
    + apply eqb_str_eq in E. subst k0. apply eqb_str_neq in N. now rewrite N.
    + destruct (eqb_str k0 k); [reflexivity | exact IH].
Qed.

Lemma mapGet_app {V} (k k' : jsstring) (v : V) (m : list (jsstring * V)) :
  mapGet k (m ++ [(k', v)]) =
  match mapGet k m with
  | Some x => Some x
  | None => if eqb_str k' k then Some v else None
  end.
Proof.
  induction m as [|[k0 v0] m IH]; simpl; [reflexivity|].
  destruct (eqb_str k0 k); [reflexivity | exact IH].
Qed.

Lemma groupReference_covers (m : RangesMap) (ref f r : jsstring) :
  covers (groupReference m ref) f r <->
  covers m f r \/ parseReference ref = Some (f, r).
Proof.
  unfold covers, groupReference.
  destruct (parseReference ref) as [[fileName lineRange]|]; cycle 1.
  { split; [auto | intros [H | H]; [exact H | discriminate]]. }
  destruct (mapGet fileName m) as [ranges|] eqn:G.
  - destruct (eqb_str fileName f) eqn:E.
    + apply eqb_str_eq in E. subst f.
      rewrite mapGet_set_same by congruence. rewrite G. split.
      * intros (rs & [= <-] & H). apply setAdd_In in H. destruct H as [-> | H]; eauto.
      * intros [(rs & [= <-] & H) | [= <-]]; eexists; split; try reflexivity;
          apply setAdd_In; auto.
    + apply eqb_str_neq in E. rewrite mapGet_set_other by exact E. split; [auto|].
      intros [H | [= -> _]]; [exact H | congruence].
  - rewrite mapGet_app. destruct (eqb_str fileName f) eqn:E.
    + apply eqb_str_eq in E. subst f. rewrite G. split.
      * intros (rs & [= <-] & [<- | []]). auto.
      * intros [(rs & [=] & _) | [= <-]]. exists [lineRange]. simpl. auto.
    + destruct (mapGet f m) as [rs|] eqn:G'.
      * split; [auto|]. intros [H | [= -> _]]; [exact H|].
        rewrite eqb_str_refl in E. discriminate.
      * split; [intros (rs & [=] & _)|].
        intros [(rs & [=] & _) | [= -> _]]. rewrite eqb_str_refl in E. discriminate.
Qed.

Lemma groupReference_listed (m : RangesMap) (ref f : jsstring) :
  listed (groupReference m ref) f <->
  listed m f \/ exists r, parseReference ref = Some (f, r).
Proof.
  unfold listed, groupReference.
  destruct (parseReference ref) as [[fileName lineRange]|]; cycle 1.
  { split; [auto | intros [H | [r H]]; [exact H | discriminate]]. }
  destruct (mapGet fileName m) as [ranges|] eqn:G.
  - destruct (eqb_str fileName f) eqn:E.
    + apply eqb_str_eq in E. subst f.
      rewrite mapGet_set_same by congruence. rewrite G.
      split; [intros _; left; discriminate | intros _; discriminate].
    + apply eqb_str_neq in E. rewrite mapGet_set_other by exact E. split; [auto|].
      intros [H | [r [= -> _]]]; [exact H | congruence].
  - rewrite mapGet_app. destruct (eqb_str fileName f) eqn:E.
    + apply eqb_str_eq in E. subst f. rewrite G.
      split; [intros _; right; eauto | intros _; discriminate].
    + destruct (mapGet f m) as [rs|] eqn:G'.
      * split; [intros _; left; discriminate | intros _; discriminate].
      * split; [congruence|].
        intros [H | [r [= -> _]]]; [exact H|]. rewrite eqb_str_refl in E. discriminate.
Qed.

Lemma fold_groupReference_covers (included : list jsstring) :
  forall m f r,
    covers (fold_left groupReference included m) f r <->
    covers m f r \/ exists ref, In ref included /\ parseReference ref = Some (f, r).
Proof.
  induction included as [|x l IH]; intros m f r; simpl.
  - split; [auto | intros [H | (ref & [] & _)]; exact H].
  - rewrite IH, groupReference_covers. split.
    + intros [[H | H] | (ref & H & P)]; eauto.
    + intros [H | (ref & [<- | H] & P)]; eauto.
Qed.

Lemma fold_groupReference_listed (included : list jsstring) :
  forall m f,
    listed (fold_left groupReference included m) f <->
    listed m f \/ exists ref r, In ref included /\ parseReference ref = Some (f, r).
Proof.
  induction included as [|x l IH]; intros m f; simpl.
  - split; [auto | intros [H | (ref & r & [] & _)]; exact H].
  - rewrite IH, groupReference_listed. split.
    + intros [[H | [r H]] | (ref & r & H & P)]; eauto 6.
    + intros [H | (ref & r & [<- | H] & P)]; eauto 6.
Qed.

(** Two sets of included references with the same members select the same
    files and ranges. *)
Lemma formatFile_same_members (inc inc' : list jsstring)
    (file : jsstring * list ReferencedFile) :
  (forall y, In y inc <-> In y inc') ->
  formatFile (fileRangesMap inc) file = formatFile (fileRangesMap inc') file.
Proof.
  intros H. unfold formatFile, fileRangesMap.
  pose proof (fold_groupReference_listed inc [] (fst file)) as L.
  pose proof (fold_groupReference_listed inc' [] (fst file)) as L'.
  assert (C : forall r, covers (fold_left groupReference inc []) (fst file) r
                        <-> covers (fold_left groupReference inc' []) (fst file) r).
  { intros r. rewrite !fold_groupReference_covers.
    split; (intros [X | (ref & Hin & P)]; [now left | right; exists ref; split; [apply H|]; auto]). }
  assert (LL : listed (fold_left groupReference inc []) (fst file)
               <-> listed (fold_left groupReference inc' []) (fst file)).
  { rewrite L, L'.
    split; (intros [X | (ref & r & Hin & P)];
            [now left | right; exists ref, r; split; [apply H|]; auto]). }
  unfold listed, covers in *.
  destruct (mapGet (fst file) (fold_left groupReference inc [])) as [rs|] eqn:G,
           (mapGet (fst file) (fold_left groupReference inc' [])) as [rs'|] eqn:G'.
  - do 3 f_equal. apply flat_map_ext. intros entry. unfold formatEntry.
    rewrite (arrayIncludes_ext (reference_range entry) rs rs'); [reflexivity|].
    specialize (C (reference_range entry)). split; intros X.
    + destruct C as [C _]. destruct C as (x & [= <-] & Hx); eauto.
    + destruct C as [_ C]. destruct C as (x & [= <-] & Hx); eauto.
  - exfalso. destruct LL as [LL _]. apply LL; [discriminate | reflexivity].
  - exfalso. destruct LL as [_ LL]. apply LL; [discriminate | reflexivity].
  - reflexivity.
Qed.

Lemma formatReferencedFiles_filter (data : OutputResponse) (includeAll : bool)
    (nums : list Z) :
  formatReferencedFiles data includeAll
    (Some (filter (inBounds (uniqueReferences data)) nums))
  = formatReferencedFiles data includeAll (Some nums).
Proof.
  unfold formatReferencedFiles, includedReferences.
  destruct includeAll; [reflexivity|]. now rewrite selectReferences_filter.
Qed.


Lemma formatReferencedFiles_total (data : OutputResponse) (includeAll : bool)
    (selected : option (list Z)) :
  exists text, formatReferencedFiles data includeAll selected = Ok text.
Proof.
  unfold formatReferencedFiles, includedReferences.
  destruct includeAll; [eexists; reflexivity|].
  destruct selected as [nums|]; [|eexists; reflexivity].
  destruct (selectReferences_spec (uniqueReferences data) nums []) as (s & -> & _).
  eexists; reflexivity.
Qed.

End SelectionFacts.


(** ** The renderer: the list of unique references *)

Section UniqueFacts.
Import Transformer Markdown Spec.

Lemma first_occurrence (x : jsstring) (l : list jsstring) :
  In x l -> exists l1 l2, l = l1 ++ x :: l2 /\ ~ In x l1.
Proof.
  induction l as [|y l IH]; [intros []|].
  intros H. destruct (eqb_str y x) eqn:E.
  - apply eqb_str_eq in E. subst y. exists [], l. split; [reflexivity | intros []].
  - apply eqb_str_neq in E. destruct H as [H | H]; [congruence|].
    destruct (IH H) as (l1 & l2 & -> & N). exists (y :: l1), l2.
    split; [reflexivity|]. intros [X | X]; [congruence | auto].
Qed.

(** What holds of the list [u] collected from the references [c] seen so
    far: no duplicates, the same members, and the order of first
    appearance. *)
Lemma collectUnique_invariant (l : list jsstring) :
  forall (c u : list jsstring),
    (NoDup u
     /\ (forall r, In r u <-> In r c)
     /\ (forall u1 r1 u2 r2 u3, u = u1 ++ r1 :: u2 ++ r2 :: u3 ->
           exists c1 c2, c = c1 ++ r1 :: c2 /\ ~ In r1 c1 /\ ~ In r2 c1)) ->
    NoDup (collectUnique u l)
    /\ (forall r, In r (collectUnique u l) <-> In r (c ++ l))
    /\ (forall u1 r1 u2 r2 u3, collectUnique u l = u1 ++ r1 :: u2 ++ r2 :: u3 ->
          exists c1 c2, c ++ l = c1 ++ r1 :: c2 /\ ~ In r1 c1 /\ ~ In r2 c1).
Proof.
  induction l as [|x l IH]; intros c u (ND & M & O).
  - rewrite app_nil_r. simpl. auto.
  - replace (c ++ x :: l) with ((c ++ [x]) ++ l) by (rewrite <- app_assoc; reflexivity).
    unfold collectUnique. cbn [fold_left].
    fold (collectUnique (if arrayIncludes x u then u else u ++ [x]) l).
    apply IH. destruct (arrayIncludes x u) eqn:E.
    + apply arrayIncludes_In in E. repeat split.
      * exact ND.
      * intros H. apply in_or_app. left. now apply M.
      * intros H. apply in_app_or in H. destruct H as [H | [<- | []]]; [now apply M | exact E].
      * intros u1 r1 u2 r2 u3 Hu. destruct (O _ _ _ _ _ Hu) as (c1 & c2 & -> & N1 & N2).
        exists c1, (c2 ++ [x]). rewrite <- app_assoc. auto.
    + assert (Nx : ~ In x u).
      { intros H. apply arrayIncludes_In in H. congruence. }
      repeat split.
      * apply NoDup_app; [exact ND | repeat constructor; intros [] |].
        intros a Ha [<- | []]. auto.
      * intros H. apply in_app_or in H. apply in_or_app.
        destruct H as [H | H]; [left; now apply M | now right].
      * intros H. apply in_app_or in H. apply in_or_app.
        destruct H as [H | H]; [left; now apply M | now right].
      * intros u1 r1 u2 r2 u3 Hu.
        destruct (@exists_last _ (r2 :: u3)) as (w & z & Ew); [discriminate|].
        replace (u1 ++ r1 :: u2 ++ r2 :: u3) with ((u1 ++ r1 :: u2) ++ r2 :: u3) in Hu
          by (rewrite <- app_assoc; reflexivity).
        rewrite Ew, app_assoc in Hu. apply app_inj_tail in Hu. destruct Hu as [Hu <-].
        destruct w as [|w0 w].
        -- simpl in Ew. inversion Ew; subst r2 u3. rewrite app_nil_r in Hu.
          assert (Hr1 : In r1 c).
          { apply M. rewrite Hu. apply in_or_app. right. now left. }
          destruct (first_occurrence _ _ Hr1) as (c1 & c2 & -> & N1).
          exists c1, (c2 ++ [x]). rewrite <- app_assoc. split; [reflexivity|].
          split; [exact N1|]. intros H. apply Nx, M. apply in_or_app. now left.
        -- simpl in Ew. inversion Ew; subst w0.
          assert (Hu' : u = u1 ++ r1 :: u2 ++ r2 :: w).
          { rewrite Hu. rewrite <- app_assoc. reflexivity. }
          destruct (O _ _ _ _ _ Hu') as (c1 & c2 & -> & N1 & N2).
          exists c1, (c2 ++ [x]). rewrite <- app_assoc. auto.
Qed.

Lemma uniqueReferences_first_seen (data : OutputResponse) :
  NoDup (uniqueReferences data)
  /\ (forall r, In r (uniqueReferences data) <-> In r (citations data))
  /\ (forall u1 r1 u2 r2 u3,
        uniqueReferences data = u1 ++ r1 :: u2 ++ r2 :: u3 ->
        exists c1 c2, citations data = c1 ++ r1 :: c2 /\ ~ In r1 c1 /\ ~ In r2 c1).
Proof.
  unfold uniqueReferences.
  apply (@collectUnique_invariant (citations data) [] []).
  split; [constructor|]. split; [intros r; reflexivity|].
  intros u1 r1 u2 r2 u3 H. destruct u1; discriminate.
Qed.

(** The renderer's output changes with the selection only through the
    section of referenced files. *)
Lemma generateMarkdown_selection (protoText : jsstring -> jsstring)
    (data : OutputResponse) (options : MarkdownOptions) (nums nums' : list Z) :
  formatReferencedFiles data (referencesAll options) (Some nums)
  = formatReferencedFiles data (referencesAll options) (Some nums') ->
  generateMarkdown protoText data (selecting options nums)
  = generateMarkdown protoText data (selecting options nums').
Proof.
  intros H. unfold generateMarkdown, selecting. cbn [includeAnswer includeReferencesList
    referencesAll referencesNumbers contextAll contextFiles contextRanges isSome].
  rewrite orb_true_r. now rewrite H.
Qed.

End UniqueFacts.


(** ** The assembler: answer segments *)

Section SegmentFacts.
Import Transformer Spec.

Lemma assembleItem_text (a : Assembly) (item : ResponseItem) :
  isText item = true ->
  exists a', assembleItem a item = Ok a'
             /\ queryAnswerSegments a' = queryAnswerSegments a
             /\ pendingText a' = true.
Proof.
  unfold isText, assembleItem. intros H. apply andb_true_iff in H. destruct H as [T D].
  destruct (item_data item) as [|s|r|s|x y z]; try discriminate.
  rewrite T, D. eexists. split; [reflexivity|]. split; [reflexivity|].
  unfold pendingText. simpl. destruct (currentChunks a); reflexivity.
Qed.

Lemma assembleItem_citation (a : Assembly) (item : ResponseItem) :
  isText item = false -> isCitation item = true ->
  exists a', assembleItem a item = Ok a'
             /\ pendingText a' = false
             /\ exists new,
                  queryAnswerSegments a' = queryAnswerSegments a ++ new
                  /\ Forall (fun s => hasReference s = true) new
                  /\ length new = if pendingText a then 1 else 0.
Proof.
  unfold isCitation, assembleItem, pendingText. intros _ H.
  apply andb_true_iff in H. destruct H as [T D].
  destruct (item_data item) as [|s|r|s|x y z]; try discriminate.
  rewrite T. destruct (currentChunks a) as [|c cs] eqn:E.
  - exists a. rewrite E. split; [reflexivity|]. split; [reflexivity|].
    exists []. rewrite app_nil_r. auto.
  - eexists. split; [reflexivity|]. split; [reflexivity|].
    eexists. split; [reflexivity|]. split; [repeat constructor | reflexivity].
Qed.

Lemma assembleItem_other (a a' : Assembly) (item : ResponseItem) :
  isText item = false -> isCitation item = false ->
  assembleItem a item = Ok a' -> a' = a.
Proof.
  unfold isText, isCitation, assembleItem. intros T C.
  destruct (item_data item) as [|s|r|s|x y z].
  - congruence.
  - rewrite andb_false_iff in T.
    destruct (eqb_str (item_type item) (lit "chunk")), (Validation.truthy s);
      simpl; try congruence; destruct T; discriminate.
  - rewrite andb_true_r in C. rewrite C. congruence.
  - destruct (eqb_str (item_type item) (lit "reference")); [|congruence].
    destruct (currentChunks a); congruence.
  - congruence.
Qed.

(** The loop over the fragments adds one referenced segment for each
    citation that arrives while text is pending, and nothing else. *)
Lemma assembleItems_segments (items : list ResponseItem) :
  forall a a',
    assembleItems a items = Ok a' ->
    exists new,
      queryAnswerSegments a' = queryAnswerSegments a ++ new
      /\ Forall (fun s => hasReference s = true) new
      /\ length new = closingCitations (pendingText a) items.
Proof.
  induction items as [|item items IH]; intros a a' H.
  - simpl in H. inversion H; subst. exists []. rewrite app_nil_r. auto.
  - cbn [assembleItems closingCitations] in *.
    destruct (isText item) eqn:T.
    + destruct (assembleItem_text a item T) as (a1 & E1 & S1 & P1).
      rewrite E1 in H. cbn [bind] in H.
      destruct (IH _ _ H) as (new & E & F & L). exists new.
      rewrite E, S1, L, P1. auto.
    + destruct (isCitation item) eqn:C.
      * destruct (assembleItem_citation a item T C) as (a1 & E1 & P1 & new1 & S1 & F1 & L1).
        rewrite E1 in H. cbn [bind] in H.
        destruct (IH _ _ H) as (new & E & F & L). exists (new1 ++ new).
        rewrite E, S1, <- app_assoc. split; [reflexivity|].
        split; [now apply Forall_app|]. rewrite length_app, L, L1, P1. reflexivity.
      * destruct (assembleItem a item) as [a1|e] eqn:E1; [|discriminate].
        cbn [bind] in H. apply (assembleItem_other a a1 item T C) in E1. subst a1.
        now apply IH.
Qed.

End SegmentFacts.

Section ConversationFacts.
Import Transformer Spec.

Lemma referencedSegments_app (l l' : list AnswerSegment) :
  referencedSegments (l ++ l') = referencedSegments l + referencedSegments l'.
Proof. unfold referencedSegments. now rewrite filter_app, length_app. Qed.

Lemma referencedSegments_all (l : list AnswerSegment) :
  Forall (fun s => hasReference s = true) l -> referencedSegments l = length l.
Proof.
  unfold referencedSegments. induction 1 as [|s l Hs _ IH]; simpl; [reflexivity|].
  rewrite Hs. simpl. now rewrite IH.
Qed.

Lemma assembleQuery_assembled (query : ApiQuery) (cq : ConversationQuery) :
  assembleQuery query = Ok cq ->
  assembledFrom (response query) (answer_segments cq).
Proof.
  unfold assembleQuery. intros H.
  destruct (assembleItems _ (response query)) as [a|e] eqn:E; [|discriminate].
  cbn [bind] in H. inversion H; subst cq; clear H. cbn [answer_segments].
  destruct (assembleItems_segments _ _ _ E) as (new & S & F & L).
  cbn [queryAnswerSegments pendingText currentChunks app] in S, L.
  unfold assembledFrom. destruct (currentChunks a) as [|c cs].
  - rewrite S. split; [now rewrite referencedSegments_all|].
    exists new, []. rewrite app_nil_r. auto.
  - rewrite S. split.
    + rewrite referencedSegments_app, referencedSegments_all by assumption.
      rewrite L. unfold referencedSegments. simpl. lia.
    + exists new, [{| text := join [] (c :: cs); reference := None |}].
      split; [reflexivity|]. split; [assumption|]. right. eauto.
Qed.

Lemma assembleQueries_assembled (queries : list ApiQuery) :
  forall conv,
    assembleQueries queries = Ok conv ->
    Forall2 (fun query cq => assembledFrom (response query) (answer_segments cq))
      queries conv.
Proof.
  induction queries as [|query queries IH]; intros conv H; simpl in H.
  - inversion H. constructor.
  - destruct (assembleQuery query) as [c|e] eqn:E; [|discriminate]. cbn [bind] in H.
    destruct (assembleQueries queries) as [cs|e]; [|discriminate]. cbn [bind] in H.
    inversion H; subst conv. constructor; [now apply assembleQuery_assembled | now apply IH].
Qed.

(** Stripping the preamble rewrites the text of one segment only. *)
Lemma assembledFrom_retext (items : list ResponseItem) (s : AnswerSegment)
    (segs : list AnswerSegment) (t : jsstring) :
  assembledFrom items (s :: segs) ->
  assembledFrom items ({| text := t; reference := reference s |} :: segs).
Proof.
  unfold assembledFrom, referencedSegments. intros [C (referenced & trailing & E & F & T)].
  split.
  - rewrite <- C. cbn [filter].
    change (hasReference {| text := t; reference := reference s |}) with (hasReference s).
    destruct (hasReference s); reflexivity.
  - destruct referenced as [|r referenced].
    + simpl in E. subst trailing. destruct T as [T | [t0 T]]; [discriminate|].
      inversion T; subst. exists [], [{| text := t; reference := None |}].
      split; [reflexivity|]. split; [constructor|]. right. eauto.
    + simpl in E. inversion E; subst. inversion F; subst.
      exists ({| text := t; reference := reference r |} :: referenced), trailing.
      split; [reflexivity|]. split; [|assumption]. constructor; assumption.
Qed.

Lemma filterPreamble_assembled (queries : list ApiQuery) (conv : list ConversationQuery) :
  Forall2 (fun query cq => assembledFrom (response query) (answer_segments cq))
    queries conv ->
  Forall2 (fun query cq => assembledFrom (response query) (answer_segments cq))
    queries (filterPreamble conv).
Proof.
  intros H. unfold filterPreamble. destruct H as [|query c0 queries conv H0 H]; [constructor|].
  destruct (answer_segments c0) as [|s segs] eqn:E.
  - constructor; [rewrite E; exact H0 | exact H].
  - destruct (Validation.truthy (text s)).
    + constructor; [|exact H]. cbn [answer_segments]. now apply assembledFrom_retext.
    + constructor; [rewrite E; exact H0 | exact H].
Qed.

End ConversationFacts.


(** ** The assembler: referenced files *)

Section ReferenceFacts.
Import Transformer Spec.

Lemma getOwn_In {V} (k : jsstring) (v : V) (o : Obj.t V) :
  Obj.getOwn k o = Some v -> In (k, v) o.
Proof.
  induction o as [|[k' v'] o IH]; simpl; [discriminate|].
  destruct (eqb_str k' k) eqn:E.
  - apply eqb_str_eq in E. intros [= ->]. left. now subst.
  - intros H. right. now apply IH.
Qed.

Lemma set_In {V} (k key : jsstring) (v val : V) (o : Obj.t V) :
  In (k, v) (Obj.set key val o) -> (k = key /\ v = val) \/ In (k, v) o.
Proof.
  induction o as [|[k' v'] o IH]; simpl.
  - intros [[= <- <-] | []]. now left.
  - destruct (eqb_str k' key) eqn:E.
    + apply eqb_str_eq in E. subst k'.
      intros [[= <- <-] | H]; [now left | right; now right].
    + intros [H | H]; [right; now left|].
      destruct (IH H) as [X | X]; [now left | right; now right].
Qed.

(** A reference with the range 0-0 leaves the map as it is. *)
Lemma resolveReferences_filter (files : Obj.t (list jsstring)) (refs : list Reference) :
  forall acc,
    resolveReferences files acc (filter proper refs) = resolveReferences files acc refs.
Proof.
  induction refs as [|ref refs IH]; intros acc; [reflexivity|].
  cbn [filter]. unfold proper at 1.
  destruct (degenerate ref) eqn:D; cbn [negb resolveReferences].
  - unfold resolveReference. rewrite D. cbn [bind]. apply IH.
  - destruct (resolveReference files acc ref); cbn [bind]; [apply IH | reflexivity].
Qed.

(** Where the keys and the entries of the map come from. *)
Lemma resolveReferences_provenance (files : Obj.t (list jsstring)) (refs : list Reference) :
  forall acc acc',
    resolveReferences files acc refs = Ok acc' ->
    forall k entries,
      In (k, entries) acc' ->
      ((exists entries0, In (k, entries0) acc)
       \/ exists ref, In ref refs /\ degenerate ref = false /\ referenceKey ref = k)
      /\ forall e, In e entries ->
           (exists entries0, In (k, entries0) acc /\ In e entries0)
           \/ exists ref, In ref refs /\ degenerate ref = false /\ referenceKey ref = k
                /\ reference_range e
                   = showZ (range_start ref) ++ [hyphen] ++ showZ (range_end ref)
                /\ reference_material e = referenceMaterial files k ref.
Proof.
  induction refs as [|ref refs IH]; intros acc acc' H k entries Hin.
  - simpl in H. inversion H; subst. split; [left; eauto|]. intros e He. left. eauto.
  - cbn [resolveReferences] in H.
    destruct (resolveReference files acc ref) as [acc1|ex] eqn:R; [|discriminate].
    cbn [bind] in H. destruct (IH _ _ H _ _ Hin) as [K E].
    unfold resolveReference in R. destruct (degenerate ref) eqn:D.
    { inversion R; subst acc1. split.
      - destruct K as [K | (r & Hr & P)]; [now left | right; exists r; simpl; tauto].
      - intros e He. destruct (E e He) as [X | (r & Hr & P)]; [now left|].
        right. exists r. simpl. tauto. }
    assert (Step : forall k0 v0, In (k0, v0) acc1 ->
              In (k0, v0) acc
              \/ (k0 = referenceKey ref
                  /\ exists old, v0 = old ++
                       [{| reference_range :=
                             showZ (range_start ref) ++ [hyphen] ++ showZ (range_end ref);
                           reference_material :=
                             referenceMaterial files (referenceKey ref) ref |}]
                     /\ (old = [] \/ In (k0, old) acc))).
    { intros k0 v0 H0.
      destruct (Obj.getOwn (referenceKey ref) acc) as [old|] eqn:G.
      - inversion R; subst acc1. apply set_In in H0.
        destruct H0 as [[-> ->] | H0]; [|now left].
        right. split; [reflexivity|]. exists old. split; [reflexivity|].
        right. now apply getOwn_In.
      - destruct (Obj.inherited (referenceKey ref)); [discriminate|].
        inversion R; subst acc1. apply set_In in H0.
        destruct H0 as [[-> ->] | H0]; [|now left].
        right. split; [reflexivity|]. exists []. split; [reflexivity | now left]. }
    split.
    + destruct K as [[entries0 K] | (r & Hr & P)].
      * destruct (Step _ _ K) as [X | (-> & _)]; [left; eauto|].
        right. exists ref. simpl. auto.
      * right. exists r. simpl. tauto.
    + intros e He. destruct (E e He) as [(entries0 & K0 & He0) | (r & Hr & P)].
      * destruct (Step _ _ K0) as [X | (-> & old & -> & O)]; [left; eauto|].
        apply in_app_or in He0. destruct He0 as [He0 | [<- | []]].
        -- destruct O as [-> | O]; [destruct He0 | left; eauto].
        -- right. exists ref. simpl. auto.
      * right. exists r. simpl. tauto.
Qed.

End ReferenceFacts.


(** * The statements of the specification

    ** The assembler *)

Section AssemblerClaims.
Import Transformer Spec Examples.

(** C1, as amended.  For every input on which [transformResponse]
    returns, the answer segments of each query are, in order, one
    referenced segment for each citation fragment that arrives while
    text is pending (whatever its range, 0-0 included; a citation with no
    text pending adds nothing), followed by at most one segment without
    reference. *)
Theorem transformResponse_segments (input : InputResponse) (out : OutputResponse) :
  transformResponse input = Ok out ->
  Forall2 (fun query cq => assembledFrom (response query) (answer_segments cq))
    (queriesOf (rawResponse input)) (conversation out).
Proof.
  unfold transformResponse. intros H.
  destruct (queriesOf (rawResponse input)) as [|q0 queries] eqn:Q; [discriminate|].
  destruct (assembleQueries (q0 :: queries)) as [conv|e] eqn:A; [|discriminate].
  cbn [bind] in H.
  destruct (resolveReferences _ [] (references input)) as [files|e]; [|discriminate].
  cbn [bind] in H. inversion H; subst out; clear H. cbn [conversation].
  apply filterPreamble_assembled. now apply assembleQueries_assembled.
Qed.

Lemma transformResponse_segments_witness :
  exists out,
    transformResponse degenerateCitation = Ok out
    /\ Forall2 (fun query cq => assembledFrom (response query) (answer_segments cq))
         (queriesOf (rawResponse degenerateCitation)) (conversation out).
Proof.
  eexists. split; [vm_compute; reflexivity|].
  apply (@transformResponse_segments degenerateCitation). vm_compute. reflexivity.
Defined.

(** C1 as the specification words it fails: text followed by a citation
    with the range 0-0 gives one referenced segment, and no citation of
    that sequence has a range other than 0-0. *)
Lemma degenerate_citation_is_rendered : ~ countsProperCitations degenerateCitation.
Proof.
  intros H. specialize (H _ eq_refl). vm_compute in H.
  inversion H as [|? ? ? ? E]. discriminate.
Qed.

(** C3.  A reference whose range is 0-0 contributes nothing to
    [referenced_files]: the output is the one obtained without these
    references, whatever the captures are, and every key and every entry
    of the map comes from a reference whose range is not 0-0. *)
Theorem degenerate_references_dropped (input : InputResponse) :
  transformResponse (withReferences input (filter proper (references input)))
  = transformResponse input
  /\ forall out,
       transformResponse input = Ok out ->
       forall k entries,
         In (k, entries) (referenced_files out) ->
         (exists ref, In ref (references input) /\ degenerate ref = false
                      /\ referenceKey ref = k)
         /\ forall e, In e entries ->
              exists ref, In ref (references input) /\ degenerate ref = false
                /\ referenceKey ref = k
                /\ reference_range e
                   = showZ (range_start ref) ++ [hyphen] ++ showZ (range_end ref).
Proof.
  split.
  - unfold transformResponse, withReferences. cbn [rawResponse references queryId].
    destruct (queriesOf (rawResponse input)) as [|q0 queries]; [reflexivity|].
    destruct (assembleQueries (q0 :: queries)); cbn [bind]; [|reflexivity].
    now rewrite resolveReferences_filter.
  - unfold transformResponse. intros out H.
    destruct (queriesOf (rawResponse input)) as [|q0 queries]; [discriminate|].
    destruct (assembleQueries (q0 :: queries)) as [conv|e]; [|discriminate].
    cbn [bind] in H.
    destruct (resolveReferences _ [] (references input)) as [files|e] eqn:R; [|discriminate].
    cbn [bind] in H. inversion H; subst out; clear H. cbn [referenced_files].
    intros k entries Hin.
    destruct (resolveReferences_provenance _ _ _ _ R _ _ Hin) as [K E]. split.
    + destruct K as [[x []] | K]. exact K.
    + intros e He. destruct (E e He) as [(x & [] & _) | (ref & Hr & D & Kr & Rr & _)].
      exists ref. auto.
Qed.

Lemma degenerate_references_dropped_witness :
  exists out,
    transformResponse (lookingAtTwice (join [nl] twentyLines)) = Ok out
    /\ forall k entries,
         In (k, entries) (referenced_files out) ->
         forall e, In e entries ->
           exists ref, In ref (references (lookingAtTwice (join [nl] twentyLines)))
             /\ degenerate ref = false /\ referenceKey ref = k
             /\ reference_range e
                = showZ (range_start ref) ++ [hyphen] ++ showZ (range_end ref).
Proof.
  eexists. split; [vm_compute; reflexivity|].
  intros k entries Hin.
  apply (proj2 (degenerate_references_dropped (lookingAtTwice (join [nl] twentyLines)))
           _ ltac:(vm_compute; reflexivity) k entries Hin).
Defined.

(** C2, as amended.  On the example of the specification, with a capture
    of twenty lines, the output has the two answer segments of the claim,
    and the entry of [a/b/x.py] in [referenced_files] has the range
    [10-12] and holds lines 9 to 12 (0-based) of the capture, four lines:
    the slice runs from [start - 1] to [end], both included. *)
Theorem lookingAt_output (id question : jsstring) (ids : list jsstring)
    (lines : list jsstring) :
  length lines = 20 ->
  Forall (Forall (fun c => c <> nl)) lines ->
  transformResponse (lookingAt id question ids (join [nl] lines))
  = Ok {| query_id := id;
          conversation :=
            [{| cq_user_query := question;
                answer_segments :=
                  [{| text := lit "Looking at ";
                      reference := Some (lit "a/b: x.py:10-12") |};
                   {| text := lit " next."; reference := None |}] |}];
          out_repo_context_ids := ids;
          referenced_files :=
            [(lit "a/b/x.py",
              [{| reference_range := lit "10-12";
                  reference_material := join [nl] (firstn 4 (skipn 9 lines)) |}])];
          full_context :=
            [{| file_name := lit "a/b/x.py"; file_text := join [nl] lines |}] |}.
Proof.
  intros L F.
  assert (S : split nl (join [nl] lines) = lines).
  { apply split_join; [destruct lines; [discriminate | congruence] | exact F]. }
  unfold transformResponse, lookingAt, inputOf.
  cbn [rawResponse queriesOf references queryId].
  set (content := join [nl] lines) in *.
  match goal with |- context [assembleQueries ?qs] =>
    replace (assembleQueries qs) with
      (Ok [{| cq_user_query := question;
              answer_segments :=
                [{| text := lit "Looking at ";
                    reference := Some (lit "a/b: x.py:10-12") |};
                 {| text := lit " next."; reference := None |}] |}])
      by (vm_compute; reflexivity)
  end.
  cbn [bind].
  match goal with |- context [captureQueries ?qs] =>
    replace (captureQueries qs) with
      {| captured := [{| file_name := lit "a/b/x.py"; file_text := content |}];
         fileContentMap := [(lit "a/b/x.py", split nl content)] |}
      by reflexivity
  end.
  cbn [fileContentMap captured]. rewrite S. clear S F. clearbody content.
  do 20 (destruct lines as [|? lines]; [discriminate|]).
  destruct lines; [|discriminate].
  vm_compute. reflexivity.
Qed.

Lemma lookingAt_output_witness :
  exists out,
    transformResponse (lookingAt (lit "q1") (lit "why") [] (join [nl] twentyLines)) = Ok out
    /\ Obj.getOwn (lit "a/b/x.py") (referenced_files out)
       = Some [{| reference_range := lit "10-12";
                  reference_material :=
                    join [nl] [lit "line 9"; lit "line 10"; lit "line 11"; lit "line 12"] |}].
Proof.
  eexists. split.
  - apply (@lookingAt_output (lit "q1") (lit "why") [] twentyLines).
    + reflexivity.
    + vm_compute. repeat (constructor; try discriminate).
  - vm_compute. reflexivity.
Defined.

(** C2 as the specification words it fails: no entry of the output holds
    lines 9 to 11 only. *)
Lemma lookingAt_not_three_lines :
  ~ citesThreeLines (lookingAt (lit "q1") (lit "why") [] (join [nl] twentyLines))
      twentyLines.
Proof.
  intros (out & k & entries & entry & H & Hk & He & M).
  vm_compute in H. inversion H; subst out; clear H.
  cbn [referenced_files] in Hk. destruct Hk as [Hk | []].
  inversion Hk; subst k entries; clear Hk.
  destruct He as [<- | []]. vm_compute in M. discriminate.
Qed.

(** C10.  A fragment tagged [reference] whose data is an object without
    [file_path] is not skipped: with text pending, [transformResponse]
    throws. *)
Theorem transformResponse_mistyped_reference :
  transformResponse mistypedReference = Throw TypeError.
Proof. vm_compute. reflexivity. Qed.

(** A reference whose path is the name of an inherited property makes it
    throw as well. *)
Lemma transformResponse_inherited_path :
  transformResponse inheritedPath = Throw TypeError.
Proof. vm_compute. reflexivity. Qed.

(** Away from these two cases the function is total: a fragment of any
    other tag or shape is passed over. *)
Lemma assembleItems_total (items : list ResponseItem) :
  Forall (fun item => mistyped item = false) items ->
  forall a, exists a', assembleItems a items = Ok a'.
Proof.
  induction 1 as [|item items M _ IH]; intros a; [now exists a|].
  cbn [assembleItems].
  assert (E : exists a1, assembleItem a item = Ok a1).
  { unfold assembleItem, mistyped in *.
    destruct (item_data item) as [|s|r|s|x y z].
    - eexists; reflexivity.
    - destruct (eqb_str (item_type item) (lit "chunk") && Validation.truthy s);
        eexists; reflexivity.
    - destruct (eqb_str (item_type item) (lit "reference")); [|eexists; reflexivity].
      destruct (currentChunks a); eexists; reflexivity.
    - rewrite andb_true_r in M. rewrite M. eexists; reflexivity.
    - eexists; reflexivity. }
  destruct E as [a1 ->]. cbn [bind]. apply IH.
Qed.

Lemma transformResponse_total (input : InputResponse) :
  queriesOf (rawResponse input) <> [] ->
  Forall (fun query => Forall (fun item => mistyped item = false) (response query))
    (queriesOf (rawResponse input)) ->
  Forall (fun ref => degenerate ref = false -> Obj.inherited (referenceKey ref) = false)
    (references input) ->
  exists out, transformResponse input = Ok out.
Proof.
  intros NE M I. unfold transformResponse.
  destruct (queriesOf (rawResponse input)) as [|q0 queries]; [congruence|].
  assert (A : exists conv, assembleQueries (q0 :: queries) = Ok conv).
  { clear NE. induction M as [|query qs Mq _ IH]; [now exists []|].
    cbn [assembleQueries]. unfold assembleQuery.
    destruct (assembleItems_total _ Mq {| currentChunks := []; queryAnswerSegments := [] |})
      as [a ->].
    cbn [bind]. destruct IH as [cs ->]. cbn [bind]. eauto. }
  destruct A as [conv ->]. cbn [bind].
  assert (R : forall acc, exists files,
             resolveReferences (fileContentMap (captureQueries (q0 :: queries)))
               acc (references input) = Ok files).
  { induction I as [|ref refs Hr _ IH]; intros acc; [now exists acc|].
    cbn [resolveReferences]. unfold resolveReference.
    destruct (degenerate ref); cbn [bind]; [apply IH|].
    destruct (Obj.getOwn (referenceKey ref) acc); cbn [bind]; [apply IH|].
    rewrite Hr by reflexivity. cbn [bind]. apply IH. }
  destruct (R []) as [files ->]. cbn [bind]. eauto.
Qed.

End AssemblerClaims.


(** ** The renderer *)

Section RendererClaims.
Import Transformer Markdown Spec Examples.







(** C6.  When the content holds a run of [n] backticks, the fence chosen
    for it has at least [n + 1] backticks and at least three; the opening
    and the closing fence are the same run of backticks; and in the
    rendered block the content, closed by a newline, holds no such run,
    so that the closing fence stands on a line of its own and closes the
    block. *)
Theorem code_fence_closes (content pre post : jsstring) (n : nat) :
  content = pre ++ repeat backtick n ++ post ->
  n + 1 <= length (open (getCodeFence content))
  /\ 3 <= length (open (getCodeFence content))
  /\ open (getCodeFence content) = repeat backtick (length (open (getCodeFence content)))
  /\ close (getCodeFence content) = open (getCodeFence content)
  /\ exists body,
       fencedBlock content
       = open (getCodeFence content) ++ [nl] ++ body
         ++ close (getCodeFence content) ++ [nl; nl]
       /\ endsWith [nl] body = true
       /\ includes (open (getCodeFence content)) body = false.
Proof.
  intros E. split; [now apply (fence_covers_run content pre post)|].
  destruct (getCodeFence_length content) as [Ho Hc].
  split; [rewrite Ho, repeat_length; lia|].
  split; [rewrite Ho, repeat_length; reflexivity|].
  split; [exact Hc|].
  unfold fencedBlock. destruct (endsWith [nl] content) eqn:W.
  - exists content. rewrite app_nil_l. repeat split; [exact W | apply fence_not_inside].
  - exists (content ++ [nl]). split; [now rewrite <- !app_assoc|]. split.
    + unfold endsWith. rewrite rev_app_distr. reflexivity.
    + destruct (includes _ (content ++ [nl])) eqn:I; [|reflexivity]. exfalso.
      apply includes_iff in I. destruct I as (a & b & I).
      pose proof (fence_not_inside content) as NI.
      assert (X : exists b', b = b' ++ [nl]).
      { destruct b as [|x b].
        - rewrite app_nil_r, Ho in I.
          destruct (Nat.max 3 (longest (Regex.matchAll backtickRuns content) 0 + 1))
            as [|k] eqn:K; [lia|].
          replace (S k) with (k + 1) in I by lia.
          rewrite repeat_app, app_assoc in I. apply app_inj_tail in I.
          destruct I as [_ I]. discriminate.
        - destruct (@exists_last _ (x :: b)) as (b' & z & Eb); [discriminate|].
          rewrite Eb in *. rewrite !app_assoc in I. apply app_inj_tail in I.
          destruct I as [_ <-]. now exists b'. }
      destruct X as [b' ->]. rewrite !app_assoc in I. apply app_inj_tail in I.
      destruct I as [I _]. rewrite <- app_assoc in I.
      assert (Y : includes (open (getCodeFence content)) content = true).
      { apply includes_iff. now exists a, b'. }
      congruence.
Qed.

Lemma code_fence_closes_witness :
  4 <= length (open (getCodeFence (lit "a```b"))).
Proof.
  apply (code_fence_closes (lit "a```b") (lit "a") (lit "b") 3 eq_refl).
Defined.

(** C7.  Rendering with a selection raises no error, and the numbers of
    the selection that are not positions of the list of unique
    references change nothing: the section of referenced files and the
    whole output are those of the selection without these numbers. *)
Theorem out_of_bounds_numbers_ignored (protoText : jsstring -> jsstring)
    (data : OutputResponse) (options : MarkdownOptions) (nums : list Z) :
  (exists text, formatReferencedFiles data (referencesAll options) (Some nums) = Ok text)
  /\ (exists markdown, generateMarkdown protoText data (selecting options nums) = Ok markdown)
  /\ formatReferencedFiles data (referencesAll options)
       (Some (filter (inBounds (uniqueReferences data)) nums))
     = formatReferencedFiles data (referencesAll options) (Some nums)
  /\ generateMarkdown protoText data
       (selecting options (filter (inBounds (uniqueReferences data)) nums))
     = generateMarkdown protoText data (selecting options nums).
Proof.
  pose proof (formatReferencedFiles_total data (referencesAll options) (Some nums)) as T.
  split; [exact T|]. split.
  - unfold generateMarkdown, selecting. cbn [includeAnswer includeReferencesList
      referencesAll referencesNumbers contextAll contextFiles contextRanges isSome].
    rewrite orb_true_r. destruct T as [text ->]. cbn [bind]. eexists; reflexivity.
  - split; [apply formatReferencedFiles_filter|].
    apply generateMarkdown_selection. apply formatReferencedFiles_filter.
Qed.

End RendererClaims.

(** ** The validators *)

Section ValidatorClaims.
Import Validation Spec.

(** C8, as amended.  Each validator throws exactly on malformed input,
    the three of them after trimming: [validateRepo] throws iff the
    trimmed string is not of the form owner/repo with both segments not
    empty, of alphanumerics and hyphens, without a hyphen at either end;
    [validateQuestion] throws iff the trimmed question is empty or longer
    than 10,000 code units; [validateQueryId] throws iff the trimmed
    identifier is empty or holds a character other than alphanumerics,
    hyphen and underscore. *)
Theorem validators_throw_exactly (repo question queryId : jsstring) :
  (throws (validateRepo repo) <-> ~ ownerRepoForm (trim repo))
  /\ (throws (validateQuestion question) <->
      (trim question = [] \/ (10000 < N.of_nat (length (trim question)))%N))
  /\ (throws (validateQueryId queryId) <-> ~ queryIdForm (trim queryId)).
Proof.
  split; [|split].
  - rewrite throws_iff_not_ok, validateRepo_ok. reflexivity.
  - apply validateQuestion_throws.
  - rewrite throws_iff_not_ok, validateQueryId_ok. reflexivity.
Qed.

(** C8 as the specification words it fails for [validateRepo]: a
    repository written with a leading space is not of the form owner/repo
    and is accepted. *)
Lemma validateRepo_accepts_padding : ~ rejectsUntrimmed (lit " a/b").
Proof.
  unfold rejectsUntrimmed. intros [_ H].
  assert (T : throws (validateRepo (lit " a/b"))).
  { apply H. intros (owner & name & E & (NE & F & _) & _).
    destruct owner as [|c owner]; [congruence|].
    vm_compute in E. inversion E; subst c.
    inversion F as [|? ? Hc _]; subst. destruct Hc as [Hc | Hc]; vm_compute in Hc; discriminate. }
  destruct T as [e T]. vm_compute in T. discriminate.
Qed.

End ValidatorClaims.


(** ** The polling loop: one check *)

Section PollingFacts.
Import Transformer Automator.

Variable endpoint : jsstring -> Z -> FetchOutcome.
Variable latency : jsstring -> Z -> Z.

Lemma not_found_message (statusText : jsstring) :
  notReadyYet (Error (lit "API responded with " ++ showN 404 ++ lit ": " ++ statusText))
  = true.
Proof.
  unfold notReadyYet. change (showN 404) with (lit "404"). apply includes_app.
Qed.

Lemma checkOnce_not_found (apiUrl statusText : jsstring) (body : JsonBody)
    (threshold : Z) (st : PollState) :
  endpoint apiUrl (now st) = HttpResponse 404 statusText body ->
  checkOnce endpoint latency apiUrl threshold st
  = (Raised (Error (lit "API responded with " ++ showN 404 ++ lit ": " ++ statusText)),
     advance st (now st + latency apiUrl (now st))).
Proof. intros H. unfold checkOnce. rewrite H. reflexivity. Qed.

(** A 404 at one offset sends the loop to the next offset. *)
Lemma pollLoop_not_found (apiUrl statusText : jsstring) (body : JsonBody)
    (deep : bool) (startTime threshold offset : Z) (schedule : list Z) (st : PollState) :
  endpoint apiUrl (now (countAttempt (waitForNextScheduledCheck startTime offset st)))
  = HttpResponse 404 statusText body ->
  pollLoop endpoint latency apiUrl deep startTime threshold (offset :: schedule) st
  = pollLoop endpoint latency apiUrl deep startTime threshold schedule
      (advance (countAttempt (waitForNextScheduledCheck startTime offset st))
         (now (countAttempt (waitForNextScheduledCheck startTime offset st))
          + latency apiUrl
              (now (countAttempt (waitForNextScheduledCheck startTime offset st))))).
Proof.
  intros H. cbn [pollLoop].
  rewrite (checkOnce_not_found _ _ _ _ _ H), not_found_message. reflexivity.
Qed.

Lemma checkOnce_done (apiUrl statusText : jsstring) (q : ApiQuery) (qs : list ApiQuery)
    (threshold : Z) (st : PollState) :
  endpoint apiUrl (now st) = HttpResponse 200 statusText (BodyJson (Some (q :: qs))) ->
  state (last qs q) = lit "done" ->
  exists st',
    checkOnce endpoint latency apiUrl threshold st
    = (Completed (extractDataFromAllQueries (q :: qs)), st')
    /\ now st' = (now st + latency apiUrl (now st))%Z
    /\ attempts st' = attempts st.
Proof.
  intros H D. unfold checkOnce. rewrite H. cbn [N.leb N.compare Pos.compare
    Pos.compare_cont andb negb classify].
  change ((200 <=? 200)%N && (200 <=? 299)%N) with true. cbn [negb classify].
  rewrite D. change (eqb_str (lit "done") (lit "done")) with true. cbn [orb].
  eexists. split; [reflexivity|].
  unfold checkIfStuck, detectProgressChanges, advance.
  repeat match goal with |- context [if ?c then _ else _] => destruct c end;
    split; reflexivity.
Qed.

End PollingFacts.

(** ** The polling loop: the schedule *)

Section PollingClaims.
Import Transformer Automator Examples.

Lemma wait_now (startTime offset : Z) (st : PollState) :
  (now st <= startTime + offset * 1000)%Z ->
  now (countAttempt (waitForNextScheduledCheck startTime offset st))
  = (startTime + offset * 1000)%Z.
Proof.
  intros H. unfold waitForNextScheduledCheck.
  destruct (Z.ltb_spec (now st) (startTime + offset * 1000)); simpl; lia.
Qed.

Lemma wait_attempts (startTime offset : Z) (st : PollState) :
  attempts (countAttempt (waitForNextScheduledCheck startTime offset st))
  = S (attempts st).
Proof.
  unfold waitForNextScheduledCheck.
  destruct (now st <? startTime + offset * 1000)%Z; reflexivity.
Qed.

Lemma schedule_override :
  parseCustomPollSchedule (Some (lit "10,15,20")) REGULAR_MODE = [10; 15; 20]%Z.
Proof. vm_compute. reflexivity. Qed.

(** C4.  A 404 of the status fetch at one offset of the schedule is
    taken as not ready yet: the loop goes on with the next offset.  With
    the regular schedule set to 10, 15 and 20 seconds, an endpoint that
    answers 404 at 10 s and at 15 s and the state [done] at 20 s (each
    answer arriving before the next offset), the poll returns the data of
    the answer after exactly three fetches. *)
Theorem not_found_means_not_ready
    (endpoint : jsstring -> Z -> FetchOutcome) (latency : jsstring -> Z -> Z) :
  (forall apiUrl statusText body deep startTime threshold offset schedule st,
     endpoint apiUrl (now (countAttempt (waitForNextScheduledCheck startTime offset st)))
     = HttpResponse 404 statusText body ->
     pollLoop endpoint latency apiUrl deep startTime threshold (offset :: schedule) st
     = pollLoop endpoint latency apiUrl deep startTime threshold schedule
         (advance (countAttempt (waitForNextScheduledCheck startTime offset st))
            (now (countAttempt (waitForNextScheduledCheck startTime offset st))
             + latency apiUrl
                 (now (countAttempt (waitForNextScheduledCheck startTime offset st))))))
  /\ (forall envDeep t0 queryId text1 body1 text2 body2 text3 q qs,
        endpoint (lit "https://api.devin.ai/ada/query/" ++ queryId) (t0 + 10000)%Z
        = HttpResponse 404 text1 body1 ->
        (0 <= latency (lit "https://api.devin.ai/ada/query/" ++ queryId) (t0 + 10000)
         <= 5000)%Z ->
        endpoint (lit "https://api.devin.ai/ada/query/" ++ queryId) (t0 + 15000)%Z
        = HttpResponse 404 text2 body2 ->
        (0 <= latency (lit "https://api.devin.ai/ada/query/" ++ queryId) (t0 + 15000)
         <= 5000)%Z ->
        endpoint (lit "https://api.devin.ai/ada/query/" ++ queryId) (t0 + 20000)%Z
        = HttpResponse 200 text3 (BodyJson (Some (q :: qs))) ->
        state (last qs q) = lit "done" ->
        fst (fetchApiResponse endpoint latency (Some (lit "10,15,20")) envDeep t0
               queryId false)
        = Ok (extractDataFromAllQueries (q :: qs))
        /\ attempts (snd (fetchApiResponse endpoint latency (Some (lit "10,15,20"))
                            envDeep t0 queryId false)) = 3
        /\ now (snd (fetchApiResponse endpoint latency (Some (lit "10,15,20"))
                       envDeep t0 queryId false))
           = (t0 + 20000
              + latency (lit "https://api.devin.ai/ada/query/" ++ queryId) (t0 + 20000))%Z).
Proof.
  split.
  - intros. now apply pollLoop_not_found with (statusText := statusText) (body := body).
  - intros envDeep t0 queryId text1 body1 text2 body2 text3 q qs H1 L1 H2 L2 H3 D.
    unfold fetchApiResponse. rewrite schedule_override.
    set (url := lit "https://api.devin.ai/ada/query/" ++ queryId) in *.
    set (st0 := {| now := t0; lastState := []; lastResponseLength := 0;
                   lastChangeTime := t0; attempts := 0; stallWarnings := 0 |}).
    assert (N1 : now (countAttempt (waitForNextScheduledCheck t0 10 st0))
                 = (t0 + 10000)%Z).
    { rewrite wait_now; simpl; lia. }
    rewrite (pollLoop_not_found endpoint latency url text1 body1)
      by (rewrite N1; exact H1).
    rewrite N1.
    set (st1 := advance (countAttempt (waitForNextScheduledCheck t0 10 st0))
                  (t0 + 10000 + latency url (t0 + 10000))%Z).
    assert (N2 : now (countAttempt (waitForNextScheduledCheck t0 15 st1))
                 = (t0 + 15000)%Z).
    { rewrite wait_now; simpl; lia. }
    rewrite (pollLoop_not_found endpoint latency url text2 body2)
      by (rewrite N2; exact H2).
    rewrite N2.
    set (st2 := advance (countAttempt (waitForNextScheduledCheck t0 15 st1))
                  (t0 + 15000 + latency url (t0 + 15000))%Z).
    assert (N3 : now (countAttempt (waitForNextScheduledCheck t0 20 st2))
                 = (t0 + 20000)%Z).
    { rewrite wait_now; simpl; lia. }
    cbn [pollLoop].
    destruct (checkOnce_done endpoint latency url text3 q qs STUCK_THRESHOLD_REGULAR
                (countAttempt (waitForNextScheduledCheck t0 20 st2)))
      as (st' & -> & Nw & At); [rewrite N3; exact H3 | exact D |].
    cbn [fst snd]. split; [reflexivity|]. split.
    + rewrite At, wait_attempts. unfold st2. cbn [attempts advance].
      rewrite wait_attempts. unfold st1. cbn [attempts advance].
      rewrite wait_attempts. reflexivity.
    + rewrite Nw, N3. reflexivity.
Qed.

Lemma not_found_means_not_ready_witness :
  fst (fetchApiResponse lateEndpoint noLatency (Some (lit "10,15,20")) None 0
         (lit "q1") false)
  = Ok (extractDataFromAllQueries [doneQuery])
  /\ attempts (snd (fetchApiResponse lateEndpoint noLatency (Some (lit "10,15,20")) None 0
                      (lit "q1") false)) = 3.
Proof.
  pose proof (proj2 (not_found_means_not_ready lateEndpoint noLatency)
              None 0%Z (lit "q1") (lit "Not Found") BodyNull (lit "Not Found") BodyNull
              (lit "OK") doneQuery []) as H.
  destruct H as (R & A & _).
  - reflexivity.
  - unfold noLatency; lia.
  - reflexivity.
  - unfold noLatency; lia.
  - reflexivity.
  - reflexivity.
  - exact (conj R A).
Defined.

End PollingClaims.


(** ** The question tool: validation and the calls made *)

Section ToolFacts.
Import Transformer Markdown Validation Tool.

(** The messages of the validators begin with another letter than the
    message of the cache miss. *)
Lemma validateRepo_message (repo : jsstring) (e : exn) :
  validateRepo repo = Throw e -> ~ beginsWith 78 e.
Proof.
  unfold validateRepo.
  repeat match goal with
         | |- context [if ?c then _ else _] => destruct c
         | |- context [match ?l with [] => _ | _ :: _ => _ end] => destruct l
         end;
    intros H; inversion H; subst e; vm_compute; discriminate.
Qed.

Lemma validateQuestion_message (question : jsstring) (e : exn) :
  validateQuestion question = Throw e -> ~ beginsWith 78 e.
Proof.
  unfold validateQuestion.
  repeat match goal with
         | |- context [if ?c then _ else _] => destruct c
         end;
    intros H; inversion H; subst e; vm_compute; discriminate.
Qed.

Lemma validateQueryId_message (queryId : jsstring) (e : exn) :
  validateQueryId queryId = Throw e -> ~ beginsWith 78 e.
Proof.
  unfold validateQueryId.
  repeat match goal with
         | |- context [if ?c then _ else _] => destruct c
         end;
    intros H; inversion H; subst e; vm_compute; discriminate.
Qed.

Lemma validateReferencesNumbers_message (l : list Z) (e : exn) :
  validateReferencesNumbers l = Throw e -> ~ beginsWith 78 e.
Proof.
  unfold validateReferencesNumbers. destruct (Nat.eqb (length l) 0).
  - intros H; inversion H; subst e; vm_compute; discriminate.
  - generalize 0. induction l as [|x l IH]; intros i; cbn [checkReferencesNumbers].
    + discriminate.
    + destruct (x <? 1)%Z; [|apply IH].
      intros H; inversion H; subst e; vm_compute; discriminate.
Qed.

Lemma validateContextFiles_message (l : list jsstring) (e : exn) :
  validateContextFiles l = Throw e -> ~ beginsWith 78 e.
Proof.
  unfold validateContextFiles. destruct (Nat.eqb (length l) 0).
  - intros H; inversion H; subst e; vm_compute; discriminate.
  - generalize 0. induction l as [|x l IH]; intros i; cbn [checkContextFiles].
    + discriminate.
    + destruct (Nat.eqb (length (trim x)) 0); [|apply IH].
      intros H; inversion H; subst e; vm_compute; discriminate.
Qed.

Lemma validateContextRanges_message (l : list (jsstring * LineRange)) (e : exn) :
  validateContextRanges l = Throw e -> ~ beginsWith 78 e.
Proof.
  unfold validateContextRanges. destruct (Nat.eqb (length l) 0).
  - intros H; inversion H; subst e; vm_compute; discriminate.
  - induction l as [|[file range] l IH]; cbn [checkContextRanges].
    + discriminate.
    + repeat match goal with
             | |- context [if ?c then _ else _] => destruct c
             end; try apply IH;
        intros H; inversion H; subst e; vm_compute; discriminate.
Qed.

Lemma validateSaveToFile_message (s : jsstring) (e : exn) :
  validateSaveToFile s = Throw e -> ~ beginsWith 78 e.
Proof.
  unfold validateSaveToFile.
  destruct (_ && _); intros H; inversion H; subst e; vm_compute; discriminate.
Qed.

Lemma whenGiven_message {A} (o : option A) (f : A -> result unit) :
  (forall a e', f a = Throw e' -> ~ beginsWith 78 e') ->
  forall e, whenGiven o f = Throw e -> ~ beginsWith 78 e.
Proof. intros F e. destruct o as [a|]; simpl; [apply F | discriminate]. Qed.

Ltac peel H lem :=
  match type of H with
  | bind ?r _ = Throw _ =>
      let E := fresh "E" in
      destruct r as [[]|?] eqn:E; cbn [bind] in H;
      [| inversion H; subst; exact (lem _ E)]
  end.

Lemma validateParams_message (params : WikiQuestionToolParams) (e : exn) :
  validateParams params = Throw e -> ~ beginsWith 78 e.
Proof.
  unfold validateParams. intros H.
  peel H (validateRepo_message (repo params)).
  peel H (whenGiven_message (given (question params)) _ validateQuestion_message).
  peel H (whenGiven_message (given (paramQueryId params)) _ validateQueryId_message).
  peel H (whenGiven_message (given (followUpQuestion params)) _ validateQuestion_message).
  peel H (whenGiven_message (p_referencesNumbers params) _
            validateReferencesNumbers_message).
  peel H (whenGiven_message (p_contextFiles params) _ validateContextFiles_message).
  peel H (whenGiven_message (p_contextRanges params) _ validateContextRanges_message).
  exact (whenGiven_message (given (saveToFile params)) _ validateSaveToFile_message _ H).
Qed.

Lemma exec_pbind {A B} (world : forall X, call X -> X) (p : prog A) (f : A -> prog B) :
  exec world (pbind p f)
  = match snd (exec world p) with
    | Ok a => (fst (exec world p) ++ fst (exec world (f a)), snd (exec world (f a)))
    | Throw e => (fst (exec world p), Throw e)
    end.
Proof.
  induction p as [a|e|X c k IH]; cbn [pbind exec].
  - cbn [fst snd app]. now destruct (exec world (f a)).
  - reflexivity.
  - rewrite IH. destruct (exec world (k (world X c))) as [t r]. cbn [fst snd].
    destruct r as [a|e]; reflexivity.
Qed.

Lemma exec_liftResult {A} (world : forall X, call X -> X) (r : result A) :
  exec world (liftResult r) = ([], r).
Proof. destruct r; reflexivity. Qed.

Lemma generateMarkdown_total (protoText : jsstring -> jsstring) (data : OutputResponse)
    (options : MarkdownOptions) :
  exists markdown, generateMarkdown protoText data options = Ok markdown.
Proof.
  unfold generateMarkdown.
  destruct (formatReferencedFiles_total data (referencesAll options)
              (referencesNumbers options)) as [text ->].
  destruct (referencesAll options || isSome (referencesNumbers options));
    cbn [bind]; eexists; reflexivity.
Qed.

Lemma saving_only (m : made) :
  isSaving m = true ->
  isAutomation m = false
  /\ (forall q r, ~ cacheMiss q r m)
  /\ (forall q r c, ~ cacheHit q r c m).
Proof.
  destruct m as [X c x]. destruct c; cbn; intros H; try discriminate.
  repeat split; auto.
Qed.

(** After the response is known the tool calls nothing but the saving of
    the file, and fails only when that call is rejected. *)
Lemma finish_run (protoText : jsstring -> jsstring) (world : forall X, call X -> X)
    (params : WikiQuestionToolParams) (data : OutputResponse) (id : jsstring) :
  Forall (fun m => isSaving m = true) (fst (exec world (finish protoText params data id)))
  /\ (forall e, snd (exec world (finish protoText params data id)) = Throw e ->
        Exists (saveRejected e) (fst (exec world (finish protoText params data id)))).
Proof.
  unfold finish. rewrite exec_pbind, exec_liftResult. cbn [fst snd].
  destruct (generateMarkdown_total protoText (rendered params data) (markdownOptions params))
    as [markdown ->].
  cbn [app].
  destruct (given (saveToFile params)) as [mode|].
  2:{ cbn [exec fst snd]. split; [constructor | discriminate]. }
  destruct (_ || _).
  2:{ cbn [exec fst snd]. split; [constructor | discriminate]. }
  rewrite exec_pbind. unfold await. cbn [exec].
  match goal with |- context [world _ ?c] => destruct (world _ c) as [filePath|e0] end;
    cbn [liftResult exec fst snd app].
  - destruct (eqb_str (toLowerCase mode) (lit "save-only")); cbn [exec fst snd app];
      (split; [repeat constructor | discriminate]).
  - split; [repeat constructor|].
    intros e [= <-]. constructor. reflexivity.
Qed.

Lemma route_cached (params : WikiQuestionToolParams) (qid : jsstring) :
  given (paramQueryId params) = Some qid ->
  orFalse (goDeeper params) = false ->
  given (followUpQuestion params) = None ->
  route params
  = Call (CacheGetJSON (lit "question") qid (repo params))
      (fun transformedJson =>
         match transformedJson with
         | None => Raise (Error (lit "No cached response found for query ID: " ++ qid))
         | Some cached => Return (cached, qid)
         end).
Proof. intros Q G F. unfold route. now rewrite G, F, Q. Qed.

End ToolFacts.

(** ** The question tool: a call for a cached answer *)

Section ToolClaims.
Import Transformer Markdown Validation Tool Examples.

(** C9.  For a call with a query id, without [goDeeper] and without a
    follow-up question: the routing step asks the cache once and throws
    [No cached response found] exactly when the cache answers nothing;
    the whole call then fails with that error, and it fails with that
    error only then (or when the saving of the file is rejected with the
    same error); no request handler, hence no browser automation, is
    called; and when the cache answers, the cached response is the one
    handed to the renderer and saved, unchanged. *)
Theorem cached_response_or_error (protoText : jsstring -> jsstring)
    (world : forall X, call X -> X) (params : WikiQuestionToolParams) (qid : jsstring) :
  given (paramQueryId params) = Some qid ->
  orFalse (goDeeper params) = false ->
  given (followUpQuestion params) = None ->
  (snd (exec world (route params))
   = Throw (Error (lit "No cached response found for query ID: " ++ qid))
   <-> world _ (CacheGetJSON (lit "question") qid (repo params)) = None)
  /\ (Exists (cacheMiss qid (repo params)) (fst (exec world (wikiQuestionTool protoText params)))
      -> snd (exec world (wikiQuestionTool protoText params))
         = Throw (Error (lit "No cached response found for query ID: " ++ qid)))
  /\ (snd (exec world (wikiQuestionTool protoText params))
      = Throw (Error (lit "No cached response found for query ID: " ++ qid))
      -> Exists (cacheMiss qid (repo params))
           (fst (exec world (wikiQuestionTool protoText params)))
         \/ Exists (saveRejected (Error (lit "No cached response found for query ID: " ++ qid)))
              (fst (exec world (wikiQuestionTool protoText params))))
  /\ Forall (fun m => isAutomation m = false)
       (fst (exec world (wikiQuestionTool protoText params)))
  /\ forall cached,
       Exists (cacheHit qid (repo params) cached)
         (fst (exec world (wikiQuestionTool protoText params))) ->
       rendered params cached = cached
       /\ snd (exec world (wikiQuestionTool protoText params))
          = snd (exec world (finish protoText params cached qid)).
Proof.
  intros Q G F.
  pose proof (route_cached params qid Q G F) as R.
  split.
  { rewrite R. cbn [exec].
    destruct (world _ (CacheGetJSON (lit "question") qid (repo params))) as [cached|];
      cbn [exec snd]; split; congruence. }
  unfold wikiQuestionTool. rewrite exec_pbind, exec_liftResult. cbn [fst snd app].
  destruct (validateParams params) as [[]|e] eqn:V.
  2:{ cbn [fst snd]. split; [intros H; inversion H|].
      split.
      { intros [= ->]. apply validateParams_message in V. exfalso. apply V. reflexivity. }
      split; [constructor|]. intros cached H. inversion H. }
  rewrite exec_pbind, R. cbn [exec].
  destruct (world _ (CacheGetJSON (lit "question") qid (repo params))) as [cached|] eqn:W;
    cbn [exec fst snd app].
  - destruct (finish_run protoText world params cached qid) as (A & S).
    split; [|split; [|split]].
    + intros H. exfalso. inversion H as [? ? X|? ? X]; subst.
      * destruct X as (_ & _ & _ & X). discriminate.
      * apply Exists_exists in X. destruct X as (m & Hm & X).
        rewrite Forall_forall in A. now apply (saving_only m (A m Hm)) in X.
    + intros H. right. apply Exists_cons_tl. now apply S.
    + constructor; [reflexivity|].
      eapply Forall_impl; [|exact A]. intros m Hm. now apply saving_only.
    + intros c H. inversion H as [? ? X|? ? X]; subst.
      * destruct X as (_ & _ & _ & [= ->]).
        split; [|reflexivity]. unfold rendered. now rewrite F.
      * exfalso. apply Exists_exists in X. destruct X as (m & Hm & X).
        rewrite Forall_forall in A. now apply (saving_only m (A m Hm)) in X.
  - split; [reflexivity|]. split.
    + intros _. left. constructor. cbn. auto.
    + split; [repeat constructor|].
      intros c H. inversion H as [? ? X|? ? X]; subst.
      * destruct X as (_ & _ & _ & X). discriminate.
      * inversion X.
Qed.

Lemma cached_response_or_error_witness :
  snd (exec emptyWorld (wikiQuestionTool (fun _ => []) cachedCall))
  = Throw (Error (lit "No cached response found for query ID: query-12345")).
Proof.
  apply (proj1 (proj2 (cached_response_or_error (fun _ => []) emptyWorld cachedCall
                         (lit "query-12345") eq_refl eq_refl eq_refl))).
  vm_compute. constructor. repeat split; reflexivity.
Defined.

End ToolClaims.


(** ** The polling loop: what ends it *)

Section OccurrenceFacts.

Lemma includes_suffix (p a m : jsstring) :
  includes p m = true -> includes p (a ++ m) = true.
Proof.
  intro H. apply includes_iff in H. destruct H as (x & y & ->).
  apply includes_iff. exists (a ++ x), y. now rewrite <- app_assoc.
Qed.

(** A prefix without the first code unit of the pattern holds no
    occurrence and no beginning of one. *)
Lemma includes_prefix_free (c : N) (p a m : jsstring) :
  forallb (fun x => negb (N.eqb c x)) a = true ->
  includes (c :: p) (a ++ m) = includes (c :: p) m.
Proof.
  induction a as [|x a IH]; intro H; [reflexivity|].
  cbn [forallb] in H. apply andb_true_iff in H. destruct H as (Hx & Ha).
  specialize (IH Ha).
  unfold includes in *. cbn [app indexOf startsWith].
  apply negb_true_iff in Hx. rewrite Hx. cbn [andb].
  destruct (indexOf (c :: p) (a ++ m)); destruct (indexOf (c :: p) m);
    cbn [option_map]; congruence.
Qed.

End OccurrenceFacts.

Section PollingLaws.
Import Transformer Automator PollingNotions.

Variable endpoint : jsstring -> Z -> FetchOutcome.
Variable latency : jsstring -> Z -> Z.

Lemma sameProgress_refl (st : PollState) : sameProgress st st.
Proof. repeat split. Qed.

Lemma detect_same (lastQuery : ApiQuery) (a b : PollState) :
  sameProgress a b ->
  sameProgress (detectProgressChanges lastQuery a) (detectProgressChanges lastQuery b).
Proof.
  destruct a, b. unfold sameProgress, detectProgressChanges. cbn.
  intros (-> & -> & -> & -> & ->).
  match goal with |- context [if ?c then _ else _] => destruct c end;
    cbn; repeat split.
Qed.

Lemma stuck_same (lastQuery : ApiQuery) (threshold threshold' : Z) (a b : PollState) :
  sameProgress a b ->
  sameProgress (checkIfStuck lastQuery threshold a) (checkIfStuck lastQuery threshold' b).
Proof.
  destruct a, b. unfold sameProgress, checkIfStuck. cbn.
  intros (-> & -> & -> & -> & ->).
  repeat match goal with |- context [if ?c then _ else _] => destruct c end;
    cbn; repeat split.
Qed.

Lemma classify_same (threshold threshold' : Z) (queries : option (list ApiQuery))
    (a b : PollState) :
  sameProgress a b ->
  fst (classify threshold queries a) = fst (classify threshold' queries b)
  /\ sameProgress (snd (classify threshold queries a))
       (snd (classify threshold' queries b)).
Proof.
  intro H. unfold classify.
  destruct queries as [[|q qs]|]; cbn [fst snd]; auto.
  pose proof (stuck_same (last qs q) threshold threshold' _ _
                (detect_same (last qs q) _ _ H)) as S.
  destruct (eqb_str (state (last qs q)) (lit "done")
            || eqb_str (state (last qs q)) (lit "complete")); cbn [fst snd]; auto.
  destruct (eqb_str (state (last qs q)) (lit "error") || optTruthy (error (last qs q)));
    cbn [fst snd]; auto.
Qed.

Lemma advance_same (a b : PollState) (t : Z) :
  sameProgress a b -> sameProgress (advance a t) (advance b t).
Proof.
  destruct a, b. unfold sameProgress, advance. cbn.
  intros (-> & -> & -> & -> & ->). repeat split.
Qed.

Lemma checkOnce_same (apiUrl : jsstring) (threshold threshold' : Z) (a b : PollState) :
  sameProgress a b ->
  fst (checkOnce endpoint latency apiUrl threshold a)
  = fst (checkOnce endpoint latency apiUrl threshold' b)
  /\ sameProgress (snd (checkOnce endpoint latency apiUrl threshold a))
       (snd (checkOnce endpoint latency apiUrl threshold' b)).
Proof.
  intro H. unfold checkOnce.
  assert (N : now a = now b) by apply H. rewrite <- N.
  pose proof (advance_same _ _ (now a + latency apiUrl (now a)) H) as A.
  destruct (endpoint apiUrl (now a)) as [m|status statusText body]; cbn [fst snd]; auto.
  destruct (negb ((200 <=? status) && (status <=? 299))%N); cbn [fst snd]; auto.
  destruct body; cbn [fst snd]; auto.
  now apply classify_same.
Qed.

Lemma atCheck_same (startTime offset : Z) (a b : PollState) :
  sameProgress a b ->
  sameProgress (atCheck startTime offset a) (atCheck startTime offset b).
Proof.
  destruct a, b. unfold sameProgress, atCheck, countAttempt, waitForNextScheduledCheck,
    advance. cbn.
  intros (-> & -> & -> & -> & ->).
  match goal with |- context [if ?c then _ else _] => destruct c end;
    cbn; repeat split.
Qed.

Lemma pollLoop_same (apiUrl : jsstring) (deep : bool) (startTime threshold threshold' : Z)
    (schedule : list Z) :
  forall a b,
    sameProgress a b ->
    fst (pollLoop endpoint latency apiUrl deep startTime threshold schedule a)
    = fst (pollLoop endpoint latency apiUrl deep startTime threshold' schedule b)
    /\ sameProgress
         (snd (pollLoop endpoint latency apiUrl deep startTime threshold schedule a))
         (snd (pollLoop endpoint latency apiUrl deep startTime threshold' schedule b)).
Proof.
  induction schedule as [|offset schedule IH]; intros a b H; cbn [pollLoop fst snd]; auto.
  pose proof (checkOnce_same apiUrl threshold threshold' _ _
                (atCheck_same startTime offset _ _ H)) as (F & S).
  unfold atCheck in F, S.
  destruct (checkOnce endpoint latency apiUrl threshold
              (countAttempt (waitForNextScheduledCheck startTime offset a)))
    as [c st'].
  destruct (checkOnce endpoint latency apiUrl threshold'
              (countAttempt (waitForNextScheduledCheck startTime offset b)))
    as [c' st''].
  cbn [fst snd] in F, S. subst c'.
  destruct c as [data|e|]; cbn [fst snd]; auto.
  destruct (notReadyYet e); cbn [fst snd]; auto.
Qed.

(** A check leaves the count of attempts alone. *)
Lemma classify_attempts (threshold : Z) (queries : option (list ApiQuery)) (st : PollState) :
  attempts (snd (classify threshold queries st)) = attempts st.
Proof.
  unfold classify.
  destruct queries as [[|q qs]|]; cbn [fst snd]; auto.
  assert (A : attempts (checkIfStuck (last qs q) threshold
                          (detectProgressChanges (last qs q) st)) = attempts st).
  { unfold checkIfStuck, detectProgressChanges.
    repeat match goal with |- context [if ?c then _ else _] => destruct c end;
      reflexivity. }
  destruct (eqb_str (state (last qs q)) (lit "done")
            || eqb_str (state (last qs q)) (lit "complete")); cbn [fst snd]; auto.
  destruct (eqb_str (state (last qs q)) (lit "error") || optTruthy (error (last qs q)));
    cbn [fst snd]; auto.
Qed.

Lemma checkOnce_attempts (apiUrl : jsstring) (threshold : Z) (st : PollState) :
  attempts (snd (checkOnce endpoint latency apiUrl threshold st)) = attempts st.
Proof.
  unfold checkOnce.
  destruct (endpoint apiUrl (now st)) as [m|status statusText body]; cbn [fst snd]; auto.
  destruct (negb ((200 <=? status) && (status <=? 299))%N); cbn [fst snd]; auto.
  destruct body; cbn [fst snd]; auto.
  now rewrite classify_attempts.
Qed.

Lemma atCheck_attempts (startTime offset : Z) (st : PollState) :
  attempts (atCheck startTime offset st) = S (attempts st).
Proof. apply wait_attempts. Qed.

Lemma pollLoop_attempts (apiUrl : jsstring) (deep : bool) (startTime threshold : Z)
    (schedule : list Z) :
  forall st,
    attempts st
    <= attempts (snd (pollLoop endpoint latency apiUrl deep startTime threshold schedule st))
    <= attempts st + length schedule
    /\ forall data,
         fst (pollLoop endpoint latency apiUrl deep startTime threshold schedule st)
         = Ok data ->
         attempts st
         < attempts (snd (pollLoop endpoint latency apiUrl deep startTime threshold
                            schedule st)).
Proof.
  induction schedule as [|offset schedule IH]; intro st; cbn [pollLoop fst snd length].
  - split; [lia | discriminate].
  - pose proof (checkOnce_attempts apiUrl threshold
                  (countAttempt (waitForNextScheduledCheck startTime offset st))) as A.
    rewrite wait_attempts in A.
    destruct (checkOnce endpoint latency apiUrl threshold
                (countAttempt (waitForNextScheduledCheck startTime offset st)))
      as [c st'].
    cbn [snd] in A.
    specialize (IH st'). rewrite A in IH.
    destruct c as [data|e|]; cbn [fst snd].
    + split; [lia | intros; lia].
    + destruct (notReadyYet e); cbn [fst snd].
      * destruct IH as (I1 & I2). split; [lia|]. intros d Hd. specialize (I2 d Hd). lia.
      * split; [lia | discriminate].
    + destruct IH as (I1 & I2). split; [lia|]. intros d Hd. specialize (I2 d Hd). lia.
Qed.

(** A check of a query that is still being worked on decides nothing. *)
Lemma checkOnce_stillWorking (apiUrl : jsstring) (threshold : Z) (st : PollState) :
  stillWorking (endpoint apiUrl (now st)) ->
  fst (checkOnce endpoint latency apiUrl threshold st) = NotYet
  \/ exists e, fst (checkOnce endpoint latency apiUrl threshold st) = Raised e
               /\ notReadyYet e = true.
Proof.
  unfold stillWorking. intro H.
  destruct (endpoint apiUrl (now st)) as [m|status statusText body] eqn:E; [contradiction|].
  destruct H as [-> | (Hok & Hb)].
  - right. rewrite (checkOnce_not_found endpoint latency apiUrl statusText body threshold st E).
    eexists. split; [reflexivity | apply not_found_message].
  - left. unfold checkOnce. rewrite E, Hok. cbn [negb].
    destruct body as [m| |[[|q qs]|]]; try contradiction.
    destruct Hb as (Hs & He).
    unfold classify. rewrite Hs, He. reflexivity.
Qed.

Lemma pollLoop_stillWorking (apiUrl : jsstring) (deep : bool) (startTime threshold : Z)
    (schedule : list Z) :
  (forall t, stillWorking (endpoint apiUrl t)) ->
  forall st,
    fst (pollLoop endpoint latency apiUrl deep startTime threshold schedule st)
    = Throw (Error (timeoutMessage deep))
    /\ attempts (snd (pollLoop endpoint latency apiUrl deep startTime threshold schedule st))
       = attempts st + length schedule.
Proof.
  intro W.
  induction schedule as [|offset schedule IH]; intro st; cbn [pollLoop fst snd length].
  - split; [reflexivity | lia].
  - pose proof (checkOnce_attempts apiUrl threshold
                  (countAttempt (waitForNextScheduledCheck startTime offset st))) as A.
    rewrite wait_attempts in A.
    pose proof (checkOnce_stillWorking apiUrl threshold
                  (countAttempt (waitForNextScheduledCheck startTime offset st))
                  (W _)) as C.
    destruct (checkOnce endpoint latency apiUrl threshold
                (countAttempt (waitForNextScheduledCheck startTime offset st)))
      as [c st'].
    cbn [fst snd] in A, C.
    destruct C as [-> | (e & -> & Ne)].
    + destruct (IH st') as (I1 & I2). rewrite I1, I2, A. split; [reflexivity | lia].
    + rewrite Ne. destruct (IH st') as (I1 & I2). rewrite I1, I2, A.
      split; [reflexivity | lia].
Qed.

(** One check answered with a status outside 200-299. *)
Lemma pollLoop_http_failure (apiUrl statusText : jsstring) (status : N) (body : JsonBody)
    (deep : bool) (startTime threshold offset : Z) (schedule : list Z) (st : PollState) :
  endpoint apiUrl (now (atCheck startTime offset st)) = HttpResponse status statusText body ->
  ((200 <=? status) && (status <=? 299))%N = false ->
  pollLoop endpoint latency apiUrl deep startTime threshold (offset :: schedule) st
  = if includes (lit "404") (showN status ++ lit ": " ++ statusText)
    then pollLoop endpoint latency apiUrl deep startTime threshold schedule
           (snd (checkOnce endpoint latency apiUrl threshold (atCheck startTime offset st)))
    else (Throw (Error (lit "API responded with " ++ showN status ++ lit ": " ++ statusText)),
          snd (checkOnce endpoint latency apiUrl threshold (atCheck startTime offset st))).
Proof.
  intros E Hok. unfold atCheck in *. cbn [pollLoop].
  unfold checkOnce. rewrite E, Hok. cbn [negb fst snd notReadyYet].
  change (lit "404") with (52%N :: lit "04").
  rewrite (includes_prefix_free 52 (lit "04") (lit "API responded with ")
             (showN status ++ lit ": " ++ statusText) eq_refl).
  reflexivity.
Qed.

(** One check answered with a failed last turn. *)
Lemma pollLoop_remote_failure (apiUrl statusText message : jsstring) (status : N)
    (q : ApiQuery) (qs : list ApiQuery)
    (deep : bool) (startTime threshold offset : Z) (schedule : list Z) (st : PollState) :
  endpoint apiUrl (now (atCheck startTime offset st))
  = HttpResponse status statusText (BodyJson (Some (q :: qs))) ->
  ((200 <=? status) && (status <=? 299))%N = true ->
  state (last qs q) = lit "error" ->
  error (last qs q) = Some message ->
  message <> [] ->
  pollLoop endpoint latency apiUrl deep startTime threshold (offset :: schedule) st
  = if includes (lit "404") message
    then pollLoop endpoint latency apiUrl deep startTime threshold schedule
           (snd (checkOnce endpoint latency apiUrl threshold (atCheck startTime offset st)))
    else (Throw (Error (lit "Query failed: " ++ message)),
          snd (checkOnce endpoint latency apiUrl threshold (atCheck startTime offset st))).
Proof.
  intros E Hok Hs He Hm. unfold atCheck in *. cbn [pollLoop].
  unfold checkOnce. rewrite E, Hok. cbn [negb].
  unfold classify. rewrite Hs, He.
  destruct message as [|c message']; [congruence|].
  cbn [optTruthy Validation.truthy].
  replace (eqb_str (lit "error") (lit "done") || eqb_str (lit "error") (lit "complete"))
    with false by reflexivity.
  replace (eqb_str (lit "error") (lit "error")) with true by reflexivity.
  cbn [orb fst snd notReadyYet].
  change (lit "404") with (52%N :: lit "04").
  rewrite (includes_prefix_free 52 (lit "04") (lit "Query failed: ")
             (c :: message') eq_refl).
  reflexivity.
Qed.

End PollingLaws.

Section PollingExtras.
Import Transformer Automator PollingNotions Examples Cases.

(** X1.  A query that the status endpoint never reports finished - not
    found, or pending - ends in the timeout error after exactly one
    request per scheduled offset. *)
Theorem unfinished_query_times_out
    (endpoint : jsstring -> Z -> FetchOutcome) (latency : jsstring -> Z -> Z)
    (apiUrl : jsstring) (deep : bool) (startTime threshold : Z)
    (schedule : list Z) (st : PollState) :
  (forall t, stillWorking (endpoint apiUrl t)) ->
  fst (pollLoop endpoint latency apiUrl deep startTime threshold schedule st)
  = Throw (Error (timeoutMessage deep))
  /\ attempts (snd (pollLoop endpoint latency apiUrl deep startTime threshold schedule st))
     = attempts st + length schedule.
Proof. intro W. now apply pollLoop_stillWorking. Qed.

Lemma unfinished_query_times_out_witness :
  fst (pollLoop neverFound noLatency (lit "u") false 0 60000 REGULAR_MODE (freshState 0))
  = Throw (Error (lit "Query did not complete within scheduled checks (regular mode)."))
  /\ attempts (snd (pollLoop neverFound noLatency (lit "u") false 0 60000 REGULAR_MODE
                      (freshState 0))) = 9.
Proof.
  apply (unfinished_query_times_out neverFound noLatency (lit "u") false 0 60000
           REGULAR_MODE (freshState 0)).
  intro t. left. reflexivity.
Defined.

(** X2.  An answer with a status outside 200-299 is retried exactly when
    the text [status: statusText] contains 404; any other failure status
    ends the polling at that check, with the offsets that remain unused. *)
Theorem http_failure_retried_only_on_404
    (endpoint : jsstring -> Z -> FetchOutcome) (latency : jsstring -> Z -> Z)
    (apiUrl statusText : jsstring) (status : N) (body : JsonBody)
    (deep : bool) (startTime threshold offset : Z) (schedule : list Z) (st : PollState) :
  endpoint apiUrl (now (atCheck startTime offset st)) = HttpResponse status statusText body ->
  ((200 <=? status) && (status <=? 299))%N = false ->
  (includes (lit "404") (showN status ++ lit ": " ++ statusText) = true ->
   pollLoop endpoint latency apiUrl deep startTime threshold (offset :: schedule) st
   = pollLoop endpoint latency apiUrl deep startTime threshold schedule
       (snd (checkOnce endpoint latency apiUrl threshold (atCheck startTime offset st))))
  /\ (includes (lit "404") (showN status ++ lit ": " ++ statusText) = false ->
      fst (pollLoop endpoint latency apiUrl deep startTime threshold (offset :: schedule) st)
      = Throw (Error (lit "API responded with " ++ showN status ++ lit ": " ++ statusText))
      /\ attempts (snd (pollLoop endpoint latency apiUrl deep startTime threshold
                          (offset :: schedule) st))
         = S (attempts st)).
Proof.
  intros E Hok.
  rewrite (pollLoop_http_failure endpoint latency apiUrl statusText status body deep
             startTime threshold offset schedule st E Hok).
  split; intros ->; [reflexivity|].
  cbn [fst snd]. split; [reflexivity|].
  rewrite checkOnce_attempts. apply wait_attempts.
Qed.

Lemma http_failure_retried_only_on_404_witness :
  fst (pollLoop serverError noLatency (lit "u") false 0 60000 REGULAR_MODE (freshState 0))
  = Throw (Error (lit "API responded with 500: Internal Server Error"))
  /\ attempts (snd (pollLoop serverError noLatency (lit "u") false 0 60000 REGULAR_MODE
                      (freshState 0))) = 1.
Proof.
  apply (proj2 (http_failure_retried_only_on_404 serverError noLatency (lit "u")
                  (lit "Internal Server Error") 500 BodyNull false 0 60000 10
                  [15; 20; 30; 45; 75; 120; 180; 300]%Z (freshState 0)
                  eq_refl eq_refl)).
  reflexivity.
Defined.

(** X3.  A query whose last turn is in the state [error] ends the polling
    with "Query failed: ..." - unless the error text of the query contains
    404: the clause that retries a query not found yet catches that error
    too, and the polling goes on with the next offset. *)
Theorem remote_failure_with_404_is_retried
    (endpoint : jsstring -> Z -> FetchOutcome) (latency : jsstring -> Z -> Z)
    (apiUrl statusText message : jsstring) (status : N) (q : ApiQuery) (qs : list ApiQuery)
    (deep : bool) (startTime threshold offset : Z) (schedule : list Z) (st : PollState) :
  endpoint apiUrl (now (atCheck startTime offset st))
  = HttpResponse status statusText (BodyJson (Some (q :: qs))) ->
  ((200 <=? status) && (status <=? 299))%N = true ->
  state (last qs q) = lit "error" ->
  error (last qs q) = Some message ->
  message <> [] ->
  (includes (lit "404") message = false ->
   fst (pollLoop endpoint latency apiUrl deep startTime threshold (offset :: schedule) st)
   = Throw (Error (lit "Query failed: " ++ message))
   /\ attempts (snd (pollLoop endpoint latency apiUrl deep startTime threshold
                       (offset :: schedule) st))
      = S (attempts st))
  /\ (includes (lit "404") message = true ->
      pollLoop endpoint latency apiUrl deep startTime threshold (offset :: schedule) st
      = pollLoop endpoint latency apiUrl deep startTime threshold schedule
          (snd (checkOnce endpoint latency apiUrl threshold (atCheck startTime offset st)))).
Proof.
  intros E Hok Hs He Hm.
  rewrite (pollLoop_remote_failure endpoint latency apiUrl statusText message status q qs
             deep startTime threshold offset schedule st E Hok Hs He Hm).
  split; intros ->; [|reflexivity].
  cbn [fst snd]. split; [reflexivity|].
  rewrite checkOnce_attempts. apply wait_attempts.
Qed.

Lemma remote_failure_with_404_is_retried_witness :
  pollLoop failedUpstream noLatency (lit "u") false 0 60000 [10; 15]%Z (freshState 0)
  = pollLoop failedUpstream noLatency (lit "u") false 0 60000 [15]%Z
      (snd (checkOnce failedUpstream noLatency (lit "u") 60000
              (atCheck 0 10 (freshState 0)))).
Proof.
  apply (proj2 (remote_failure_with_404_is_retried failedUpstream noLatency (lit "u")
                  (lit "OK") (lit "upstream answered 404") 200 failedQuery [] false
                  0 60000 10 [15]%Z (freshState 0)
                  eq_refl eq_refl eq_refl eq_refl ltac:(discriminate))).
  reflexivity.
Defined.

(** X4.  The stall detection only writes warnings: the result of the
    polling, the number of requests and the clock are the same for every
    threshold. *)
Theorem stall_detection_only_logs
    (endpoint : jsstring -> Z -> FetchOutcome) (latency : jsstring -> Z -> Z)
    (apiUrl : jsstring) (deep : bool) (startTime threshold threshold' : Z)
    (schedule : list Z) (st : PollState) :
  fst (pollLoop endpoint latency apiUrl deep startTime threshold schedule st)
  = fst (pollLoop endpoint latency apiUrl deep startTime threshold' schedule st)
  /\ sameProgress
       (snd (pollLoop endpoint latency apiUrl deep startTime threshold schedule st))
       (snd (pollLoop endpoint latency apiUrl deep startTime threshold' schedule st)).
Proof. apply pollLoop_same, sameProgress_refl. Qed.

(** X5.  The polling makes at most one request per offset of its
    schedule, and hands back data only after at least one request. *)
Theorem attempts_bounded_by_schedule
    (endpoint : jsstring -> Z -> FetchOutcome) (latency : jsstring -> Z -> Z)
    (envRegular envDeep : option jsstring) (t0 : Z) (queryId : jsstring) (deep : bool) :
  attempts (snd (fetchApiResponse endpoint latency envRegular envDeep t0 queryId deep))
  <= length (if deep then parseCustomPollSchedule envDeep DEEP_MODE
             else parseCustomPollSchedule envRegular REGULAR_MODE)
  /\ forall data,
       fst (fetchApiResponse endpoint latency envRegular envDeep t0 queryId deep) = Ok data ->
       1 <= attempts (snd (fetchApiResponse endpoint latency envRegular envDeep t0
                             queryId deep)).
Proof.
  unfold fetchApiResponse.
  match goal with
  | |- context [pollLoop ?e ?l ?u ?d ?t ?th ?s ?st] =>
      pose proof (pollLoop_attempts e l u d t th s st) as (B & P)
  end.
  cbn [attempts] in B, P. split; [lia|]. intros data H. specialize (P data H). lia.
Qed.

Lemma attempts_bounded_by_schedule_witness :
  1 <= attempts (snd (fetchApiResponse readyEndpoint noLatency None None 0 (lit "q1") false)).
Proof.
  apply (proj2 (attempts_bounded_by_schedule readyEndpoint noLatency None None 0 (lit "q1")
                  false)
           (extractDataFromAllQueries [doneQuery])).
  reflexivity.
Defined.

End PollingExtras.


(** ** The polling schedule from the environment *)

Section ScheduleFacts.
Import Automator PollingNotions.

Lemma ascending_cons (x : Z) (l : list Z) :
  ascending (x :: l) = true <->
  ascending l = true /\ match l with y :: _ => (x <= y)%Z | [] => True end.
Proof.
  destruct l as [|y l]; cbn [ascending].
  - tauto.
  - rewrite andb_true_iff, Z.leb_le. tauto.
Qed.

Lemma insertSorted_perm (x : Z) (l : list Z) : Permutation (x :: l) (insertSorted x l).
Proof.
  induction l as [|y l IH]; cbn [insertSorted]; [reflexivity|].
  destruct (x <? y)%Z; [reflexivity|].
  rewrite perm_swap. now apply perm_skip.
Qed.

Lemma insertSorted_head (x : Z) (l : list Z) :
  match insertSorted x l with
  | z :: _ => z = x \/ match l with y :: _ => z = y /\ (y <= x)%Z | [] => False end
  | [] => False
  end.
Proof.
  destruct l as [|y l]; cbn [insertSorted]; [now left|].
  destruct (x <? y)%Z eqn:E; [now left|].
  right. split; [reflexivity|]. apply Z.ltb_ge in E. lia.
Qed.

Lemma insertSorted_ascending (x : Z) (l : list Z) :
  ascending l = true -> ascending (insertSorted x l) = true.
Proof.
  induction l as [|y l IH]; intro H; [reflexivity|].
  cbn [insertSorted]. destruct (x <? y)%Z eqn:E.
  - apply ascending_cons. split; [assumption|]. apply Z.ltb_lt in E. lia.
  - apply ascending_cons in H. destruct H as (Hl & Hy).
    apply ascending_cons. split; [now apply IH|].
    pose proof (insertSorted_head x l) as Hh.
    destruct (insertSorted x l) as [|z r]; [exact I|].
    destruct Hh as [-> | Hh].
    + apply Z.ltb_ge in E. lia.
    + destruct l as [|y' l']; [contradiction|]. destruct Hh as (-> & _). assumption.
Qed.

Lemma sortAscending_spec (l : list Z) :
  forall acc,
    ascending acc = true ->
    ascending (fold_left (fun acc x => insertSorted x acc) l acc) = true
    /\ Permutation (l ++ acc) (fold_left (fun acc x => insertSorted x acc) l acc).
Proof.
  induction l as [|x l IH]; intros acc H; cbn [fold_left app].
  - split; [assumption | reflexivity].
  - destruct (IH (insertSorted x acc) (insertSorted_ascending x acc H)) as (A & P).
    split; [assumption|].
    rewrite <- P. rewrite <- insertSorted_perm.
    apply Permutation_middle.
Qed.

Lemma parseInterval_positive (s : jsstring) (seconds : Z) :
  parseInterval s = Some seconds -> (0 < seconds)%Z.
Proof.
  unfold parseInterval. destruct (parseInt (trim s)) as [n|]; [|discriminate].
  destruct (n <=? 0)%Z eqn:E; [discriminate|].
  intro H. inversion H; subst. apply Z.leb_gt in E. lia.
Qed.

Lemma parseIntervals_some (l : list jsstring) :
  forall parsed,
    parseIntervals l = Some parsed ->
    length parsed = length l
    /\ Forall2 (fun s seconds => parseInterval s = Some seconds) l parsed.
Proof.
  induction l as [|s l IH]; intros parsed H; cbn [parseIntervals] in H.
  - inversion H; subst. split; [reflexivity | constructor].
  - destruct (parseInterval s) as [n|] eqn:E; [|discriminate].
    destruct (parseIntervals l) as [rest|]; [|discriminate].
    inversion H; subst. destruct (IH rest eq_refl) as (L & F).
    split; [cbn; now rewrite L | now constructor].
Qed.

Lemma parseIntervals_none (l : list jsstring) (item : jsstring) :
  In item l -> parseInterval item = None -> parseIntervals l = None.
Proof.
  induction l as [|s l IH]; intros Hin Hn; [contradiction|].
  cbn [parseIntervals]. destruct Hin as [-> | Hin].
  - now rewrite Hn.
  - destruct (parseInterval s); [|reflexivity]. now rewrite (IH Hin Hn).
Qed.

End ScheduleFacts.

Section ScheduleExtras.
Import Automator PollingNotions.

(** X6.  A schedule taken from the environment variable is used in
    ascending order whatever the order in which the variable lists its
    offsets: it holds the offsets parsed from the comma-separated items,
    one for each item, all positive.  If any item is not a positive
    integer the whole variable is set aside for the default schedule. *)
Theorem custom_schedule_sorted_or_default (envVar : option jsstring)
    (defaultSchedule : list Z) :
  (parseCustomPollSchedule envVar defaultSchedule = defaultSchedule
   \/ exists env parsed,
        envVar = Some env
        /\ Forall2 (fun s seconds => parseInterval s = Some seconds) (split 44 env) parsed
        /\ Permutation parsed (parseCustomPollSchedule envVar defaultSchedule)
        /\ ascending (parseCustomPollSchedule envVar defaultSchedule) = true
        /\ Forall (fun seconds => (0 < seconds)%Z)
             (parseCustomPollSchedule envVar defaultSchedule))
  /\ forall env item,
       envVar = Some env -> In item (split 44 env) -> parseInterval item = None ->
       parseCustomPollSchedule envVar defaultSchedule = defaultSchedule.
Proof.
  split.
  - unfold parseCustomPollSchedule.
    destruct envVar as [env|]; [|now left].
    destruct (eqb_str (trim env) []); [now left|].
    destruct (parseIntervals (split 44 env)) as [parsed|] eqn:E; [|now left].
    destruct (Nat.eqb (length parsed) 0); [now left|].
    right. exists env, parsed.
    destruct (parseIntervals_some _ _ E) as (L & F).
    destruct (sortAscending_spec parsed [] eq_refl) as (A & P).
    rewrite app_nil_r in P. fold (sortAscending parsed) in A, P.
    repeat split; try assumption.
    eapply Permutation_Forall; [exact P|].
    clear - F. induction F; constructor; eauto using parseInterval_positive.
  - intros env item -> Hin Hn. unfold parseCustomPollSchedule.
    destruct (eqb_str (trim env) []); [reflexivity|].
    now rewrite (parseIntervals_none _ _ Hin Hn).
Qed.

Lemma custom_schedule_sorted_or_default_witness :
  parseCustomPollSchedule (Some (lit "10,abc,20")) REGULAR_MODE = REGULAR_MODE.
Proof.
  apply (proj2 (custom_schedule_sorted_or_default (Some (lit "10,abc,20")) REGULAR_MODE)
           (lit "10,abc,20") (lit "abc") eq_refl).
  - vm_compute. tauto.
  - reflexivity.
Defined.

End ScheduleExtras.


(** ** The preamble of the first segment *)

Section LastOccurrence.
Import Regex.

Lemma lastIndexOf_none (p s : jsstring) :
  lastIndexOf p s = None -> forall j, startsWith p (skipn j s) = false.
Proof.
  induction s as [|c s IH]; cbn [lastIndexOf]; intros H j.
  - rewrite skipn_nil. destruct (startsWith p []); [discriminate | reflexivity].
  - destruct (lastIndexOf p s) as [i|]; [discriminate|].
    destruct (startsWith p (c :: s)) eqn:E; [discriminate|].
    destruct j as [|j]; [exact E | cbn [skipn]; now apply IH].
Qed.

Lemma lastIndexOf_some (p s : jsstring) :
  p <> [] ->
  forall i,
    lastIndexOf p s = Some i ->
    i <= length s
    /\ startsWith p (skipn i s) = true
    /\ forall j, i < j -> startsWith p (skipn j s) = false.
Proof.
  intro Hp. induction s as [|c s IH]; cbn [lastIndexOf]; intros i H.
  - destruct p as [|x p]; [congruence | discriminate].
  - destruct (lastIndexOf p s) as [i'|] eqn:E.
    + inversion H; subst. destruct (IH i' eq_refl) as (L & S & M).
      repeat split; [cbn; lia | exact S |].
      intros j Hj. destruct j as [|j]; [lia|]. cbn [skipn]. apply M. lia.
    + destruct (startsWith p (c :: s)) eqn:F; [|discriminate].
      inversion H; subst. repeat split; [cbn; lia | exact F |].
      intros j Hj. destruct j as [|j]; [lia|]. cbn [skipn].
      now apply lastIndexOf_none.
Qed.

Lemma includes_occurrence (p s : jsstring) :
  includes p s = true -> exists j, startsWith p (skipn j s) = true.
Proof.
  intro H. apply includes_iff in H. destruct H as (a & b & ->).
  exists (length a). rewrite skipn_app, skipn_all, Nat.sub_diag. cbn [skipn app].
  apply startsWith_app.
Qed.

Lemma includes_skipn (p s : jsstring) (k : nat) :
  includes p (skipn k s) = true ->
  exists j, k <= j /\ startsWith p (skipn j s) = true.
Proof.
  intro H. apply includes_occurrence in H. destruct H as (j & Hj).
  rewrite skipn_skipn in Hj. exists (j + k). split; [lia | assumption].
Qed.

Lemma dropWhile_suffix (p : N -> bool) (s : jsstring) :
  exists pre, s = pre ++ dropWhile p s.
Proof.
  induction s as [|c s (pre & IH)]; [now exists []|].
  cbn [dropWhile]. destruct (p c).
  - exists (c :: pre). cbn. now f_equal.
  - now exists [].
Qed.

Lemma dropWhile_head (p : N -> bool) (s : jsstring) (c : N) (r : jsstring) :
  dropWhile p s = c :: r -> p c = false.
Proof.
  induction s as [|x s IH]; cbn [dropWhile]; [discriminate|].
  destruct (p x) eqn:E; [assumption|]. intro H. inversion H; subst. assumption.
Qed.

(** [s.replace(/^c+/, '')] strips the leading run of [c]. *)
Lemma removeFirst_leading (p : N -> bool) (s : jsstring) :
  removeFirst (Seq Bol (Plus p)) s = dropWhile p s.
Proof.
  unfold removeFirst.
  assert (M : matchAt (Seq Bol (Plus p)) 0 s = matchAt (Plus p) 0 s) by reflexivity.
  destruct s as [|c s]; [reflexivity|].
  cbn [execFrom]. rewrite M, matchAt_plus.
  destruct (p c) eqn:E.
  - cbn [firstn app]. rewrite Nat.add_0_l. apply dropWhile_skipn.
  - rewrite execFrom_anchored. cbn [dropWhile]. now rewrite E.
Qed.

Lemma indexOfFrom_ge (p s : jsstring) (from e : nat) :
  from <= length s -> indexOfFrom p from s = Some e -> from <= e.
Proof.
  unfold indexOfFrom. intros L H.
  destruct (indexOf p (skipn from s)) as [k|]; [|discriminate].
  cbn in H. inversion H; subst. lia.
Qed.

End LastOccurrence.

Section PreambleFacts.
Import Regex Transformer.

Lemma searchPattern_cons : searchPattern <> [].
Proof. discriminate. Qed.

Lemma stripPreamble_suffix (t : jsstring) : exists pre, t = pre ++ stripPreamble t.
Proof.
  unfold stripPreamble.
  destruct (includes searchPattern t); [|now exists []].
  destruct (lastIndexOf searchPattern t) as [i|]; [|now exists []].
  rewrite removeFirst_leading. unfold substringFrom.
  match goal with |- context [skipn ?n t] =>
    destruct (dropWhile_suffix (exactly nl) (skipn n t)) as (pre & Hpre);
    exists (firstn n t ++ pre);
    rewrite <- app_assoc, <- Hpre; symmetry; apply firstn_skipn
  end.
Qed.

Lemma stripPreamble_clean (t : jsstring) :
  includes searchPattern (stripPreamble t) = false.
Proof.
  unfold stripPreamble.
  destruct (includes searchPattern t) eqn:Inc; [|exact Inc].
  destruct (lastIndexOf searchPattern t) as [i|] eqn:L.
  - destruct (lastIndexOf_some searchPattern t searchPattern_cons i L) as (Li & _ & M).
    rewrite removeFirst_leading. unfold substringFrom.
    match goal with |- context [skipn ?n t] =>
      assert (Hn : i < n);
      [| destruct (dropWhile_suffix (exactly nl) (skipn n t)) as (pre & Hpre);
         destruct (includes searchPattern (dropWhile (exactly nl) (skipn n t))) eqn:D;
         [| reflexivity];
         apply (includes_suffix searchPattern pre) in D; rewrite <- Hpre in D;
         apply includes_skipn in D; destruct D as (j & Hj & S);
         rewrite M in S by lia; discriminate ]
    end.
    destruct (indexOfFrom [nl] i t) as [e|] eqn:E.
    + pose proof (indexOfFrom_ge [nl] t i e Li E). lia.
    + lia.
  - apply includes_occurrence in Inc. destruct Inc as (j & Hj).
    now rewrite (lastIndexOf_none searchPattern t L j) in Hj.
Qed.

Lemma stripPreamble_head (t : jsstring) :
  includes searchPattern t = true -> hd_error (stripPreamble t) <> Some nl.
Proof.
  intro Inc. unfold stripPreamble. rewrite Inc.
  destruct (lastIndexOf searchPattern t) as [i|] eqn:L.
  - rewrite removeFirst_leading.
    match goal with |- context [dropWhile ?p ?s] =>
      destruct (dropWhile p s) as [|c r] eqn:D; [discriminate|];
      apply dropWhile_head in D
    end.
    cbn [hd_error]. intro H. inversion H; subst. discriminate.
  - apply includes_occurrence in Inc. destruct Inc as (j & Hj).
    now rewrite (lastIndexOf_none searchPattern t L j) in Hj.
Qed.

End PreambleFacts.

Section PreambleExtras.
Import Regex Transformer.

(** X7.  Removing the search preamble only cuts a beginning off the
    text: what is left is a suffix of the text, holds no "Searching
    codebase..." marker any more and, when a marker was present, does not
    begin with a newline; a text without marker is left as it is. *)
Theorem preamble_is_cut_off (t : jsstring) :
  (exists pre, t = pre ++ stripPreamble t)
  /\ includes searchPattern (stripPreamble t) = false
  /\ (includes searchPattern t = true -> hd_error (stripPreamble t) <> Some nl)
  /\ (includes searchPattern t = false -> stripPreamble t = t).
Proof.
  split; [apply stripPreamble_suffix|].
  split; [apply stripPreamble_clean|].
  split; [apply stripPreamble_head|].
  intro H. unfold stripPreamble. now rewrite H.
Qed.

Lemma preamble_is_cut_off_witness :
  hd_error
    (stripPreamble
       (lit "Searching codebase..." ++ [nl] ++ lit "Searching codebase... done" ++ [nl; nl]
        ++ lit "The answer"))
  <> Some nl.
Proof.
  apply (proj1 (proj2 (proj2 (preamble_is_cut_off
           (lit "Searching codebase..." ++ [nl] ++ lit "Searching codebase... done"
            ++ [nl; nl] ++ lit "The answer"))))).
  reflexivity.
Defined.

End PreambleExtras.


(** ** The assembler: text, turns and captures *)

Section TextFacts.
Import Transformer Automator TransformerNotions.

Lemma join_nil_concat (l : list jsstring) : join [] l = concat l.
Proof.
  induction l as [|p l IH]; [reflexivity|].
  destruct l as [|q l]; [cbn; now rewrite app_nil_r|].
  rewrite join_cons, IH. reflexivity.
Qed.

Lemma segmentsText_app (l l' : list AnswerSegment) :
  segmentsText (l ++ l') = segmentsText l ++ segmentsText l'.
Proof. apply flat_map_app. Qed.

Lemma chunkData_other (item : ResponseItem) :
  (forall s, item_data item <> DString s) -> chunkData item = [].
Proof.
  intro H. unfold chunkData.
  destruct (eqb_str (item_type item) (lit "chunk")); [|reflexivity].
  destruct (item_data item) as [|s| | |]; try reflexivity.
  now destruct (H s).
Qed.

Lemma assembleItem_keeps_text (a a' : Assembly) (item : ResponseItem) :
  assembleItem a item = Ok a' ->
  segmentsText (queryAnswerSegments a') ++ concat (currentChunks a')
  = segmentsText (queryAnswerSegments a) ++ concat (currentChunks a) ++ chunkData item.
Proof.
  unfold assembleItem.
  destruct (item_data item) as [|s|r|s|x y z] eqn:D;
    try (rewrite (chunkData_other item) by (intros s0; congruence); rewrite app_nil_r).
  - intro H. now inversion H; subst.
  - unfold chunkData. rewrite D.
    destruct (eqb_str (item_type item) (lit "chunk")); cbn [andb].
    + destruct s as [|c s]; cbn [Validation.truthy]; intro H; inversion H; subst; cbn.
      * now rewrite app_nil_r.
      * now rewrite concat_app; cbn; rewrite app_nil_r.
    + intro H. inversion H; subst. now rewrite app_nil_r.
  - destruct (eqb_str (item_type item) (lit "reference")).
    + destruct (currentChunks a) as [|c cs] eqn:C; intro H; inversion H; subst.
      * now rewrite C.
      * unfold closeSegment. cbn [queryAnswerSegments currentChunks].
        rewrite segmentsText_app, C. cbn [segmentsText flat_map text concat].
        now rewrite join_nil_concat, !app_nil_r.
    + intro H. now inversion H; subst.
  - destruct (eqb_str (item_type item) (lit "reference")).
    + destruct (currentChunks a) as [|c cs] eqn:C; intro H; inversion H; subst.
      now rewrite C.
    + intro H. now inversion H; subst.
  - intro H. now inversion H; subst.
Qed.

Lemma assembleItems_keeps_text (items : list ResponseItem) :
  forall a a',
    assembleItems a items = Ok a' ->
    segmentsText (queryAnswerSegments a') ++ concat (currentChunks a')
    = segmentsText (queryAnswerSegments a) ++ concat (currentChunks a) ++ textOf items.
Proof.
  induction items as [|item items IH]; intros a a' H; cbn [assembleItems] in H.
  - inversion H; subst. unfold textOf. cbn. now rewrite app_nil_r.
  - destruct (assembleItem a item) as [a1|e] eqn:E; cbn [bind] in H; [|discriminate].
    rewrite (IH _ _ H), app_assoc, (assembleItem_keeps_text _ _ _ E).
    unfold textOf. cbn [flat_map]. now rewrite <- !app_assoc.
Qed.

Lemma assembleQuery_keeps_text (query : ApiQuery) (cq : ConversationQuery) :
  assembleQuery query = Ok cq ->
  cq_user_query cq = user_query query
  /\ segmentsText (answer_segments cq) = textOf (response query).
Proof.
  unfold assembleQuery.
  destruct (assembleItems _ (response query)) as [a|e] eqn:E; cbn [bind]; [|discriminate].
  intro H. inversion H; subst. cbn [cq_user_query answer_segments].
  split; [reflexivity|].
  apply assembleItems_keeps_text in E. cbn in E.
  destruct (currentChunks a) as [|c cs] eqn:C.
  - rewrite <- E. cbn. now rewrite app_nil_r.
  - rewrite segmentsText_app. cbn [segmentsText flat_map text].
    rewrite join_nil_concat, app_nil_r. exact E.
Qed.

Lemma assembleQueries_keep_text (queries : list ApiQuery) :
  forall conv,
    assembleQueries queries = Ok conv ->
    Forall2
      (fun query cq =>
         cq_user_query cq = user_query query
         /\ segmentsText (answer_segments cq) = textOf (response query))
      queries conv.
Proof.
  induction queries as [|q queries IH]; intros conv H; cbn [assembleQueries] in H.
  - inversion H; subst. constructor.
  - destruct (assembleQuery q) as [c|e] eqn:E; cbn [bind] in H; [|discriminate].
    destruct (assembleQueries queries) as [cs|e]; cbn [bind] in H; [|discriminate].
    inversion H; subst. constructor; [now apply assembleQuery_keeps_text | now apply IH].
Qed.

(** The extraction of the automator reads the same text. *)
Lemma extractItem_text (e : Extraction) (item : ResponseItem) :
  queryAnswer (extractItem e item) = queryAnswer e ++ chunkData item.
Proof.
  unfold extractItem, chunkData.
  destruct (item_type item) as [|c t] eqn:T; cbn [Validation.truthy negb].
  - cbn. now rewrite app_nil_r.
  - destruct (eqb_str (c :: t) (lit "chunk")) eqn:C.
    + destruct (item_data item); cbn [queryAnswer]; now rewrite ?app_nil_r.
    + rewrite app_nil_r.
      destruct (eqb_str (c :: t) (lit "reference")).
      * destruct (item_data item) as [|s| | |]; try reflexivity.
        now destruct (Validation.truthy s).
      * destruct (eqb_str (c :: t) (lit "stats")).
        -- destruct (item_data item) as [| | |s|]; try reflexivity.
           now destruct (Validation.truthy (key s) && negb (eqb_str (key s) (lit "__proto__"))).
        -- destruct (eqb_str (c :: t) (lit "file_contents")); [|reflexivity].
           now destruct (item_data item).
Qed.

Lemma extractItems_text (items : list ResponseItem) :
  forall e,
    queryAnswer (fold_left extractItem items e) = queryAnswer e ++ textOf items.
Proof.
  induction items as [|item items IH]; intro e; cbn [fold_left].
  - unfold textOf. cbn. now rewrite app_nil_r.
  - rewrite IH, extractItem_text. unfold textOf. cbn [flat_map].
    now rewrite <- app_assoc.
Qed.

Lemma filterPreamble_keeps_text (queries : list ApiQuery) (conv : list ConversationQuery) :
  Forall2
    (fun query cq =>
       cq_user_query cq = user_query query
       /\ segmentsText (answer_segments cq) = textOf (response query))
    queries conv ->
  Forall2
    (fun query cq =>
       cq_user_query cq = user_query query
       /\ exists pre, textOf (response query) = pre ++ segmentsText (answer_segments cq))
    queries (filterPreamble conv)
  /\ Forall2
       (fun query cq => segmentsText (answer_segments cq) = textOf (response query))
       (tl queries) (tl (filterPreamble conv)).
Proof.
  intro F.
  assert (W : Forall2
                (fun query cq =>
                   cq_user_query cq = user_query query
                   /\ exists pre,
                        textOf (response query) = pre ++ segmentsText (answer_segments cq))
                queries conv).
  { eapply Forall2_impl; [|exact F]. intros q cq (Hq & Ht). split; [assumption|].
    exists []. now rewrite Ht. }
  assert (T : forall qs cs,
             Forall2
               (fun query cq =>
                  cq_user_query cq = user_query query
                  /\ segmentsText (answer_segments cq) = textOf (response query)) qs cs ->
             Forall2
               (fun query cq => segmentsText (answer_segments cq) = textOf (response query))
               qs cs).
  { intros qs cs G. eapply Forall2_impl; [|exact G]. now intros q cq (_ & Ht). }
  destruct F as [|q c0 queries conv (Hq & Ht) F]; [split; constructor|].
  cbn [filterPreamble tl].
  destruct (answer_segments c0) as [|seg segs] eqn:S.
  { split; [exact W | cbn [tl]; now apply T]. }
  destruct (Validation.truthy (text seg)).
  2:{ split; [exact W | cbn [tl]; now apply T]. }
  cbn [tl]. split; [|now apply T].
  constructor; [|now inversion W].
  cbn [cq_user_query answer_segments]. split; [assumption|].
  destruct (stripPreamble_suffix (text seg)) as (pre & Hpre).
  exists pre. rewrite <- Ht. cbn [segmentsText flat_map text].
  rewrite app_assoc, <- Hpre. reflexivity.
Qed.

End TextFacts.

Section CaptureFacts.
Import Transformer TransformerNotions.

Lemma getOwn_set {V} (k key : jsstring) (v : V) (o : Obj.t V) :
  Obj.getOwn k (Obj.set key v o) = if eqb_str key k then Some v else Obj.getOwn k o.
Proof.
  induction o as [|[k0 v0] o IH]; cbn [Obj.set Obj.getOwn]; [reflexivity|].
  destruct (eqb_str k0 key) eqn:E; cbn [Obj.getOwn].
  - apply eqb_str_eq in E. subst k0. now destruct (eqb_str key k).
  - rewrite IH. destruct (eqb_str k0 k) eqn:F; [|reflexivity].
    apply eqb_str_eq in F. subst k0.
    assert (G : eqb_str key k = false).
    { apply eqb_str_neq. apply eqb_str_neq in E. congruence. }
    now rewrite G.
Qed.

Lemma find_over_app {A} (f : A -> bool) (l l' : list A) :
  find f (l ++ l') = match find f l with Some x => Some x | None => find f l' end.
Proof.
  induction l as [|x l IH]; [reflexivity|]. cbn [app find].
  now destruct (f x).
Qed.

Lemma recorded_nil (c : Captures) : recorded c c [].
Proof. split; [now rewrite app_nil_r | reflexivity]. Qed.

Lemma recorded_step (c0 c : Captures) (new : list FullContextItem) (item : ResponseItem) :
  recorded c0 c new -> recorded c0 (captureItem c item) (new ++ captureOf item).
Proof.
  intros (Hc & Hm). unfold captureItem, captureOf.
  destruct (item_data item) as [| | | |repoPath filename content];
    try (rewrite app_nil_r; now split).
  destruct (eqb_str (item_type item) (lit "file_contents"));
    [|rewrite app_nil_r; now split].
  split; cbn [captured fileContentMap].
  - now rewrite Hc, <- app_assoc.
  - intro path. rewrite getOwn_set. unfold lastCapture.
    rewrite rev_app_distr. cbn [rev app find file_name file_text].
    match goal with |- context [if ?b then _ else _] => destruct b end;
      [reflexivity|].
    apply Hm.
Qed.

Lemma recorded_items (items : list ResponseItem) :
  forall c0 c new,
    recorded c0 c new ->
    recorded c0 (fold_left captureItem items c) (new ++ flat_map captureOf items).
Proof.
  induction items as [|item items IH]; intros c0 c new H; cbn [fold_left flat_map].
  - now rewrite app_nil_r.
  - rewrite app_assoc. apply IH. now apply recorded_step.
Qed.

Lemma recorded_queries (queries : list ApiQuery) :
  forall c0 c new,
    recorded c0 c new ->
    recorded c0
      (fold_left (fun c query => fold_left captureItem (response query) c) queries c)
      (new ++ capturesOf queries).
Proof.
  induction queries as [|q queries IH]; intros c0 c new H; cbn [fold_left].
  - unfold capturesOf. cbn. now rewrite app_nil_r.
  - unfold capturesOf. cbn [flat_map]. rewrite app_assoc. apply IH.
    now apply recorded_items.
Qed.

Lemma captureQueries_recorded (queries : list ApiQuery) :
  captured (captureQueries queries) = capturesOf queries
  /\ forall path,
       Obj.getOwn path (fileContentMap (captureQueries queries))
       = option_map (fun x => split nl (file_text x)) (lastCapture path (capturesOf queries)).
Proof.
  destruct (recorded_queries queries _ _ _
              (recorded_nil {| captured := []; fileContentMap := [] |})) as (Hc & Hm).
  split; [exact Hc|].
  intro path. unfold captureQueries. rewrite Hm. cbn [app].
  now destruct (lastCapture path (capturesOf queries)).
Qed.

(** The excerpt of a reference: lines [range_start] to [range_end + 1],
    counted from 1 and kept within the file. *)
Lemma referenceMaterial_lines (files : Obj.t (list jsstring)) (path : jsstring)
    (ref : Reference) (fileLines : list jsstring) :
  Obj.getOwn path files = Some fileLines ->
  referenceMaterial files path ref
  = join [nl]
      (linesFromTo (Z.max 1 (range_start ref))
         (Z.min (Z.of_nat (length fileLines)) (range_end ref + 1)) fileLines).
Proof.
  intro G. unfold referenceMaterial, linesFromTo. rewrite G.
  set (n := Z.of_nat (length fileLines)).
  set (s := range_start ref). set (e := range_end ref).
  destruct (Z.max 0 (s - 1) <=? Z.min (n - 1) e)%Z eqn:C.
  - apply Z.leb_le in C. unfold slice. fold n.
    replace (Z.max 0 (s - 1) <? 0)%Z with false by (symmetry; apply Z.ltb_ge; lia).
    replace (Z.min (n - 1) e + 1 <? 0)%Z with false by (symmetry; apply Z.ltb_ge; lia).
    f_equal. f_equal; [f_equal; lia | f_equal; f_equal; lia].
  - apply Z.leb_gt in C.
    replace (Z.to_nat (Z.min n (e + 1) + 1 - Z.max 1 s)) with 0 by lia.
    reflexivity.
Qed.

End CaptureFacts.

Section AssemblerExtras.
Import Transformer Automator TransformerNotions Examples.

(** X8.  The assembler keeps the text of the answer: the conversation
    has one entry per turn, in order, under the turn's question; the
    texts of the segments of a turn, put together, are the texts of its
    chunks put together - for the first turn up to a beginning that the
    removal of the preamble may cut off - and this is the same text that
    the extraction of the automator reads for the turn. *)
Theorem answer_text_is_kept (input : InputResponse) (out : OutputResponse) :
  transformResponse input = Ok out ->
  Forall2
    (fun query cq =>
       cq_user_query cq = user_query query
       /\ exists pre, textOf (response query) = pre ++ segmentsText (answer_segments cq))
    (queriesOf (rawResponse input)) (conversation out)
  /\ Forall2
       (fun query cq => segmentsText (answer_segments cq) = textOf (response query))
       (tl (queriesOf (rawResponse input))) (tl (conversation out))
  /\ forall query refs stats,
       queryAnswer
         (fold_left extractItem (response query)
            {| queryAnswer := []; allReferences := refs; allStats := stats |})
       = textOf (response query).
Proof.
  intro H. unfold transformResponse in H.
  destruct (queriesOf (rawResponse input)) as [|q0 qs] eqn:Q; [discriminate|].
  destruct (assembleQueries (q0 :: qs)) as [conv|e] eqn:A; cbn [bind] in H; [|discriminate].
  destruct (resolveReferences _ _ _) as [files|e]; cbn [bind] in H; [|discriminate].
  inversion H; subst. cbn [conversation].
  destruct (filterPreamble_keeps_text _ _ (assembleQueries_keep_text _ _ A)) as (F1 & F2).
  split; [exact F1|]. split; [exact F2|].
  intros query refs stats. now rewrite extractItems_text.
Qed.

Lemma answer_text_is_kept_witness :
  Forall2
    (fun query cq =>
       cq_user_query cq = user_query query
       /\ exists pre, textOf (response query) = pre ++ segmentsText (answer_segments cq))
    (queriesOf (rawResponse (lookingAt (lit "q1") (lit "why") [] [])))
    [{| cq_user_query := lit "why";
        answer_segments :=
          [{| text := lit "Looking at "; reference := Some (lit "a/b: x.py:10-12") |};
           {| text := lit " next."; reference := None |}] |}].
Proof.
  apply (proj1 (answer_text_is_kept (lookingAt (lit "q1") (lit "why") [] [])
           {| query_id := lit "q1";
              conversation :=
                [{| cq_user_query := lit "why";
                    answer_segments :=
                      [{| text := lit "Looking at ";
                          reference := Some (lit "a/b: x.py:10-12") |};
                       {| text := lit " next."; reference := None |}] |}];
              out_repo_context_ids := [];
              referenced_files :=
                [(lit "a/b/x.py",
                  [{| reference_range := lit "10-12"; reference_material := [] |}])];
              full_context := [{| file_name := lit "a/b/x.py"; file_text := [] |}] |}
           eq_refl)).
Defined.

(** X9.  The captures of all turns are handed on in order, repeated
    captures of a file included, while the excerpt of every entry of the
    referenced files is cut from the last capture of its file: lines
    [range_start] to [range_end + 1], counted from 1 and kept within the
    file, and the empty text when the file was never captured. *)
Theorem excerpts_come_from_last_capture (input : InputResponse) (out : OutputResponse) :
  transformResponse input = Ok out ->
  full_context out = capturesOf (queriesOf (rawResponse input))
  /\ forall path entries entry,
       In (path, entries) (referenced_files out) -> In entry entries ->
       exists ref,
         In ref (references input) /\ degenerate ref = false /\ referenceKey ref = path
         /\ reference_range entry
            = showZ (range_start ref) ++ [hyphen] ++ showZ (range_end ref)
         /\ reference_material entry
            = match lastCapture path (capturesOf (queriesOf (rawResponse input))) with
              | Some capture =>
                  join [nl]
                    (linesFromTo (Z.max 1 (range_start ref))
                       (Z.min (Z.of_nat (length (split nl (file_text capture))))
                          (range_end ref + 1))
                       (split nl (file_text capture)))
              | None => []
              end.
Proof.
  intro H. unfold transformResponse in H.
  destruct (queriesOf (rawResponse input)) as [|q0 qs] eqn:Q; [discriminate|].
  destruct (assembleQueries (q0 :: qs)) as [conv|e]; cbn [bind] in H; [|discriminate].
  destruct (resolveReferences _ _ _) as [files|e] eqn:R; cbn [bind] in H; [|discriminate].
  inversion H; subst. cbn [full_context referenced_files].
  destruct (captureQueries_recorded (q0 :: qs)) as (Hc & Hm).
  split; [exact Hc|].
  intros path entries entry Hin He.
  destruct (resolveReferences_provenance _ _ _ _ R path entries Hin) as (_ & P).
  destruct (P entry He) as [(x & [] & _) | (ref & Hr & Hd & Hk & Hrange & Hmat)].
  exists ref. repeat split; try assumption.
  rewrite Hmat.
  destruct (lastCapture path (capturesOf (q0 :: qs))) as [capture|] eqn:L.
  - apply referenceMaterial_lines. rewrite Hm, L. reflexivity.
  - unfold referenceMaterial. rewrite Hm, L. reflexivity.
Qed.

Lemma excerpts_come_from_last_capture_witness :
  full_context
    {| query_id := lit "q1";
       conversation :=
         [{| cq_user_query := lit "why";
             answer_segments :=
               [{| text := lit "Looking at "; reference := Some (lit "a/b: x.py:10-12") |};
                {| text := lit " next."; reference := None |}] |}];
       out_repo_context_ids := [];
       referenced_files :=
         [(lit "a/b/x.py", [{| reference_range := lit "10-12"; reference_material := [] |}])];
       full_context := [{| file_name := lit "a/b/x.py"; file_text := [] |}] |}
  = capturesOf (queriesOf (rawResponse (lookingAt (lit "q1") (lit "why") [] []))).
Proof.
  apply (proj1 (excerpts_come_from_last_capture (lookingAt (lit "q1") (lit "why") [] [])
           _ eq_refl)).
Defined.

End AssemblerExtras.


(** ** From the extraction of the automator to the assembler *)

Section ExtractionFacts.
Import Transformer Automator TransformerNotions.





End ExtractionFacts.

Section PipelineExtras.
Import Transformer Automator TransformerNotions Automation Handlers Examples.



End PipelineExtras.


(** ** The query id in the address of the answer tab *)

Section UrlFacts.
Import Regex Automation.

(** A greedy class followed by the end of the input: the class has to
    take everything. *)
Lemma star_to_end (p : N -> bool) (s : jsstring) :
  forall i (k : nat -> jsstring -> option found),
    (forall j c t, k j (c :: t) = None) ->
    star p i s k = if forallb p s then k (i + length s) [] else None.
Proof.
  induction s as [|c s IH]; intros i k Hk; cbn [star forallb length].
  - now rewrite Nat.add_0_r.
  - destruct (p c); cbn [andb].
    + rewrite (IH (S i) k Hk), Hk.
      replace (S i + length s) with (i + S (length s)) by lia.
      now destruct (forallb p s); [destruct (k _ _)|].
    + apply Hk.
Qed.

Lemma matchAt_searchUrl (i : nat) (s : jsstring) :
  matchAt searchUrlPattern i s
  = if startsWith (lit "search/") s then
      match skipn 7 s with
      | c :: rest =>
          if forallb (excluding slash) (c :: rest)
          then Some (i + length s, [c :: rest])
          else None
      | [] => None
      end
    else None.
Proof.
  unfold matchAt, searchUrlPattern. cbn [run].
  destruct (startsWith (lit "search/") s) eqn:E; [|reflexivity].
  apply startsWith_split in E. destruct E as (t & ->).
  change (length (lit "search/")) with 7.
  change (skipn 7 (lit "search/" ++ t)) with t.
  destruct t as [|c rest]; [reflexivity|].
  cbn [forallb]. destruct (excluding slash c); cbn [andb]; [|reflexivity].
  rewrite star_to_end by (intros; reflexivity).
  destruct (forallb (excluding slash) rest); [|reflexivity].
  cbn [app]. f_equal. f_equal.
  - rewrite length_app. change (length (lit "search/")) with 7. cbn [length]. lia.
  - replace (S (i + 7) + length rest - (i + 7)) with (S (length rest)) by lia.
    f_equal. cbn [firstn]. f_equal. apply firstn_all.
Qed.

Lemma excluding_forallb (c : N) (s : jsstring) :
  forallb (excluding c) s = true <-> Forall (fun x => x <> c) s.
Proof.
  rewrite forallb_forall, Forall_forall.
  split; intros H x Hx; specialize (H x Hx); unfold excluding in *.
  - apply negb_true_iff, N.eqb_neq in H. congruence.
  - apply negb_true_iff, N.eqb_neq. congruence.
Qed.

Lemma execFrom_searchUrl (s : jsstring) :
  forall i b e cs,
    execFrom searchUrlPattern i s = Some (b, e, cs) ->
    exists base id,
      s = base ++ lit "search/" ++ id /\ cs = [id]
      /\ id <> [] /\ Forall (fun x => x <> slash) id.
Proof.
  induction s as [|c s IH]; intros i b e cs H; cbn [execFrom] in H.
  - rewrite matchAt_searchUrl in H. cbn in H. discriminate.
  - rewrite matchAt_searchUrl in H.
    destruct (startsWith (lit "search/") (c :: s)) eqn:E.
    + apply startsWith_split in E. destruct E as (t & E). rewrite E in H.
      change (skipn 7 (lit "search/" ++ t)) with t in H.
      destruct t as [|x rest].
      * cbv beta iota in H. destruct (IH _ _ _ _ H) as (base & id & -> & R).
        exists (c :: base), id. now split.
      * cbv beta iota in H.
        destruct (forallb (excluding slash) (x :: rest)) eqn:F.
        -- inversion H; subst. exists [], (x :: rest).
           repeat split; [exact E | discriminate | now apply excluding_forallb].
        -- destruct (IH _ _ _ _ H) as (base & id & -> & R).
           exists (c :: base), id. now split.
    + destruct (IH _ _ _ _ H) as (base & id & -> & R).
      exists (c :: base), id. now split.
Qed.

Lemma extractQueryId_some (url id : jsstring) :
  extractQueryId url = Some id ->
  id <> [] /\ Forall (fun x => x <> slash) id
  /\ exists base, url = base ++ lit "search/" ++ id.
Proof.
  unfold extractQueryId, match_.
  destruct (execFrom searchUrlPattern 0 url) as [[[b e] cs]|] eqn:E; [|discriminate].
  destruct (execFrom_searchUrl _ _ _ _ _ E) as (base & id' & -> & -> & Hn & Hs).
  intro H. inversion H; subst. repeat split; try assumption. now exists base.
Qed.

Lemma skipn_slash (base id : jsstring) :
  base <> [] ->
  forallb (excluding slash) (skipn 7 (base ++ lit "search/" ++ id)) = false.
Proof.
  intro Hb.
  destruct (forallb (excluding slash) (skipn 7 (base ++ lit "search/" ++ id))) eqn:F;
    [|reflexivity].
  apply excluding_forallb in F. rewrite Forall_forall in F.
  exfalso. apply (F slash); [|reflexivity].
  change (lit "search/" ++ id) with (lit "search" ++ slash :: id).
  rewrite app_assoc, skipn_app.
  apply in_or_app. right.
  replace (7 - length (base ++ lit "search")) with 0.
  - now left.
  - rewrite length_app. change (length (lit "search")) with 6.
    destruct base; [congruence|]. cbn [length]. lia.
Qed.

Lemma execFrom_searchUrl_found (base id : jsstring) :
  id <> [] -> Forall (fun x => x <> slash) id ->
  forall i, exists b e,
    execFrom searchUrlPattern i (base ++ lit "search/" ++ id) = Some (b, e, [id]).
Proof.
  intros Hn Hs. induction base as [|c base IH]; intro i.
  - cbn [app]. destruct id as [|x rest]; [congruence|].
    assert (M : matchAt searchUrlPattern i (lit "search/" ++ x :: rest)
                = Some (i + length (lit "search/" ++ x :: rest), [x :: rest])).
    { rewrite matchAt_searchUrl, startsWith_app.
      change (skipn 7 (lit "search/" ++ x :: rest)) with (x :: rest).
      cbv beta iota. apply excluding_forallb in Hs. now rewrite Hs. }
    change (lit "search/" ++ x :: rest) with (115%N :: lit "earch/" ++ x :: rest) in *.
    cbn [execFrom]. rewrite M. eauto.
  - cbn [app execFrom].
    assert (M : matchAt searchUrlPattern i (c :: base ++ lit "search/" ++ id) = None).
    { rewrite matchAt_searchUrl.
      destruct (startsWith (lit "search/") (c :: base ++ lit "search/" ++ id));
        [|reflexivity].
      pose proof (skipn_slash (c :: base) id ltac:(discriminate)) as F.
      cbn [app] in F.
      destruct (skipn 7 (c :: base ++ lit "search/" ++ id)); [reflexivity|].
      now rewrite F. }
    rewrite M. apply IH.
Qed.

Lemma extractQueryId_found (base id : jsstring) :
  id <> [] -> Forall (fun x => x <> slash) id ->
  extractQueryId (base ++ lit "search/" ++ id) = Some id.
Proof.
  intros Hn Hs. unfold extractQueryId, match_.
  destruct (execFrom_searchUrl_found base id Hn Hs 0) as (b & e & ->). reflexivity.
Qed.

Lemma queryIdForm_no_slash (id : jsstring) :
  Spec.queryIdForm id -> id <> [] /\ Forall (fun x => x <> slash) id.
Proof.
  intros (Hn & Hf). split; [assumption|].
  eapply Forall_impl; [|exact Hf].
  intros c [H | [-> | ->]]; [|discriminate|discriminate].
  intros ->. discriminate.
Qed.

End UrlFacts.

Section UrlExtras.
Import Regex Automation.

(** X11.  The query id is read off the address of the answer tab as
    what follows the last [search/]: an address gives the id [id] exactly
    when it ends in [search/id] with [id] not empty and free of slashes.
    In particular the address built for a query id gives that id back. *)
Theorem query_id_of_address (url id : jsstring) :
  (extractQueryId url = Some id <->
   id <> [] /\ Forall (fun x => x <> slash) id
   /\ exists base, url = base ++ lit "search/" ++ id)
  /\ (Spec.queryIdForm id -> extractQueryId (constructQueryUrl id) = Some id).
Proof.
  split; [split|].
  - apply extractQueryId_some.
  - intros (Hn & Hs & base & ->). now apply extractQueryId_found.
  - intro H. destruct (queryIdForm_no_slash id H) as (Hn & Hs).
    unfold constructQueryUrl.
    change (lit "https://deepwiki.com/search/" ++ id)
      with (lit "https://deepwiki.com/" ++ lit "search/" ++ id).
    now apply extractQueryId_found.
Qed.

Lemma query_id_of_address_witness :
  extractQueryId (constructQueryUrl (lit "how-it-works_03d17174")) = Some (lit "how-it-works_03d17174").
Proof.
  apply (proj2 (query_id_of_address [] (lit "how-it-works_03d17174"))).
  split; [discriminate|].
  repeat (constructor; [vm_compute; tauto|]). constructor.
Defined.

End UrlExtras.


(** ** The automator's entry points and the request handlers *)

Section AutomationFacts.
Import Transformer Automator Automation.

Lemma guarded_ok (typeErrorMessage : jsstring) (body : result AutomationResult)
    (cleanup : result unit) (r : AutomationResult) :
  guarded typeErrorMessage body cleanup = Ok r ->
  cleanup = Ok tt
  /\ (body = Ok r \/ exists e, body = Throw e /\ r = failed typeErrorMessage e).
Proof.
  unfold guarded. destruct cleanup as [[]|e]; cbn [bind]; [|discriminate].
  intro H. inversion H; subst. split; [reflexivity|].
  destruct body as [r|e]; [now left | right; now exists e].
Qed.


Lemma askQuestion_success (typeErrorMessage : jsstring) (newUrl : result jsstring)
    (settle : result unit) (poll : jsstring -> bool -> result ApiData)
    (cleanup : result unit) (deep : bool) (r : AutomationResult) :
  askQuestion typeErrorMessage newUrl settle poll cleanup deep = Ok r ->
  r_success r = true ->
  exists base id data,
    newUrl = Ok (base ++ lit "search/" ++ id)
    /\ id <> [] /\ Forall (fun x => x <> slash) id
    /\ settle = Ok tt
    /\ poll id deep = Ok data
    /\ r = succeeded id data.
Proof.
  unfold askQuestion. intros H S.
  apply guarded_ok in H. destruct H as (_ & [B | (e & _ & ->)]); [|discriminate].
  destruct newUrl as [url|e]; cbn [bind] in B; [|discriminate].
  destruct (extractQueryId url) as [id|] eqn:E; [|discriminate].
  destruct (Validation.truthy id); [|discriminate].
  destruct settle as [[]|e]; cbn [bind] in B; [|discriminate].
  destruct (poll id deep) as [data|e] eqn:P; cbn [bind] in B; [|discriminate].
  inversion B; subst.
  destruct (extractQueryId_some url id E) as (Hn & Hs & base & ->).
  exists base, id, data. repeat split; assumption.
Qed.


End AutomationFacts.

Section HandlerFacts.
Import Transformer Automation Handlers.

Lemma orEmpty_truthy (o : option jsstring) :
  Validation.truthy (orEmpty o) = true -> o = Some (orEmpty o).
Proof. destruct o as [s|]; [reflexivity | discriminate]. Qed.

Lemma transformResponse_query_id (input : InputResponse) (out : OutputResponse) :
  transformResponse input = Ok out -> query_id out = queryId input.
Proof.
  unfold transformResponse.
  destruct (queriesOf (rawResponse input)); [discriminate|].
  destruct (assembleQueries _); cbn [bind]; [|discriminate].
  destruct (resolveReferences _ _ _); cbn [bind]; [|discriminate].
  intro H. now inversion H.
Qed.

Lemma handleNewQuestion_caches (world : forall X, call X -> X)
    (repo question : jsstring) (deep : bool) (out : OutputResponse) (id : jsstring) :
  snd (exec world (handleNewQuestion repo question deep)) = Ok (out, id) ->
  cacheWrites (fst (exec world (handleNewQuestion repo question deep)))
  = [(lit "question", id, out, repo)].
Proof.
  unfold handleNewQuestion. cbn [pbind await exec].
  destruct (world _ (AskQuestion repo question deep)) as [r|e];
    cbn [liftResult pbind exec fst snd]; [|discriminate].
  destruct (r_success r); cbn [negb exec fst snd]; [|discriminate].
  destruct (transformResponse _) as [t|e]; cbn [liftResult pbind exec fst snd];
    [|discriminate].
  destruct (Validation.truthy (orEmpty (r_queryId r)));
    cbn [pbind await exec];
    match goal with |- context [world _ ?c] => destruct (world _ c) as [[]|e] end;
    cbn [liftResult pbind exec fst snd]; try discriminate;
    intro H; inversion H; subst; reflexivity.
Qed.

Lemma handleFollowUpRequest_caches (world : forall X, call X -> X)
    (paramQueryId followUp : jsstring) (deep : bool) (repo : jsstring)
    (out : OutputResponse) (id : jsstring) :
  snd (exec world (handleFollowUpRequest paramQueryId followUp deep repo)) = Ok (out, id) ->
  id = paramQueryId
  /\ cacheWrites (fst (exec world (handleFollowUpRequest paramQueryId followUp deep repo)))
     = [(lit "question", id, out, repo)].
Proof.
  unfold handleFollowUpRequest. cbn [pbind await exec].
  destruct (world _ (SendFollowUp paramQueryId followUp deep)) as [r|e];
    cbn [liftResult pbind exec fst snd]; [|discriminate].
  destruct (r_success r); cbn [negb exec fst snd]; [|discriminate].
  destruct (transformResponse _) as [t|e]; cbn [liftResult pbind await exec fst snd];
    [|discriminate].
  match goal with |- context [world _ ?c] => destruct (world _ c) as [[]|e] end;
    cbn [liftResult pbind exec fst snd]; try discriminate.
  intro H; inversion H; subst. split; reflexivity.
Qed.

Lemma handleGoDeeperRequest_caches (world : forall X, call X -> X)
    (paramQueryId : jsstring) (out : OutputResponse) (id : jsstring) :
  snd (exec world (handleGoDeeperRequest paramQueryId)) = Ok (out, id) ->
  cacheWrites (fst (exec world (handleGoDeeperRequest paramQueryId)))
  = if Validation.truthy id
    then [(lit "question", id, out, hd [] (split 95 id))]
    else [].
Proof.
  unfold handleGoDeeperRequest. cbn [pbind await exec].
  destruct (world _ (GoDeeper paramQueryId)) as [r|e];
    cbn [liftResult pbind exec fst snd]; [|discriminate].
  destruct (r_success r); cbn [negb exec fst snd]; [|discriminate].
  destruct (transformResponse _) as [t|e]; cbn [liftResult pbind exec fst snd];
    [|discriminate].
  destruct (Validation.truthy (orEmpty (r_queryId r))) eqn:T;
    cbn [pbind await exec].
  + match goal with |- context [world _ ?c] => destruct (world _ c) as [[]|e] end;
      cbn [liftResult pbind exec fst snd]; try discriminate.
    intro H; inversion H; subst. rewrite T. reflexivity.
  + cbn [fst snd]. intro H; inversion H; subst. rewrite T. reflexivity.
Qed.

End HandlerFacts.

Section CacheNameFacts.
Import Validation.

Variable md5hex : jsstring -> jsstring.

Lemma questionFileName (identifier : jsstring) :
  Cache.getCacheFileName md5hex (lit "question") identifier
  = if includes (lit "-") identifier && Nat.ltb 30 (length identifier)
    then lit "query-" ++ Cache.sanitize identifier ++ lit ".json"
    else lit "question" ++ lit "_" ++ md5hex identifier ++ lit ".json".
Proof.
  unfold Cache.getCacheFileName.
  replace (eqb_str (lit "question") (lit "question")) with true by reflexivity.
  replace (eqb_str (lit "question") (lit "wiki")) with false by reflexivity.
  reflexivity.
Qed.

(** Two identifiers of questions take the same file name when both are
    spelled out and agree after the replacement of the forbidden
    characters, or both are hashed and have the same digest. *)
Lemma questionFileName_same (a b : jsstring) :
  Cache.getCacheFileName md5hex (lit "question") a
  = Cache.getCacheFileName md5hex (lit "question") b
  <-> (includes (lit "-") a && Nat.ltb 30 (length a) = true
       /\ includes (lit "-") b && Nat.ltb 30 (length b) = true
       /\ Cache.sanitize a = Cache.sanitize b)
      \/ (includes (lit "-") a && Nat.ltb 30 (length a) = false
          /\ includes (lit "-") b && Nat.ltb 30 (length b) = false
          /\ md5hex a = md5hex b).
Proof.
  rewrite !questionFileName.
  destruct (includes (lit "-") a && Nat.ltb 30 (length a));
    destruct (includes (lit "-") b && Nat.ltb 30 (length b)); split.
  - intro H. left. apply app_inv_head in H. apply app_inv_tail in H. auto.
  - intros [(_ & _ & ->) | (D & _)]; [reflexivity | discriminate].
  - intro H. vm_compute (lit "query-") in H. vm_compute (lit "question") in H.
    cbn [app] in H. discriminate.
  - intros [(_ & D & _) | (D & _)]; discriminate.
  - intro H. vm_compute (lit "query-") in H. vm_compute (lit "question") in H.
    cbn [app] in H. discriminate.
  - intros [(D & _) | (_ & D & _)]; discriminate.
  - intro H. right. rewrite !app_assoc in H. apply app_inv_tail in H.
    apply app_inv_head in H. auto.
  - intros [(D & _) | (_ & _ & ->)]; [discriminate | reflexivity].
Qed.

(** Under a repository, a lookup reaches the file written for another
    identifier only through the folder of the repository. *)
Lemma lookup_reaches_write (identifier key repo : jsstring) :
  truthy repo = true ->
  In (Cache.writePath md5hex (lit "question") identifier repo)
     (Cache.readPaths md5hex (lit "question") key repo)
  <-> Cache.getCacheFileName md5hex (lit "question") identifier
      = Cache.getCacheFileName md5hex (lit "question") key.
Proof.
  intro T. unfold Cache.writePath, Cache.readPaths. rewrite T. cbn [app]. split.
  - intros [E | [E | [E | []]]]; [|discriminate E|discriminate E].
    now inversion E.
  - intros ->. now left.
Qed.

End CacheNameFacts.

Section HandlerExtras.
Import Transformer Automator Automation Handlers.



(** X13.  A handler that returns has written the response to the cache
    exactly once, under the identifier it returns: in the folder of the
    repository for a new question and for a follow-up (which keeps the
    identifier it was given); for Go Deeper in a folder named by the part
    of the new identifier before its first underscore, and not at all
    when the result carries no identifier. *)
Theorem handlers_cache_what_they_return (world : forall X, call X -> X) :
  (forall repo question deep out id,
     snd (exec world (handleNewQuestion repo question deep)) = Ok (out, id) ->
     cacheWrites (fst (exec world (handleNewQuestion repo question deep)))
     = [(lit "question", id, out, repo)])
  /\ (forall paramQueryId followUp deep repo out id,
        snd (exec world (handleFollowUpRequest paramQueryId followUp deep repo))
        = Ok (out, id) ->
        id = paramQueryId
        /\ cacheWrites
             (fst (exec world (handleFollowUpRequest paramQueryId followUp deep repo)))
           = [(lit "question", id, out, repo)])
  /\ (forall paramQueryId out id,
        snd (exec world (handleGoDeeperRequest paramQueryId)) = Ok (out, id) ->
        cacheWrites (fst (exec world (handleGoDeeperRequest paramQueryId)))
        = if Validation.truthy id
          then [(lit "question", id, out, hd [] (split 95 id))]
          else []).
Proof.
  split; [|split].
  - intros. now apply handleNewQuestion_caches.
  - intros. now apply handleFollowUpRequest_caches.
  - intros. now apply handleGoDeeperRequest_caches.
Qed.

Lemma handlers_cache_what_they_return_witness :
  cacheWrites
    (fst (exec Cases.answeringWorld (handleNewQuestion (lit "o/r") (lit "why") false)))
  = [(lit "question", lit "abc_1", Cases.doneOutput, lit "o/r")].
Proof.
  apply (proj1 (handlers_cache_what_they_return Cases.answeringWorld)
           (lit "o/r") (lit "why") false Cases.doneOutput (lit "abc_1")).
  reflexivity.
Defined.

(** X14.  A handler that fails leaves the cache alone, unless the write
    to the cache is itself what failed; a failed result of the automator
    becomes an error that quotes its message, before the clock or the
    cache are touched. *)
Theorem failed_handlers_cache_nothing (world : forall X, call X -> X)
    (repo question : jsstring) (deep : bool) (e : exn) :
  snd (exec world (handleNewQuestion repo question deep)) = Throw e ->
  (cacheWrites (fst (exec world (handleNewQuestion repo question deep))) = []
   \/ exists identifier data,
        cacheWrites (fst (exec world (handleNewQuestion repo question deep)))
        = [(lit "question", identifier, data, repo)]
        /\ world _ (CacheSetJSON (lit "question") identifier data repo) = Throw e)
  /\ forall r,
       world _ (AskQuestion repo question deep) = Ok r -> r_success r = false ->
       e = Error (lit "Failed to get answer: " ++ errorText r)
       /\ length (fst (exec world (handleNewQuestion repo question deep))) = 1.
Proof.
  unfold handleNewQuestion. cbn [pbind await exec].
  destruct (world _ (AskQuestion repo question deep)) as [r|e0] eqn:W;
    cbn [liftResult pbind exec fst snd].
  2:{ intro H. split; [now left|]. discriminate. }
  destruct (r_success r) eqn:S; cbn [negb exec fst snd].
  2:{ intro H. inversion H; subst. split; [now left|].
      intros r0 Hr _. inversion Hr; subst. split; reflexivity. }
  destruct (transformResponse _) as [t|e0]; cbn [liftResult pbind exec fst snd].
  2:{ intro H. split; [now left|]. intros r0 Hr Hs. inversion Hr; subst. congruence. }
  destruct (Validation.truthy (orEmpty (r_queryId r))); cbn [pbind await exec];
    match goal with |- context [world _ ?c] => destruct (world _ c) as [[]|e0] eqn:C end;
    cbn [liftResult pbind exec fst snd]; try discriminate;
    intro H; inversion H; subst;
    (split; [right; eexists; eexists; split; [reflexivity | exact C]
            | intros r0 Hr Hs; inversion Hr; subst; congruence]).
Qed.

Lemma failed_handlers_cache_nothing_witness :
  Error (lit "Failed to get answer: no browser")
  = Error (lit "Failed to get answer: "
           ++ errorText (failed [] (Error (lit "no browser"))))
  /\ length (fst (exec Cases.failingWorld (handleNewQuestion (lit "o/r") (lit "why") false)))
     = 1.
Proof.
  apply (proj2 (failed_handlers_cache_nothing Cases.failingWorld (lit "o/r") (lit "why")
                  false (Error (lit "Failed to get answer: no browser")) eq_refl)
           (failed [] (Error (lit "no browser"))) eq_refl eq_refl).
Defined.

End HandlerExtras.


(** ** From the citation of a segment to the excerpt of its file *)

Section CodeUnitFacts.

(** A property of the code units below 128 that a computation checks. *)
Lemma small_check (f : N -> bool) :
  forallb f (map N.of_nat (seq 0 128)) = true ->
  forall c, (c < 128)%N -> f c = true.
Proof.
  intros H c Hc. rewrite forallb_forall in H. apply H.
  rewrite <- (N2Nat.id c). apply in_map. apply in_seq. lia.
Qed.

Lemma alnum_small (c : N) : is_alnum c = true -> (c < 128)%N.
Proof.
  unfold is_alnum, is_lower, is_upper, is_digit.
  rewrite !orb_true_iff, !andb_true_iff, !N.leb_le. lia.
Qed.

Lemma alnum_plain (c : N) :
  is_alnum c = true -> is_space c = false /\ c <> colon /\ c <> slash.
Proof.
  intro H.
  pose proof (small_check
                (fun c => implb (is_alnum c)
                            (negb (is_space c) && negb (N.eqb c colon)
                             && negb (N.eqb c slash)))
                eq_refl c (alnum_small c H)) as P.
  cbv beta in P. rewrite H in P. cbn [implb] in P.
  apply andb_true_iff in P. destruct P as (P & P3).
  apply andb_true_iff in P. destruct P as (P1 & P2).
  apply negb_true_iff in P1, P2, P3. apply N.eqb_neq in P2, P3. auto.
Qed.

Lemma digits_are_digits (u : Decimal.uint) :
  Forall (fun c => is_digit c = true) (digits u).
Proof. induction u; cbn [digits]; constructor; auto. Qed.

Lemma showZ_plain (z : Z) :
  Forall (fun c => is_space c = false /\ c <> colon) (showZ z).
Proof.
  assert (D : forall n, Forall (fun c => is_space c = false /\ c <> colon) (showN n)).
  { intro n. unfold showN. eapply Forall_impl; [|apply digits_are_digits].
    intros c H. assert (A : is_alnum c = true) by (unfold is_alnum; now rewrite H, !orb_true_r).
    destruct (alnum_plain c A) as (S & C & _). now split. }
  unfold showZ. destruct (z <? 0)%Z; [|apply D].
  constructor; [split; [reflexivity | discriminate] | apply D].
Qed.

End CodeUnitFacts.

Section TrimFacts.

Lemma trimEnd_app_nospace (x r : jsstring) :
  r <> [] -> Forall (fun c => is_space c = false) r -> trimEnd (x ++ r) = x ++ r.
Proof.
  intros Hn Hf. unfold trimEnd. rewrite rev_app_distr.
  destruct (rev r) as [|c t] eqn:E.
  - apply (f_equal (@rev N)) in E. rewrite rev_involutive in E. now destruct Hn.
  - assert (Hc : is_space c = false).
    { rewrite Forall_forall in Hf. apply Hf. apply in_rev. rewrite E. now left. }
    cbn [app dropWhile]. rewrite Hc.
    change (c :: t ++ rev x) with ((c :: t) ++ rev x).
    rewrite <- E, <- rev_app_distr. apply rev_involutive.
Qed.

Lemma trim_nospace (r : jsstring) : Forall (fun c => is_space c = false) r -> trim r = r.
Proof.
  intro Hf. destruct r as [|c r]; [reflexivity|].
  unfold trim, trimStart. inversion Hf; subst.
  rewrite dropWhile_id by assumption.
  apply (trimEnd_app_nospace [] (c :: r)); [discriminate | assumption].
Qed.

Lemma trimEnd_length (s : jsstring) : length (trimEnd s) <= length s.
Proof.
  unfold trimEnd. rewrite length_rev.
  pose proof (dropWhile_length is_space (rev s)) as H. now rewrite length_rev in H.
Qed.

Lemma trimStart_of_trim (s : jsstring) : trim s = s -> trimStart s = s.
Proof.
  intro H. unfold trim in H.
  destruct (dropWhile_suffix is_space s) as (pre & Hpre). fold (trimStart s) in Hpre.
  pose proof (trimEnd_length (trimStart s)) as L. rewrite H in L.
  assert (P : length s = length pre + length (trimStart s)).
  { rewrite Hpre at 1. apply length_app. }
  destruct pre as [|c pre]; [now symmetry|]. cbn [length] in P. lia.
Qed.

End TrimFacts.

Section ColonFacts.

Lemma indexOf_first (c : N) (a b : jsstring) :
  Forall (fun x => x <> c) a -> indexOf [c] (a ++ c :: b) = Some (length a).
Proof.
  induction 1 as [|x a Hx Ha IH]; cbn [app indexOf startsWith length].
  - now rewrite N.eqb_refl.
  - assert (E : N.eqb c x = false) by (apply N.eqb_neq; congruence).
    rewrite E. cbn [andb]. cbn [app] in IH. now rewrite IH.
Qed.

Lemma lastIndexOf_absent (c : N) (b : jsstring) :
  Forall (fun x => x <> c) b -> lastIndexOf [c] b = None.
Proof.
  induction 1 as [|x b Hx Hb IH]; cbn [lastIndexOf startsWith]; [reflexivity|].
  rewrite IH. assert (E : N.eqb c x = false) by (apply N.eqb_neq; congruence).
  now rewrite E.
Qed.

Lemma lastIndexOf_last (c : N) (a b : jsstring) :
  Forall (fun x => x <> c) b -> lastIndexOf [c] (a ++ c :: b) = Some (length a).
Proof.
  intro Hb. induction a as [|x a IH]; cbn [app lastIndexOf length].
  - rewrite (lastIndexOf_absent c b Hb). cbn [startsWith]. now rewrite N.eqb_refl.
  - now rewrite IH.
Qed.

Lemma substring_prefix (a b : jsstring) : substring 0 (length a) (a ++ b) = a.
Proof.
  unfold substring. rewrite length_app.
  replace (Nat.min 0 (length a + length b)) with 0 by lia.
  replace (Nat.min (length a) (length a + length b)) with (length a) by lia.
  replace (Nat.max 0 (length a) - Nat.min 0 (length a)) with (length a) by lia.
  replace (Nat.min 0 (length a)) with 0 by lia.
  cbn [skipn]. rewrite firstn_app, Nat.sub_diag, firstn_all. cbn [firstn].
  apply app_nil_r.
Qed.

Lemma substringFrom_suffix (a b : jsstring) (c : N) :
  substringFrom (length a + 1) (a ++ c :: b) = b.
Proof.
  unfold substringFrom. rewrite skipn_app.
  rewrite skipn_all2 by lia.
  replace (length a + 1 - length a) with 1 by lia. reflexivity.
Qed.

End ColonFacts.

Section RoundTripFacts.
Import Transformer Markdown Spec RendererNotions.

Lemma segmentForm_plain (s : jsstring) :
  segmentForm s ->
  Forall (fun c => is_space c = false /\ c <> colon /\ c <> slash) s.
Proof.
  intros (_ & H & _). eapply Forall_impl; [|exact H].
  intros c [A | ->]; [now apply alnum_plain|].
  split; [reflexivity | split; discriminate].
Qed.

Lemma referenceString_slashes (owner repo file : jsstring) (s e : Z) :
  Forall (fun c => c <> slash) owner -> Forall (fun c => c <> slash) repo ->
  includes (lit "Repo ") (owner ++ [slash] ++ repo ++ [slash] ++ file) = false ->
  referenceString (owner ++ [slash] ++ repo ++ [slash] ++ file) s e
  = (owner ++ [slash] ++ repo) ++ lit ": " ++ file ++ rangeSuffix s e.
Proof.
  intros Ho Hr Hi. unfold referenceString. rewrite Hi.
  assert (P : split slash (owner ++ [slash] ++ repo ++ [slash] ++ file)
              = owner :: repo :: split slash file).
  { cbn [app]. rewrite (split_app slash owner _ Ho).
    now rewrite (split_app slash repo _ Hr). }
  rewrite P.
  pose proof (split_nonempty slash file) as Hn.
  pose proof (join_split slash file) as J.
  destruct (split slash file) as [|p ps]; [congruence|].
  cbn [length Nat.leb firstn skipn]. rewrite J. reflexivity.
Qed.

Lemma parseReference_printed (repoName file range : jsstring) :
  Forall (fun c => is_space c = false /\ c <> colon) repoName ->
  Forall (fun c => c <> colon) file -> trim file = file ->
  range <> [] -> Forall (fun c => is_space c = false /\ c <> colon) range ->
  parseReference (repoName ++ lit ": " ++ file ++ [colon] ++ range)
  = Some (repoName ++ [slash] ++ file, range).
Proof.
  intros Hr Hf Ht Hn Hg. unfold parseReference.
  assert (Rc : Forall (fun c => c <> colon) repoName)
    by (eapply Forall_impl; [|exact Hr]; now intros c (_ & H)).
  assert (Rs : Forall (fun c => is_space c = false) repoName)
    by (eapply Forall_impl; [|exact Hr]; now intros c (H & _)).
  assert (Gc : Forall (fun c => c <> colon) range)
    by (eapply Forall_impl; [|exact Hg]; now intros c (_ & H)).
  assert (Gs : Forall (fun c => is_space c = false) range)
    by (eapply Forall_impl; [|exact Hg]; now intros c (H & _)).
  change (repoName ++ lit ": " ++ file ++ [colon] ++ range)
    with (repoName ++ colon :: (32%N :: file ++ colon :: range)).
  rewrite (indexOf_first colon repoName _ Rc).
  rewrite substring_prefix, substringFrom_suffix, (trim_nospace repoName Rs).
  assert (T : trim (32%N :: file ++ colon :: range) = file ++ colon :: range).
  { unfold trim, trimStart. cbn [dropWhile].
    replace (is_space 32) with true by reflexivity.
    rewrite dropWhile_app. pose proof (trimStart_of_trim file Ht) as S.
    unfold trimStart in S. rewrite S.
    assert (D : match file with
                | [] => dropWhile is_space (colon :: range)
                | c :: r => (c :: r) ++ colon :: range
                end = file ++ colon :: range).
    { destruct file; [reflexivity | reflexivity]. }
    rewrite D.
    change (file ++ colon :: range) with (file ++ [colon] ++ range).
    rewrite app_assoc. apply trimEnd_app_nospace; assumption. }
  rewrite T, (lastIndexOf_last colon file range Gc).
  rewrite substring_prefix, substringFrom_suffix, Ht, (trim_nospace range Gs).
  reflexivity.
Qed.

Lemma fold_setAdd_members (l : list jsstring) :
  forall acc y,
    In y (fold_left (fun s ref => setAdd ref s) l acc) <-> In y acc \/ In y l.
Proof.
  induction l as [|x l IH]; intros acc y; cbn [fold_left].
  - cbn. tauto.
  - rewrite IH, setAdd_In. cbn [In]. intuition congruence.
Qed.

Lemma everyNumber_picks (unique : list jsstring) (y : jsstring) :
  In y unique <->
  exists n, In n (everyNumber (length unique)) /\ inBounds unique n = true
            /\ nth_error unique (Z.to_nat (n - 1)) = Some y.
Proof.
  split.
  - intro H. apply In_nth_error in H. destruct H as (i & Hi).
    assert (L : i < length unique) by (apply nth_error_Some; congruence).
    exists (Z.of_nat (S i)). split; [|split].
    + unfold everyNumber. apply in_map. apply in_seq. lia.
    + unfold inBounds. apply andb_true_iff. split; apply Z.leb_le; lia.
    + replace (Z.to_nat (Z.of_nat (S i) - 1)) with i by lia. exact Hi.
  - intros (n & _ & _ & H). eapply nth_error_In; eauto.
Qed.

End RoundTripFacts.

Section CitationExtras.
Import Transformer Markdown Spec RendererNotions Examples.

(** X16.  Assembler and renderer agree on how a citation is written:
    for a file of a repository that the validator accepts, the reference
    string that the assembler puts on a segment is parsed by the renderer
    into the very file key and line range under which the assembler
    stores the excerpt, so that a selection which includes the citation
    selects that excerpt. *)
Theorem citation_finds_its_excerpt (owner repo file : jsstring) (s e : Z) :
  repositoryPath owner repo file ->
  includes (lit "Repo ") (owner ++ [slash] ++ repo ++ [slash] ++ file) = false ->
  parseReference (referenceString (owner ++ [slash] ++ repo ++ [slash] ++ file) s e)
  = Some (referenceKey {| file_path := owner ++ [slash] ++ repo ++ [slash] ++ file;
                          range_start := s; range_end := e |},
          showZ s ++ [hyphen] ++ showZ e)
  /\ forall included,
       In (referenceString (owner ++ [slash] ++ repo ++ [slash] ++ file) s e) included ->
       covers (fileRangesMap included)
         (owner ++ [slash] ++ repo ++ [slash] ++ file) (showZ s ++ [hyphen] ++ showZ e).
Proof.
  intros (Ho & Hr & Hf & Ht) Hi.
  pose proof (segmentForm_plain owner Ho) as Po.
  pose proof (segmentForm_plain repo Hr) as Pr.
  assert (P : parseReference
                (referenceString (owner ++ [slash] ++ repo ++ [slash] ++ file) s e)
              = Some (owner ++ [slash] ++ repo ++ [slash] ++ file,
                      showZ s ++ [hyphen] ++ showZ e)).
  { rewrite referenceString_slashes; try assumption.
    2:{ eapply Forall_impl; [|exact Po]. now intros c (_ & _ & H). }
    2:{ eapply Forall_impl; [|exact Pr]. now intros c (_ & _ & H). }
    unfold rangeSuffix.
    rewrite (parseReference_printed (owner ++ [slash] ++ repo) file
               (showZ s ++ [hyphen] ++ showZ e)); try assumption.
    - now rewrite <- !app_assoc.
    - apply Forall_app. split.
      + eapply Forall_impl; [|exact Po]. now intros c (H1 & H2 & _).
      + constructor; [split; [reflexivity | discriminate]|].
        eapply Forall_impl; [|exact Pr]. now intros c (H1 & H2 & _).
    - destruct (showZ s); discriminate.
    - apply Forall_app. split; [apply showZ_plain|].
      constructor; [split; [reflexivity | discriminate] | apply showZ_plain]. }
  split.
  - rewrite P. unfold referenceKey. cbn [file_path]. now rewrite Hi.
  - intros included Hin. unfold fileRangesMap.
    apply fold_groupReference_covers. right. eauto.
Qed.

Lemma citation_finds_its_excerpt_witness :
  parseReference (referenceString (lit "a" ++ [slash] ++ lit "b" ++ [slash] ++ lit "x.py") 10 12)
  = Some (referenceKey {| file_path := lit "a" ++ [slash] ++ lit "b" ++ [slash] ++ lit "x.py";
                          range_start := 10; range_end := 12 |},
          showZ 10 ++ [hyphen] ++ showZ 12).
Proof.
  apply (proj1 (citation_finds_its_excerpt (lit "a") (lit "b") (lit "x.py") 10 12
           ltac:(vm_compute; repeat split; try discriminate;
                 repeat (constructor; try (now left); try discriminate))
           eq_refl)).
Defined.

(** X17.  Asking for all references is the same as selecting every
    number of the reference list: the section of referenced files is the
    same in both cases, whatever numbers come with [referencesAll]. *)
Theorem all_references_is_every_number (data : OutputResponse)
    (selected : option (list Z)) :
  formatReferencedFiles data true selected
  = formatReferencedFiles data false
      (Some (everyNumber (length (uniqueReferences data)))).
Proof.
  unfold formatReferencedFiles, includedReferences.
  destruct (selectReferences_spec (uniqueReferences data)
              (everyNumber (length (uniqueReferences data))) []) as (s & Hs & Hmem).
  rewrite Hs. cbn [bind]. do 3 f_equal.
  apply flat_map_ext. intro file. apply formatFile_same_members.
  intro y. rewrite fold_setAdd_members, Hmem, <- everyNumber_picks. reflexivity.
Qed.

End CitationExtras.


(** ** The numbers of the citations in the answer *)

Section PositionFacts.
Import Transformer Markdown RendererNotions.

Lemma eqb_str_sym (a b : jsstring) : eqb_str a b = eqb_str b a.
Proof.
  destruct (eqb_str a b) eqn:E.
  - apply eqb_str_eq in E. subst. symmetry. apply eqb_str_refl.
  - symmetry. apply eqb_str_neq. apply eqb_str_neq in E. congruence.
Qed.

Lemma arrayIncludes_app (r : jsstring) (u m : list jsstring) :
  arrayIncludes r (u ++ m) = arrayIncludes r u || arrayIncludes r m.
Proof. unfold arrayIncludes. apply existsb_app. Qed.

Lemma position_app_in (r : jsstring) (u m : list jsstring) :
  arrayIncludes r u = true -> position r (u ++ m) = position r u.
Proof.
  induction u as [|x u IH]; cbn [arrayIncludes existsb app position]; [discriminate|].
  rewrite (eqb_str_sym r x). destruct (eqb_str x r); cbn [orb]; [reflexivity|].
  intro H. fold (arrayIncludes r u) in H. now rewrite (IH H).
Qed.

Lemma position_app_new (r : jsstring) (u m : list jsstring) :
  arrayIncludes r u = false -> position r (u ++ r :: m) = S (length u).
Proof.
  induction u as [|x u IH]; cbn [arrayIncludes existsb app position length].
  - now rewrite eqb_str_refl.
  - rewrite (eqb_str_sym r x). destruct (eqb_str x r); cbn [orb]; [discriminate|].
    intro H. fold (arrayIncludes r u) in H. now rewrite (IH H).
Qed.

Lemma position_nth (r : jsstring) (u : list jsstring) :
  In r u ->
  1 <= position r u <= length u /\ nth_error u (position r u - 1) = Some r.
Proof.
  induction u as [|x u IH]; [contradiction|].
  cbn [position length]. destruct (eqb_str x r) eqn:E.
  - apply eqb_str_eq in E. subst x. intros _. split; [lia | reflexivity].
  - intros [-> | H]; [rewrite eqb_str_refl in E; discriminate|].
    destruct (IH H) as (B & N).
    destruct (position r u) as [|n]; [lia|].
    split; [lia|]. cbn [Nat.sub nth_error] in *.
    now rewrite Nat.sub_0_r in N.
Qed.

Lemma collectUnique_extends (l : list jsstring) :
  forall u, exists ext, collectUnique u l = u ++ ext.
Proof.
  induction l as [|r l IH]; intro u; cbn [collectUnique fold_left].
  - exists []. now rewrite app_nil_r.
  - fold (collectUnique (if arrayIncludes r u then u else u ++ [r]) l).
    destruct (arrayIncludes r u).
    + apply IH.
    + destruct (IH (u ++ [r])) as (ext & ->). exists ([r] ++ ext).
      now rewrite app_assoc.
Qed.

Lemma collectUnique_app (u l l' : list jsstring) :
  collectUnique u (l ++ l') = collectUnique (collectUnique u l) l'.
Proof. unfold collectUnique. apply fold_left_app. Qed.

End PositionFacts.

Section NumberingFacts.
Import Transformer Markdown RendererNotions.

Variable protoText : jsstring -> jsstring.

Lemma markedSegment_stable (u ext : list jsstring) (segment : AnswerSegment) :
  (forall r, citation segment = Some r -> arrayIncludes r u = true) ->
  markedSegment (u ++ ext) segment = markedSegment u segment.
Proof.
  intro H. unfold markedSegment.
  destruct (citation segment) as [r|]; [|reflexivity].
  now rewrite (position_app_in r u ext (H r eq_refl)).
Qed.

Lemma answerSegment_numbers (st : AnswerState) (u : list jsstring)
    (segment : AnswerSegment) :
  numbers (referenceMap st) u ->
  referenceCounter st = S (length u) ->
  Forall (fun r => Obj.inherited r = false) (cited segment) ->
  numbers (referenceMap (answerSegment protoText st segment))
    (collectUnique u (cited segment))
  /\ referenceCounter (answerSegment protoText st segment)
     = S (length (collectUnique u (cited segment)))
  /\ (forall r, citation segment = Some r ->
                arrayIncludes r (collectUnique u (cited segment)) = true)
  /\ answerText (answerSegment protoText st segment)
     = answerText st ++ markedSegment (collectUnique u (cited segment)) segment.
Proof.
  intros Hn Hc Hi. unfold answerSegment, markedSegment, cited in *.
  destruct (citation segment) as [r|]; cbn [collectUnique fold_left].
  - pose proof (Hn r) as Hr.
    destruct (arrayIncludes r u) eqn:A; rewrite Hr.
    + cbn [referenceMap referenceCounter answerText].
      split; [assumption|]. split; [assumption|]. split.
      * intros r0 E. inversion E; subst. assumption.
      * reflexivity.
    + inversion Hi; subst.
      match goal with H : Obj.inherited r = false |- _ => rewrite H end.
      cbn [referenceMap referenceCounter answerText].
      split; [|split; [|split]].
      * intro r'. rewrite getOwn_set, arrayIncludes_app.
        cbn [arrayIncludes existsb]. rewrite orb_false_r, (eqb_str_sym r' r).
        destruct (eqb_str r r') eqn:E.
        -- apply eqb_str_eq in E. subst r'. rewrite orb_true_r.
           now rewrite position_app_new, Hc.
        -- rewrite orb_false_r. rewrite (Hn r').
           destruct (arrayIncludes r' u) eqn:A'; [|reflexivity].
           now rewrite position_app_in.
      * rewrite length_app. cbn [length]. rewrite Hc. lia.
      * intros r0 E. inversion E; subst. rewrite arrayIncludes_app.
        cbn [arrayIncludes existsb]. now rewrite eqb_str_refl, orb_true_r.
      * rewrite (position_app_new r u [] A), Hc. reflexivity.
  - cbn [referenceMap referenceCounter answerText].
    split; [assumption|]. split; [assumption|]. split; [discriminate|].
    now rewrite app_nil_r.
Qed.

Lemma segments_numbers (segments : list AnswerSegment) :
  forall (st : AnswerState) (u : list jsstring),
    numbers (referenceMap st) u ->
    referenceCounter st = S (length u) ->
    Forall (fun r => Obj.inherited r = false) (flat_map cited segments) ->
    numbers (referenceMap (fold_left (answerSegment protoText) segments st))
      (collectUnique u (flat_map cited segments))
    /\ referenceCounter (fold_left (answerSegment protoText) segments st)
       = S (length (collectUnique u (flat_map cited segments)))
    /\ forall ext,
         answerText (fold_left (answerSegment protoText) segments st)
         = answerText st
           ++ flat_map (markedSegment (collectUnique u (flat_map cited segments) ++ ext))
                segments.
Proof.
  induction segments as [|segment segments IH]; intros st u Hn Hc Hi;
    cbn [fold_left flat_map].
  - repeat split; try assumption. intro ext. now rewrite app_nil_r.
  - apply Forall_app in Hi. destruct Hi as (Hi1 & Hi2).
    destruct (answerSegment_numbers st u segment Hn Hc Hi1) as (N1 & C1 & A1 & T1).
    destruct (IH _ _ N1 C1 Hi2) as (N2 & C2 & T2).
    rewrite collectUnique_app.
    repeat split; try assumption.
    intro ext. rewrite (T2 ext), T1, <- app_assoc. f_equal. f_equal.
    destruct (collectUnique_extends (flat_map cited segments)
                (collectUnique u (cited segment))) as (more & ->).
    rewrite <- app_assoc. symmetry. now apply markedSegment_stable.
Qed.

Lemma markedSegments_stable (u ext : list jsstring) (segments : list AnswerSegment) :
  (forall r, In r (flat_map cited segments) -> arrayIncludes r u = true) ->
  flat_map (markedSegment (u ++ ext)) segments = flat_map (markedSegment u) segments.
Proof.
  induction segments as [|s segments IH]; intro H; cbn [flat_map]; [reflexivity|].
  rewrite IH.
  - f_equal. apply markedSegment_stable. intros r E. apply H.
    cbn [flat_map]. apply in_or_app. left. unfold cited. rewrite E. now left.
  - intros r Hr. apply H. cbn [flat_map]. apply in_or_app. now right.
Qed.

Lemma turns_numbers (conv : list ConversationQuery) :
  forall (i : nat) (st : AnswerState) (u : list jsstring),
    numbers (referenceMap st) u ->
    referenceCounter st = S (length u) ->
    Forall (fun r => Obj.inherited r = false)
      (flat_map (fun query => flat_map cited (answer_segments query)) conv) ->
    forall ext,
      answerText (answerQueries protoText i st conv)
      = answerText st
        ++ markedTurns i
             (collectUnique u
                (flat_map (fun query => flat_map cited (answer_segments query)) conv)
              ++ ext)
             conv.
Proof.
  induction conv as [|query conv IH]; intros i st u Hn Hc Hi ext;
    cbn [answerQueries markedTurns flat_map].
  - now rewrite app_nil_r.
  - apply Forall_app in Hi. destruct Hi as (Hi1 & Hi2).
    set (st1 := if Nat.ltb 0 i then _ else st).
    assert (M1 : referenceMap st1 = referenceMap st) by (subst st1; now destruct (Nat.ltb 0 i)).
    assert (C1 : referenceCounter st1 = referenceCounter st)
      by (subst st1; now destruct (Nat.ltb 0 i)).
    assert (T1 : answerText st1
                 = answerText st ++ (if Nat.ltb 0 i then followUpHeading query else []))
      by (subst st1; destruct (Nat.ltb 0 i); [reflexivity | now rewrite app_nil_r]).
    rewrite <- M1 in Hn. rewrite <- C1 in Hc.
    destruct (segments_numbers (answer_segments query) st1 u Hn Hc Hi1) as (N2 & C2 & T2).
    rewrite collectUnique_app.
    rewrite (IH (S i) _ _ N2 C2 Hi2 ext).
    destruct (collectUnique_extends
                (flat_map (fun query => flat_map cited (answer_segments query)) conv)
                (collectUnique u (flat_map cited (answer_segments query))))
      as (more & E).
    rewrite E, <- app_assoc. rewrite (T2 (more ++ ext)), T1.
    now rewrite <- !app_assoc.
Qed.

End NumberingFacts.

Section NumberingExtras.
Import Transformer Markdown RendererNotions Examples.

(** X18.  The number printed after a segment of the answer is the place
    of the segment's reference in the list of references: the answer is
    the text of the segments, each cited one followed by the place of its
    reference in [uniqueReferences], and that place is where the
    reference stands in the list, so that selecting the printed number
    selects the reference of the segment.  (References that name a
    property of [Object.prototype] are set aside.) *)
Theorem markers_follow_reference_list (protoText : jsstring -> jsstring)
    (data : OutputResponse) :
  Forall (fun r => Obj.inherited r = false) (citations data) ->
  formatAnswer protoText data
  = lit "# Answer" ++ [nl; nl]
    ++ markedTurns 0 (uniqueReferences data) (conversation data) ++ [nl]
  /\ forall r,
       In r (citations data) ->
       1 <= position r (uniqueReferences data) <= length (uniqueReferences data)
       /\ nth_error (uniqueReferences data) (position r (uniqueReferences data) - 1)
          = Some r.
Proof.
  intro Hi. split.
  - unfold formatAnswer.
    set (st0 := {| answerText := lit "# Answer" ++ [nl; nl];
                   referenceCounter := 1; referenceMap := [] |}).
    assert (N0 : numbers (referenceMap st0) []) by (intro r; reflexivity).
    rewrite (turns_numbers protoText (conversation data) 0 st0 [] N0 eq_refl Hi []).
    cbn [answerText st0]. rewrite app_nil_r.
    unfold uniqueReferences, citations. now rewrite <- !app_assoc.
  - intros r Hr. apply position_nth.
    now apply (proj1 (proj2 (uniqueReferences_first_seen data))).
Qed.

Lemma markers_follow_reference_list_witness :
  formatAnswer (fun _ => []) twoReferences
  = lit "# Answer" ++ [nl; nl]
    ++ markedTurns 0 (uniqueReferences twoReferences) (conversation twoReferences) ++ [nl].
Proof.
  apply (proj1 (markers_follow_reference_list (fun _ => []) twoReferences
           ltac:(repeat constructor))).
Defined.

End NumberingExtras.


(** ** The section of context files *)

Section ContextFacts.
Import Transformer Markdown TransformerNotions RendererNotions.



Lemma namesOnly_same (xs ys : list FullContextItem) :
  Forall2
    (fun x y =>
       file_name x = file_name y
       /\ length (split nl (file_text x)) = length (split nl (file_text y)))
    xs ys ->
  flat_map
    (fun context =>
       lit "## " ++ file_name context ++ lit " [0-"
       ++ showZ (Z.of_nat (length (split nl (file_text context))) - 1) ++ lit "]"
       ++ [nl; nl]) xs
  = flat_map
      (fun context =>
         lit "## " ++ file_name context ++ lit " [0-"
         ++ showZ (Z.of_nat (length (split nl (file_text context))) - 1) ++ lit "]"
         ++ [nl; nl]) ys.
Proof.
  induction 1 as [|x y xs ys (Hn & Hl) F IH]; [reflexivity|].
  cbn [flat_map]. now rewrite IH, Hn, Hl.
Qed.

End ContextFacts.

Section ContextExtras.
Import Transformer Markdown TransformerNotions RendererNotions Examples.



(** X20.  With the answer and the list of references both switched on,
    the document only names the context files: the selection of context
    files ([contextAll], [contextFiles], [contextRanges]) has no effect,
    and of the captured texts nothing but their numbers of lines is
    used. *)
Theorem standard_mode_only_names_files (protoText : jsstring -> jsstring)
    (a b : OutputResponse) (options : MarkdownOptions) (all : bool)
    (files : option (list jsstring))
    (ranges : option (list (jsstring * Validation.LineRange))) :
  includeAnswer options = true -> includeReferencesList options = true ->
  sameOutline a b ->
  generateMarkdown protoText a options
  = generateMarkdown protoText b (withContext options all files ranges).
Proof.
  intros Ha Hl (Hq & Hc & Hi & Hf & F).
  unfold generateMarkdown, withContext.
  cbn [includeAnswer includeReferencesList referencesAll referencesNumbers
       contextAll contextFiles contextRanges].
  rewrite Ha, Hl. cbn [andb].
  assert (E1 : formatQueryId a = formatQueryId b) by (unfold formatQueryId; now rewrite Hq).
  assert (E2 : formatAnswer protoText a = formatAnswer protoText b)
    by (unfold formatAnswer; now rewrite Hc).
  assert (E3 : formatRepoContextIds a = formatRepoContextIds b)
    by (unfold formatRepoContextIds; now rewrite Hi).
  assert (E4 : formatReferences a = formatReferences b)
    by (unfold formatReferences, uniqueReferences, citations; now rewrite Hc).
  assert (E5 : forall x y, formatReferencedFiles a x y = formatReferencedFiles b x y)
    by (intros x y; unfold formatReferencedFiles, uniqueReferences, citations;
        now rewrite Hc, Hf).
  assert (E6 : formatFullContextNamesOnly a = formatFullContextNamesOnly b)
    by (unfold formatFullContextNamesOnly; now rewrite (namesOnly_same _ _ F)).
  now rewrite E1, E2, E3, E4, E5, E6.
Qed.

Lemma standard_mode_only_names_files_witness :
  generateMarkdown (fun _ => []) twoReferences standardOptions
  = generateMarkdown (fun _ => []) twoReferences
      (withContext standardOptions true (Some [lit "a/b/x.py"]) None).
Proof.
  apply (standard_mode_only_names_files (fun _ => []) twoReferences twoReferences
           standardOptions true (Some [lit "a/b/x.py"]) None eq_refl eq_refl).
  repeat split. constructor.
Defined.

End ContextExtras.


(** ** The validators of the selections *)

Section SelectionValidators.
Import Validation.

Lemma checkReferencesNumbers_ok (l : list Z) :
  forall i, checkReferencesNumbers i l = Ok tt <-> Forall (fun n => (1 <= n)%Z) l.
Proof.
  induction l as [|n l IH]; intro i; cbn [checkReferencesNumbers].
  - split; [constructor | reflexivity].
  - destruct (Z.ltb_spec n 1).
    + split; [discriminate|]. intro F. inversion F; subst. lia.
    + rewrite IH. split.
      * intro F. now constructor.
      * intro F. now inversion F.
Qed.

Lemma checkContextFiles_ok (l : list jsstring) :
  forall i, checkContextFiles i l = Ok tt <-> Forall (fun file => trim file <> []) l.
Proof.
  induction l as [|f l IH]; intro i; cbn [checkContextFiles].
  - split; [constructor | reflexivity].
  - destruct (Nat.eqb (length (trim f)) 0) eqn:E.
    + apply length_zero_iff in E. split; [discriminate|].
      intro F. inversion F; subst. congruence.
    + assert (N : trim f <> []).
      { intro H. rewrite H in E. discriminate. }
      rewrite IH. split.
      * intro F. now constructor.
      * intro F. now inversion F.
Qed.

Lemma checkContextRanges_ok (l : list (jsstring * LineRange)) :
  checkContextRanges l = Ok tt <->
  Forall
    (fun entry =>
       trim (fst entry) <> []
       /\ (1 <= range_from (snd entry) <= range_to (snd entry))%Z) l.
Proof.
  induction l as [|[f r] l IH]; cbn [checkContextRanges].
  - split; [constructor | reflexivity].
  - destruct (Nat.eqb (length (trim f)) 0) eqn:E.
    { apply length_zero_iff in E. split; [discriminate|].
      intro F. inversion F; subst. cbn [fst] in *. tauto. }
    assert (N : trim f <> []).
    { intro H. rewrite H in E. discriminate. }
    destruct (Z.ltb_spec (range_from r) 1).
    { split; [discriminate|]. intro F. inversion F; subst. cbn [snd] in *. lia. }
    destruct (Z.ltb_spec (range_to r) (range_from r)).
    { split; [discriminate|]. intro F. inversion F; subst. cbn [snd] in *. lia. }
    rewrite IH. split.
    + intro F. constructor; [cbn [fst snd]; split; [assumption | lia] | assumption].
    + intro F. now inversion F.
Qed.

Lemma nonempty_length {A} (l : list A) : Nat.eqb (length l) 0 = false <-> l <> [].
Proof. destruct l; cbn; split; congruence. Qed.

End SelectionValidators.

Section ValidatorExtras.
Import Validation.

(** X21.  The validators of the selections accept exactly the lists
    that are not empty and hold only well-formed elements: reference
    numbers of at least 1; context files that are not blank; context
    ranges with a file that is not blank, a start of at least 1 and an
    end not below the start.  An upper bound on the numbers and lines is
    not checked here. *)
Theorem selection_validators_accept_exactly :
  (forall numbers : list Z,
     validateReferencesNumbers numbers = Ok tt <->
     numbers <> [] /\ Forall (fun n => (1 <= n)%Z) numbers)
  /\ (forall files : list jsstring,
        validateContextFiles files = Ok tt <->
        files <> [] /\ Forall (fun file => trim file <> []) files)
  /\ (forall entries : list (jsstring * LineRange),
        validateContextRanges entries = Ok tt <->
        entries <> []
        /\ Forall
             (fun entry =>
                trim (fst entry) <> []
                /\ (1 <= range_from (snd entry) <= range_to (snd entry))%Z) entries).
Proof.
  split; [|split].
  - intro numbers. unfold validateReferencesNumbers.
    destruct numbers as [|n l]; [cbn; split; [discriminate | intros ([] & _); reflexivity]|].
    cbn [length Nat.eqb]. rewrite checkReferencesNumbers_ok.
    split; [intro F; split; [discriminate | exact F] | tauto].
  - intro files. unfold validateContextFiles.
    destruct files as [|f l]; [cbn; split; [discriminate | intros ([] & _); reflexivity]|].
    cbn [length Nat.eqb]. rewrite checkContextFiles_ok.
    split; [intro F; split; [discriminate | exact F] | tauto].
  - intro entries. unfold validateContextRanges.
    destruct entries as [|x l]; [cbn; split; [discriminate | intros ([] & _); reflexivity]|].
    cbn [length Nat.eqb]. rewrite checkContextRanges_ok.
    split; [intro F; split; [discriminate | exact F] | tauto].
Qed.

End ValidatorExtras.


(** ** The question tool: the calls of a run *)

Section DisciplineFacts.
Import Transformer Markdown Validation Tool ToolNotions.

Variable protoText : jsstring -> jsstring.
Variable world : forall X, call X -> X.

Lemma route_trace (params : WikiQuestionToolParams) :
  exists lookups automation,
    fst (exec world (route params)) = lookups ++ automation
    /\ length lookups <= 1 /\ length automation <= 1
    /\ Forall (fun m => isLookup m = true) lookups
    /\ Forall (fun m => isAutomation m = true) automation.
Proof.
  unfold route.
  destruct (orFalse (goDeeper params)).
  { destruct (given (paramQueryId params)) as [qid|].
    - exists [], [Made (HandleGoDeeperRequest qid) (world _ (HandleGoDeeperRequest qid))].
      unfold await. cbn [exec].
      destruct (world _ (HandleGoDeeperRequest qid)); cbn [liftResult exec fst];
        repeat split; cbn; try lia; repeat constructor.
    - exists [], []. cbn. repeat split; try lia; constructor. }
  destruct (given (followUpQuestion params)) as [followUp|].
  { destruct (given (paramQueryId params)) as [qid|].
    - set (c := HandleFollowUpRequest qid followUp (orFalse (useDeepResearch params))
                  (repo params)).
      exists [], [Made c (world _ c)].
      unfold await. cbn [exec].
      destruct (world _ c); cbn [liftResult exec fst];
        repeat split; cbn; try lia; repeat constructor.
    - exists [], []. cbn. repeat split; try lia; constructor. }
  destruct (given (paramQueryId params)) as [qid|].
  { set (c := CacheGetJSON (lit "question") qid (repo params)).
    exists [Made c (world _ c)], []. cbn [exec].
    destruct (world _ c); cbn [exec fst];
      repeat split; cbn; try lia; repeat constructor. }
  destruct (given (question params)) as [q|].
  2:{ exists [], []. cbn. repeat split; try lia; constructor. }
  set (c := CacheGetJSON (lit "question")
              (tempCacheKey (repo params) q (orFalse (useDeepResearch params)))
              (repo params)).
  set (h := HandleNewQuestion (repo params) q (orFalse (useDeepResearch params))).
  cbn [exec].
  destruct (world _ c) eqn:W.
  - exists [Made c (Some o)], []. cbn [exec fst].
    repeat split; cbn; try lia; repeat constructor.
  - exists [Made c None], [Made h (world _ h)]. unfold await. cbn [exec].
    destruct (world _ h); cbn [liftResult exec fst];
      repeat split; cbn; try lia; repeat constructor.
Qed.

Lemma finish_trace (params : WikiQuestionToolParams) (data : OutputResponse)
    (id : jsstring) :
  length (fst (exec world (finish protoText params data id))) <= 1.
Proof.
  unfold finish. rewrite exec_pbind, exec_liftResult. cbn [fst snd].
  destruct (generateMarkdown_total protoText (rendered params data) (markdownOptions params))
    as [markdown ->].
  cbn [app].
  destruct (given (saveToFile params)) as [mode|]; [|cbn; lia].
  destruct (_ || _); [|cbn; lia].
  rewrite exec_pbind. unfold await. cbn [exec].
  match goal with |- context [world _ ?c] => destruct (world _ c) as [filePath|e0] end;
    cbn [liftResult exec fst snd app]; [|cbn; lia].
  destruct (eqb_str (toLowerCase mode) (lit "save-only")); cbn; lia.
Qed.

Lemma tool_trace (params : WikiQuestionToolParams) :
  disciplined (fst (exec world (wikiQuestionTool protoText params))).
Proof.
  unfold wikiQuestionTool. rewrite exec_pbind, exec_liftResult. cbn [fst snd].
  destruct (validateParams params) as [[]|e].
  2:{ exists [], [], []. cbn. repeat split; try lia; constructor. }
  cbn [app]. rewrite exec_pbind.
  destruct (route_trace params) as (l & a & E & Ll & La & Fl & Fa).
  destruct (snd (exec world (route params))) as [[data id]|e]; cbn [fst snd].
  - exists l, a, (fst (exec world (finish protoText params data id))).
    rewrite E, <- app_assoc. repeat split; try assumption.
    + apply finish_trace.
    + apply finish_run.
  - exists l, a, []. rewrite E, app_nil_r. repeat split; try assumption.
    + cbn; lia.
    + constructor.
Qed.

End DisciplineFacts.

Section DisciplineExtras.
Import Transformer Markdown Validation Tool ToolNotions.

(** X22.  Whatever its parameters and whatever its collaborators
    answer, a run of the question tool asks the cache at most once, then
    calls the automator at most once, then saves at most one file, in
    this order; it calls nobody when a parameter is rejected, and it
    saves only a response that it has obtained. *)
Theorem tool_call_discipline (protoText : jsstring -> jsstring)
    (world : forall X, call X -> X) (params : WikiQuestionToolParams) :
  disciplined (fst (exec world (wikiQuestionTool protoText params)))
  /\ (forall e, validateParams params = Throw e ->
                exec world (wikiQuestionTool protoText params) = ([], Throw e))
  /\ (Exists (fun m => isSaving m = true)
        (fst (exec world (wikiQuestionTool protoText params))) ->
      validateParams params = Ok tt
      /\ exists response, snd (exec world (route params)) = Ok response).
Proof.
  split; [apply tool_trace|]. split.
  - intros e H. unfold wikiQuestionTool. rewrite exec_pbind, exec_liftResult, H.
    reflexivity.
  - unfold wikiQuestionTool. rewrite exec_pbind, exec_liftResult. cbn [fst snd].
    destruct (validateParams params) as [[]|e].
    2:{ cbn. intro H. inversion H. }
    cbn [app]. rewrite exec_pbind.
    destruct (route_trace world params) as (l & a & E & Ll & La & Fl & Fa).
    destruct (snd (exec world (route params))) as [response|e]; cbn [fst snd].
    + intros _. split; [reflexivity | now exists response].
    + rewrite E. intro H. exfalso. apply Exists_app in H.
      destruct H as [H | H]; apply Exists_exists in H; destruct H as (m & Hm & Hs).
      * rewrite Forall_forall in Fl. specialize (Fl m Hm).
        destruct m as [X c x]. destruct c; cbn in *; discriminate.
      * rewrite Forall_forall in Fa. specialize (Fa m Hm).
        destruct m as [X c x]. destruct c; cbn in *; discriminate.
Qed.

Lemma tool_call_discipline_witness :
  exec Examples.emptyWorld (wikiQuestionTool (fun _ => []) Cases.malformedCall)
  = ([], Throw (Error (lit "Invalid repository format. Expected " ++ quoted (lit "owner/repo")
                      ++ lit ", got " ++ quoted (lit "nonsense")))).
Proof.
  apply (proj1 (proj2 (tool_call_discipline (fun _ => []) Examples.emptyWorld
                         Cases.malformedCall))).
  reflexivity.
Defined.

(** X23.  For a follow-up the tool shows the last turn only, unless the
    full conversation is asked for: the response handed to the renderer
    holds the last turn of the conversation and everything else
    unchanged, filtering it again changes nothing, and its list of
    references is that of the last turn alone - the numbers of the
    citations count from 1 within that turn. *)
Theorem follow_up_shows_last_turn (data : OutputResponse)
    (earlier : list ConversationQuery) (lastTurn : ConversationQuery) :
  conversation data = earlier ++ [lastTurn] ->
  conversation (filterConversationForFollowUp data false) = [lastTurn]
  /\ uniqueReferences (filterConversationForFollowUp data false)
     = collectUnique [] (flat_map RendererNotions.cited (answer_segments lastTurn))
  /\ query_id (filterConversationForFollowUp data false) = query_id data
  /\ out_repo_context_ids (filterConversationForFollowUp data false)
     = out_repo_context_ids data
  /\ referenced_files (filterConversationForFollowUp data false) = referenced_files data
  /\ full_context (filterConversationForFollowUp data false) = full_context data
  /\ filterConversationForFollowUp (filterConversationForFollowUp data false) false
     = filterConversationForFollowUp data false.
Proof.
  intro H.
  assert (C : conversation (filterConversationForFollowUp data false) = [lastTurn]).
  { unfold filterConversationForFollowUp. rewrite H.
    destruct earlier as [|t earlier]; [cbn; exact H|].
    replace (Nat.ltb 1 (length ((t :: earlier) ++ [lastTurn]))) with true.
    - cbn [conversation]. rewrite rev_app_distr. reflexivity.
    - symmetry. apply Nat.ltb_lt. rewrite length_app. cbn [length]. lia. }
  split; [exact C|]. split.
  { unfold uniqueReferences, citations. rewrite C. cbn [flat_map].
    now rewrite app_nil_r. }
  assert (F : forall d, filterConversationForFollowUp d false = d
                        \/ Nat.ltb 1 (length (conversation d)) = true).
  { intro d. unfold filterConversationForFollowUp.
    destruct (Nat.ltb 1 (length (conversation d))); [now right | now left]. }
  repeat split;
    try (unfold filterConversationForFollowUp;
         destruct (Nat.ltb 1 (length (conversation data))); reflexivity).
  destruct (F (filterConversationForFollowUp data false)) as [E | E]; [exact E|].
  rewrite C in E. discriminate.
Qed.

Lemma follow_up_shows_last_turn_witness :
  uniqueReferences (filterConversationForFollowUp Examples.twoReferences false)
  = [lit "o/r: a.py:1-2"].
Proof.
  apply (proj1 (proj2 (follow_up_shows_last_turn Examples.twoReferences
           [{| cq_user_query := lit "why";
               answer_segments :=
                 [{| text := lit "First"; reference := Some (lit "o/r: a.py:1-2") |};
                  {| text := lit "second"; reference := Some (lit "o/r: b.py:3-4") |}] |}]
           {| cq_user_query := lit "and then";
              answer_segments :=
                [{| text := lit "Again"; reference := Some (lit "o/r: a.py:1-2") |};
                 {| text := lit "done"; reference := None |}] |}
           eq_refl))).
Defined.

End DisciplineExtras.


(** ** The question tool behind the server *)

Section ServerFacts.
Import Transformer Markdown Validation Tool Server.


Lemma checkActions_ok (params : WikiQuestionToolParams) :
  checkActions params = Ok tt ->
  (isSome (given (question params)) = true \/ isSome (given (paramQueryId params)) = true)
  /\ (orFalse (goDeeper params) = true -> isSome (given (paramQueryId params)) = true)
  /\ (isSome (given (followUpQuestion params)) = true ->
      isSome (given (paramQueryId params)) = true)
  /\ countTruthy [isSome (given (question params)); orFalse (goDeeper params);
                  isSome (given (followUpQuestion params))] <= 1.
Proof.
  unfold checkActions.
  destruct (isSome (given (question params)));
    destruct (isSome (given (paramQueryId params)));
    destruct (orFalse (goDeeper params));
    destruct (isSome (given (followUpQuestion params)));
    cbn; intro H; try discriminate; repeat split; auto; try lia.
Qed.

End ServerFacts.

Section ServerExtras.
Import Transformer Markdown Validation Tool Server.


(** X25.  Behind the checks of the server the routing of the tool always
    reaches a collaborator: its own errors for a missing query id or a
    missing question cannot occur, and at most one of a question, a Go
    Deeper request and a follow-up is present.  A query id that comes
    with a question sends the call to the cache; the question is not
    asked. *)
Theorem server_checks_cover_routing (world : forall X, call X -> X)
    (params : WikiQuestionToolParams) :
  checkActions params = Ok tt ->
  (exists X (c : call X) k, route params = Call c k)
  /\ countTruthy [isSome (given (question params)); orFalse (goDeeper params);
                  isSome (given (followUpQuestion params))] <= 1
  /\ forall q qid,
       given (question params) = Some q -> given (paramQueryId params) = Some qid ->
       fst (exec world (route params))
       = [Made (CacheGetJSON (lit "question") qid (repo params))
            (world _ (CacheGetJSON (lit "question") qid (repo params)))].
Proof.
  intro H. destruct (checkActions_ok params H) as (H1 & H2 & H3 & H4).
  split; [|split; [exact H4|]].
  - unfold route.
    destruct (orFalse (goDeeper params)).
    { specialize (H2 eq_refl). destruct (given (paramQueryId params)); [|discriminate].
      unfold await. eauto. }
    destruct (given (followUpQuestion params)).
    { specialize (H3 eq_refl). destruct (given (paramQueryId params)); [|discriminate].
      unfold await. eauto. }
    destruct (given (paramQueryId params)); [eauto|].
    destruct (given (question params)); [eauto|].
    destruct H1; discriminate.
  - intros q qid Hq Hid. rewrite Hq, Hid in *. cbn [isSome] in *.
    unfold route. rewrite Hid.
    destruct (orFalse (goDeeper params)); [cbn in H4; lia|].
    destruct (given (followUpQuestion params)); [cbn in H4; lia|].
    cbn [exec].
    now destruct (world _ (CacheGetJSON (lit "question") qid (repo params))).
Qed.

Lemma server_checks_cover_routing_witness :
  exists X (c : call X) k, route Examples.cachedCall = Call c k.
Proof.
  apply (proj1 (server_checks_cover_routing Examples.emptyWorld Examples.cachedCall eq_refl)).
Defined.

End ServerExtras.


(** ** The names of the saved files *)

Section NameFacts.
Import Validation FileHelpers.

Lemma lowerUnit_not_upper (c : N) : Forall (fun x => is_upper x = false) (lowerUnit c).
Proof.
  unfold lowerUnit. destruct (is_upper c) eqn:U.
  - constructor; [|constructor]. unfold is_upper in *.
    apply andb_true_iff in U. destruct U as (U1 & U2). apply N.leb_le in U1, U2.
    apply andb_false_iff. right. apply N.leb_gt. lia.
  - destruct (N.eqb c 8490); [repeat constructor|].
    destruct (N.eqb c 304); [repeat constructor|].
    now constructor.
Qed.

Lemma toLowerCase_not_upper (s : jsstring) :
  Forall (fun x => is_upper x = false) (toLowerCase s).
Proof.
  unfold toLowerCase. apply Forall_flat_map.
  apply Forall_forall. intros c _. apply lowerUnit_not_upper.
Qed.

Lemma blankOut_plain (s : jsstring) :
  Forall (fun x => is_upper x = false) s ->
  Forall (fun c => (is_lower c || is_digit c) = true \/ is_space c = true) (blankOut s).
Proof.
  intro H. unfold blankOut. apply Forall_map.
  eapply Forall_impl; [|exact H]. intros c U. cbv beta.
  destruct (is_alnum c) eqn:A; cbn [orb].
  - left. unfold is_alnum in A. rewrite U in A.
    now destruct (is_lower c); destruct (is_digit c).
  - destruct (is_space c) eqn:S; [now right | right; reflexivity].
Qed.

Lemma splitBlanks_parts (P : N -> Prop) (s : jsstring) :
  Forall P s ->
  Forall (Forall (fun c => P c /\ is_space c = false)) (splitBlanks s).
Proof.
  induction 1 as [|c s Hc Hs IH]; cbn [splitBlanks]; [repeat constructor|].
  destruct (is_space c) eqn:S.
  - destruct s as [|c' s']; [now constructor|].
    destruct (is_space c'); [assumption | now constructor].
  - destruct (splitBlanks s) as [|p ps]; [repeat constructor; assumption|].
    inversion IH; subst. constructor; [|assumption].
    constructor; [now split | assumption].
Qed.

Lemma join_chars (P : N -> Prop) (sep : jsstring) (parts : list jsstring) :
  Forall P sep -> Forall (Forall P) parts -> Forall P (join sep parts).
Proof.
  intros Hs. induction 1 as [|p parts Hp Hps IH]; [constructor|].
  destruct parts as [|q parts]; [assumption|].
  rewrite join_cons. apply Forall_app. split; [assumption|].
  apply Forall_app. split; assumption.
Qed.

Lemma plain_not_hyphen (c : N) :
  (is_lower c || is_digit c) = true -> N.eqb hyphen c = false /\ c <> slash.
Proof.
  unfold is_lower, is_digit, hyphen, slash.
  rewrite orb_true_iff, !andb_true_iff, !N.leb_le. intro H.
  split; [apply N.eqb_neq|]; lia.
Qed.

Lemma filter_none (f : N -> bool) (s : jsstring) :
  Forall (fun c => f c = false) s -> filter f s = [].
Proof.
  induction 1 as [|c s Hc Hs IH]; [reflexivity|]. cbn [filter]. now rewrite Hc.
Qed.

Lemma join_hyphens (parts : list jsstring) :
  Forall (Forall (fun c => N.eqb hyphen c = false)) parts ->
  length (filter (N.eqb hyphen) (join [hyphen] parts)) = length parts - 1.
Proof.
  induction 1 as [|p parts Hp Hps IH]; [reflexivity|].
  destruct parts as [|q parts].
  - cbn [join length]. now rewrite filter_none.
  - rewrite join_cons, !filter_app, !length_app. unfold jsstring in *.
    rewrite IH, (filter_none _ p Hp). cbn. lia.
Qed.

Lemma Forall_firstn_keep {A} (P : A -> Prop) (n : nat) (l : list A) :
  Forall P l -> Forall P (firstn n l).
Proof.
  intro H. revert n. induction H as [|x l Hx Hl IH]; intro n.
  - rewrite firstn_nil. constructor.
  - destruct n; cbn [firstn]; constructor; auto.
Qed.

Lemma Forall_filter_keep {A} (P : A -> Prop) (f : A -> bool) (l : list A) :
  Forall P l -> Forall P (filter f l).
Proof.
  induction 1 as [|x l Hx Hl IH]; cbn [filter]; [constructor|].
  destruct (f x); [now constructor | assumption].
Qed.

Lemma words_plain (q : jsstring) :
  Forall (Forall (fun c => (is_lower c || is_digit c) = true))
    (firstn 3 (filter meaningful (splitBlanks (blankOut (toLowerCase q))))).
Proof.
  apply Forall_firstn_keep, Forall_filter_keep.
  pose proof (splitBlanks_parts _ _ (blankOut_plain _ (toLowerCase_not_upper q))) as H.
  eapply Forall_impl; [|exact H]. intros part Hp.
  eapply Forall_impl; [|exact Hp]. intros c ([L | S] & N); [assumption | congruence].
Qed.

Lemma name_of_words (parts : list jsstring) :
  length parts <= 3 ->
  Forall (Forall (fun c => (is_lower c || is_digit c) = true)) parts ->
  forallb kebab (join [hyphen] parts) = true
  /\ length (filter (N.eqb hyphen) (join [hyphen] parts)) <= 2.
Proof.
  intros L H. split.
  - apply forallb_forall. apply Forall_forall.
    apply join_chars.
    + repeat constructor.
    + eapply Forall_impl; [|exact H]. intros part Hp.
      eapply Forall_impl; [|exact Hp]. intros c Hc. unfold kebab. now rewrite Hc.
  - rewrite join_hyphens; [lia|].
    eapply Forall_impl; [|exact H]. intros part Hp.
    eapply Forall_impl; [|exact Hp]. intros c Hc. now apply plain_not_hyphen.
Qed.

Lemma generateDescriptiveName_kebab (question : option jsstring) :
  generateDescriptiveName question <> []
  /\ forallb kebab (generateDescriptiveName question) = true
  /\ length (filter (N.eqb hyphen) (generateDescriptiveName question)) <= 2.
Proof.
  unfold generateDescriptiveName.
  destruct (Tool.given question) as [q|]; [|repeat split; [discriminate | cbn; lia]].
  pose proof (name_of_words _
                ltac:(apply firstn_le_length) (words_plain q)) as (K & C).
  destruct (join [hyphen] _) as [|c name] eqn:E; cbn [truthy].
  - repeat split; [discriminate | cbn; lia].
  - repeat split; [discriminate | exact K | exact C].
Qed.

Lemma kebab_no_slash (s : jsstring) :
  forallb kebab s = true -> Forall (fun c => c <> slash) s.
Proof.
  intro H. rewrite forallb_forall in H. apply Forall_forall. intros c Hc.
  specialize (H c Hc). unfold kebab in H.
  destruct (is_lower c || is_digit c) eqn:P.
  - now apply plain_not_hyphen.
  - cbn [orb] in H. apply N.eqb_eq in H. subst. discriminate.
Qed.

End NameFacts.

Section NameExtras.
Import Validation FileHelpers.

(** X26.  The descriptive part of the name of a saved file is in kebab
    case whatever the question is: never empty, made of small letters,
    digits and hyphens only, with at most three words.  With a date, a
    time and a query id that hold no slash, the name of the file holds
    none either, so that the file lands in the folder of the
    repository. *)
Theorem saved_file_name_is_plain (question : option jsstring) :
  (generateDescriptiveName question <> []
   /\ forallb kebab (generateDescriptiveName question) = true
   /\ length (filter (N.eqb hyphen) (generateDescriptiveName question)) <= 2)
  /\ forall dateStr timeStr goDeeper followUpQuestion queryId,
       Forall (fun c => c <> slash) dateStr ->
       Forall (fun c => c <> slash) timeStr ->
       Forall (fun c => c <> slash) queryId ->
       Forall (fun c => c <> slash)
         (outputFileName dateStr timeStr goDeeper followUpQuestion question queryId).
Proof.
  split; [apply generateDescriptiveName_kebab|].
  intros dateStr timeStr goDeeper followUpQuestion queryId Hd Ht Hq.
  unfold outputFileName.
  assert (L : forall s : string,
             forallb (fun c => negb (N.eqb c slash)) (lit s) = true ->
             Forall (fun c => c <> slash) (lit s)).
  { intros s H. rewrite forallb_forall in H. apply Forall_forall. intros c Hc.
    specialize (H c Hc). apply negb_true_iff, N.eqb_neq in H. exact H. }
  repeat (apply Forall_app; split); try assumption; try (apply L; reflexivity).
  destruct goDeeper; [apply L; reflexivity|].
  destruct (Tool.given followUpQuestion) as [followUp|].
  - apply Forall_app. split; [apply L; reflexivity|].
    apply kebab_no_slash. apply generateDescriptiveName_kebab.
  - apply kebab_no_slash. apply generateDescriptiveName_kebab.
Qed.

Lemma saved_file_name_is_plain_witness :
  Forall (fun c => c <> slash)
    (outputFileName (lit "2026-11-02") (lit "10-15-00") false None
       (Some (lit "How does the authentication work?")) (lit "abc_1")).
Proof.
  apply (proj2 (saved_file_name_is_plain (Some (lit "How does the authentication work?")))
           (lit "2026-11-02") (lit "10-15-00") false None (lit "abc_1"));
    repeat (constructor; [discriminate|]); constructor.
Defined.

End NameExtras.


(** ** The repository in an address, and the name of a saved wiki page *)

Section AddressFacts.
Import Validation Automation Spec.

Lemma indexOf_prefix_free (c : N) (p a m : jsstring) :
  forallb (fun x => negb (N.eqb c x)) a = true ->
  indexOf (c :: p) (a ++ m) = option_map (Nat.add (length a)) (indexOf (c :: p) m).
Proof.
  induction a as [|x a IH]; intro H.
  - cbn [app length]. now destruct (indexOf (c :: p) m).
  - cbn [forallb] in H. apply andb_true_iff in H. destruct H as (Hx & Ha).
    apply negb_true_iff in Hx. cbn [app indexOf startsWith length]. rewrite Hx.
    cbn [andb]. rewrite (IH Ha). now destruct (indexOf (c :: p) m).
Qed.

Lemma includes_none (p s : jsstring) : includes p s = false -> indexOf p s = None.
Proof. unfold includes. now destruct (indexOf p s). Qed.

Lemma secondPart_after (c : N) (p a repo : jsstring) :
  forallb (fun x => negb (N.eqb c x)) a = true ->
  includes (c :: p) repo = false ->
  secondPart (c :: p) (a ++ (c :: p) ++ repo) = repo.
Proof.
  intros Ha Hr. unfold secondPart.
  rewrite (indexOf_prefix_free c p a _ Ha).
  assert (S0 : indexOf (c :: p) ((c :: p) ++ repo) = Some 0).
  { pose proof (startsWith_app (c :: p) repo) as S.
    destruct ((c :: p) ++ repo) eqn:E; [discriminate|].
    cbn [indexOf]. now rewrite S. }
  rewrite S0. cbn [option_map]. rewrite Nat.add_0_r.
  rewrite app_assoc, <- length_app, skipn_app, skipn_all, Nat.sub_diag.
  cbn [skipn app]. now rewrite (includes_none _ _ Hr).
Qed.

Lemma includes_units (p s : jsstring) (c : N) :
  includes p s = true -> In c p -> In c s.
Proof.
  intros H Hc. apply includes_iff in H. destruct H as (a & b & ->).
  apply in_or_app. right. apply in_or_app. now left.
Qed.

Lemma ownerRepoForm_no_dot (repo : jsstring) : ownerRepoForm repo -> ~ In 46%N repo.
Proof.
  intros (owner & name & -> & (_ & Ho & _) & (_ & Hn & _)) H.
  assert (D : forall s, Forall (fun c => is_alnum c = true \/ c = hyphen) s -> ~ In 46%N s).
  { intros s F Hin. rewrite Forall_forall in F. destruct (F _ Hin) as [A | A];
      [discriminate A | discriminate A]. }
  apply in_app_or in H. destruct H as [H | H]; [now apply (D owner)|].
  cbn [app In] in H. destruct H as [H | H]; [discriminate|]. now apply (D name).
Qed.

Lemma names_no_host (repo : jsstring) :
  ownerRepoForm repo ->
  includes (lit "deepwiki.com/") repo = false /\ includes (lit "github.com/") repo = false.
Proof.
  intro H. pose proof (ownerRepoForm_no_dot repo H) as D.
  split.
  - destruct (includes (lit "deepwiki.com/") repo) eqn:E; [|reflexivity].
    exfalso. apply D. apply (includes_units _ _ 46%N E). cbn. tauto.
  - destruct (includes (lit "github.com/") repo) eqn:E; [|reflexivity].
    exfalso. apply D. apply (includes_units _ _ 46%N E). cbn. tauto.
Qed.

End AddressFacts.

Section AddressExtras.
Import Validation Automation FileHelpers Spec.

(** X27.  A repository can be named by its address at DeepWiki, by its
    address at GitHub or by [owner/repo] itself: for a name of the form
    that the validator accepts the three spellings give the same path,
    the name. *)
Theorem repo_path_of_address (repo : jsstring) :
  ownerRepoForm repo ->
  extractRepoPath (lit "https://deepwiki.com/" ++ repo) = repo
  /\ extractRepoPath (lit "https://github.com/" ++ repo) = repo
  /\ extractRepoPath repo = repo.
Proof.
  intro H. destruct (names_no_host repo H) as (Hd & Hg).
  split; [|split].
  - unfold extractRepoPath.
    change (lit "https://deepwiki.com/" ++ repo)
      with (lit "https://" ++ lit "deepwiki.com/" ++ repo).
    rewrite includes_app.
    change (lit "deepwiki.com/") with (100%N :: lit "eepwiki.com/") in *.
    now apply secondPart_after.
  - unfold extractRepoPath.
    assert (E : includes (lit "deepwiki.com/") (lit "https://github.com/" ++ repo) = false).
    { change (lit "deepwiki.com/") with (100%N :: lit "eepwiki.com/") in *.
      now rewrite includes_prefix_free. }
    rewrite E.
    change (lit "https://github.com/" ++ repo)
      with (lit "https://" ++ lit "github.com/" ++ repo).
    rewrite includes_app.
    change (lit "github.com/") with (103%N :: lit "ithub.com/") in *.
    now apply secondPart_after.
  - unfold extractRepoPath. now rewrite Hd, Hg.
Qed.

Lemma repo_path_of_address_witness :
  extractRepoPath (lit "https://deepwiki.com/" ++ lit "o/r") = lit "o/r".
Proof.
  apply (proj1 (repo_path_of_address (lit "o/r")
           ltac:(exists (lit "o"), (lit "r"); vm_compute;
                 repeat split; try discriminate;
                 repeat (constructor; [now left|]); constructor))).
Defined.

(** X28.  The name under which the server saves a wiki page is plain:
    its descriptive part is never empty and holds small letters, digits
    and hyphens only, whatever the chapter is called, and with a date and
    a time free of slashes the name of the file holds no slash. *)
Theorem wiki_file_name_is_plain (action : jsstring) (chapters : option (list jsstring)) :
  generateWikiDescription action chapters <> []
  /\ forallb kebab (generateWikiDescription action chapters) = true
  /\ forall dateStr timeStr,
       Forall (fun c => c <> slash) dateStr -> Forall (fun c => c <> slash) timeStr ->
       Forall (fun c => c <> slash) (wikiFileName dateStr timeStr action chapters).
Proof.
  assert (K : forallb kebab (generateWikiDescription action chapters) = true).
  { unfold generateWikiDescription.
    destruct (eqb_str action (lit "structure")); [reflexivity|].
    destruct chapters as [l|]; [|reflexivity].
    destruct (eqb_str action (lit "extract")); [|reflexivity].
    assert (D : forall n, forallb kebab (showNat n ++ lit "-chapters") = true).
    { intro n. rewrite forallb_app. apply andb_true_iff. split; [|reflexivity].
      apply forallb_forall. apply Forall_forall.
      eapply Forall_impl; [|apply digits_are_digits].
      intros c Hc. unfold kebab. now rewrite Hc, orb_true_r. }
    destruct l as [|chapter [|c2 l]]; try apply D.
    rewrite forallb_app. apply andb_true_iff. split; [|reflexivity].
    apply forallb_forall. apply Forall_forall. apply Forall_map.
    eapply Forall_impl; [|apply toLowerCase_not_upper].
    intros c U. cbv beta. destruct (is_alnum c) eqn:A; [|reflexivity].
    unfold kebab. unfold is_alnum in A. rewrite U in A.
    destruct (is_lower c); destruct (is_digit c); try reflexivity; discriminate. }
  split; [|split; [exact K|]].
  - unfold generateWikiDescription.
    destruct (eqb_str action (lit "structure")); [discriminate|].
    destruct chapters as [l|]; [|discriminate].
    destruct (eqb_str action (lit "extract")); [|discriminate].
    destruct l as [|chapter [|c2 l]];
      intro E; apply (f_equal (@length N)) in E; rewrite length_app in E;
      cbn [length lit map list_ascii_of_string] in E; lia.
  - intros dateStr timeStr Hd Ht. unfold wikiFileName.
    repeat (apply Forall_app; split); try assumption;
      try (now apply kebab_no_slash);
      repeat (constructor; [discriminate|]); constructor.
Qed.

Lemma wiki_file_name_is_plain_witness :
  Forall (fun c => c <> slash)
    (wikiFileName (lit "2026-11-02") (lit "10-15-00") (lit "extract")
       (Some [lit "Setup / Install"])).
Proof.
  apply (proj2 (proj2 (wiki_file_name_is_plain (lit "extract")
                         (Some [lit "Setup / Install"])))
           (lit "2026-11-02") (lit "10-15-00"));
    repeat (constructor; [discriminate|]); constructor.
Defined.

End AddressExtras.


(** ** Where a response is cached and where it is looked for *)

Section CacheFacts.
Import Validation FileHelpers Cache Spec.

Variable md5hex : jsstring -> jsstring.
Hypothesis md5hex_alnum : forall s, Forall (fun c => is_alnum c = true) (md5hex s).

Lemma idUnit_safe (c : N) :
  idUnit c -> forbidden c = false /\ c <> slash /\ c <> 92%N /\ c <> 46%N.
Proof.
  intro H.
  assert (S : (c < 128)%N).
  { destruct H as [A | [-> | ->]]; [now apply alnum_small | reflexivity | reflexivity]. }
  pose proof (small_check
                (fun c => implb (is_alnum c || N.eqb c hyphen || N.eqb c 95)
                            (negb (forbidden c) && negb (N.eqb c slash)
                             && negb (N.eqb c 92) && negb (N.eqb c 46)))
                eq_refl c S) as P.
  cbv beta in P.
  assert (B : is_alnum c || N.eqb c hyphen || N.eqb c 95 = true).
  { destruct H as [A | [-> | ->]]; [now rewrite A | reflexivity | reflexivity]. }
  rewrite B in P. cbn [implb] in P.
  apply andb_true_iff in P. destruct P as (P & P4).
  apply andb_true_iff in P. destruct P as (P & P3).
  apply andb_true_iff in P. destruct P as (P1 & P2).
  apply negb_true_iff in P1, P2, P3, P4. apply N.eqb_neq in P2, P3, P4. auto.
Qed.


Lemma plain_first (c : N) (t : jsstring) :
  c <> 46%N -> Forall (fun x => x <> slash /\ x <> 92%N) (c :: t) -> plainSegment (c :: t).
Proof.
  intros Hc Hs. repeat split; try assumption; try discriminate.
  - intro E. inversion E. congruence.
  - intro E. inversion E. congruence.
Qed.

Lemma plain_idUnits (s : jsstring) : s <> [] -> Forall idUnit s -> plainSegment s.
Proof.
  intros Hn Hs. destruct s as [|c t]; [congruence|].
  apply plain_first.
  - inversion Hs; subst. now apply idUnit_safe.
  - eapply Forall_impl; [|exact Hs]. intros x Hx.
    destruct (idUnit_safe x Hx) as (_ & A & B & _). now split.
Qed.


Lemma replaceFirst_app (a b : N) (x y : jsstring) :
  Forall (fun c => c <> a) x -> replaceFirst a b (x ++ a :: y) = x ++ b :: y.
Proof.
  induction 1 as [|c x Hc Hx IH]; cbn [app replaceFirst].
  - now rewrite N.eqb_refl.
  - assert (E : N.eqb c a = false) by now apply N.eqb_neq.
    now rewrite E, IH.
Qed.


Lemma segment_idUnits (s : jsstring) : segmentForm s -> Forall idUnit s.
Proof.
  intros (_ & H & _). eapply Forall_impl; [|exact H].
  intros c [A | ->]; [now left | right; now left].
Qed.

Lemma repoFolder_plain (repo : jsstring) :
  ownerRepoForm repo -> plainSegment (getRepoFolder repo) /\ truthy repo = true.
Proof.
  intros (owner & name & -> & Ho & Hn).
  unfold getRepoFolder. cbn [app].
  rewrite (replaceFirst_app slash hyphen owner name (segmentForm_no_slash owner Ho)).
  split.
  - apply plain_idUnits.
    + destruct owner; discriminate.
    + apply Forall_app. split; [now apply segment_idUnits|].
      constructor; [right; now left | now apply segment_idUnits].
  - destruct Ho as (Hne & _). destruct owner; [congruence | reflexivity].
Qed.

Lemma stripExtension_json (x : jsstring) : stripExtension (x ++ lit ".json") = x.
Proof.
  unfold stripExtension, endsWith. rewrite rev_app_distr, startsWith_app.
  rewrite length_app. change (length (lit ".json")) with 5.
  replace (length x + 5 - 5) with (length x) by lia.
  rewrite firstn_app, Nat.sub_diag, firstn_all. cbn [firstn]. apply app_nil_r.
Qed.


Lemma md5hex_safe (s : jsstring) :
  Forall (fun x => x <> slash /\ x <> 92%N) (md5hex s).
Proof.
  eapply Forall_impl; [|apply md5hex_alnum]. intros c A.
  destruct (idUnit_safe c (or_introl A)) as (_ & S & B & _). now split.
Qed.

Lemma literal_safe (s : string) :
  forallb (fun c => negb (N.eqb c slash) && negb (N.eqb c 92)) (lit s) = true ->
  Forall (fun x => x <> slash /\ x <> 92%N) (lit s).
Proof.
  intro H. rewrite forallb_forall in H. apply Forall_forall. intros c Hc.
  specialize (H c Hc). apply andb_true_iff in H. destruct H as (A & B).
  apply negb_true_iff, N.eqb_neq in A. apply negb_true_iff, N.eqb_neq in B. now split.
Qed.



Lemma sanitize_safe (s : jsstring) :
  Forall (fun x => x <> slash /\ x <> 92%N) (sanitize s).
Proof.
  unfold sanitize. apply Forall_map. apply Forall_forall. intros c _.
  destruct (forbidden c) eqn:F; [split; discriminate|].
  split; intros ->; discriminate F.
Qed.

(** Whatever the identifier, the names that the cache gives to the file
    of a question are plain. *)
Lemma questionFile_plain (identifier : jsstring) :
  plainSegment (getCacheFileName md5hex (lit "question") identifier)
  /\ plainSegment (stripExtension (getCacheFileName md5hex (lit "question") identifier))
  /\ plainSegment (lit "question" ++ lit "_" ++ md5hex identifier).
Proof.
  assert (Q : plainSegment (lit "question" ++ lit "_" ++ md5hex identifier)).
  { apply (plain_first 113); [discriminate|].
    change (113%N :: _) with (lit "question" ++ lit "_" ++ md5hex identifier).
    repeat (apply Forall_app; split); try (apply literal_safe; reflexivity).
    apply md5hex_safe. }
  rewrite questionFileName.
  destruct (includes (lit "-") identifier && Nat.ltb 30 (length identifier)).
  - split; [|split; [|exact Q]].
    + apply (plain_first 113); [discriminate|].
      change (113%N :: _) with (lit "query-" ++ sanitize identifier ++ lit ".json").
      repeat (apply Forall_app; split); try (apply literal_safe; reflexivity).
      apply sanitize_safe.
    + rewrite app_assoc, stripExtension_json.
      apply (plain_first 113); [discriminate|].
      change (113%N :: _) with (lit "query-" ++ sanitize identifier).
      apply Forall_app; split; [apply literal_safe; reflexivity | apply sanitize_safe].
  - split; [|split; [|exact Q]].
    + apply (plain_first 113); [discriminate|].
      change (113%N :: _)
        with (lit "question" ++ lit "_" ++ md5hex identifier ++ lit ".json").
      repeat (apply Forall_app; split); try (apply literal_safe; reflexivity).
      apply md5hex_safe.
    + rewrite !app_assoc, stripExtension_json, <- !app_assoc. exact Q.
Qed.

Lemma subfolder_plain : plainSegment (getCacheSubfolder (lit "question")).
Proof.
  apply (plain_first 113); [discriminate|]. apply (literal_safe "questions"). reflexivity.
Qed.

End CacheFacts.

Section CacheExtras.
Import Validation FileHelpers Cache Spec.



End CacheExtras.

Section CachedQuestion.
Import Transformer Automator Automation Handlers.

(** X15.  Automator and handler together: when the answer to a new
    question comes from [askQuestion], the identifier that the handler
    returns and caches under is the query id read off the address of the
    answer tab, and it is the query id of the response; for a repository
    with a slash it is never the temporary key built from repository and
    question, so the branch that caches under that key is not taken.  The
    lookup of the temporary key by a later call for the same question
    tries the file written here exactly when the two identifiers take the
    same file name in the cache: both longer than 30 code units, with a
    hyphen, and equal once the forbidden characters - the slash among
    them - are replaced by underscores; or both hashed, with the same
    digest.  All segments of these paths are plain names. *)
Theorem new_question_keyed_by_query_id (typeErrorMessage : jsstring)
    (world : forall X, call X -> X) (repo question : jsstring) (deep : bool)
    (newUrl : result jsstring) (settle : result unit)
    (poll : jsstring -> bool -> result ApiData) (cleanup : result unit)
    (out : OutputResponse) (id : jsstring) :
  world _ (AskQuestion repo question deep)
  = askQuestion typeErrorMessage newUrl settle poll cleanup deep ->
  snd (exec world (handleNewQuestion repo question deep)) = Ok (out, id) ->
  (exists base, newUrl = Ok (base ++ lit "search/" ++ id))
  /\ id <> [] /\ Forall (fun x => x <> slash) id
  /\ query_id out = id
  /\ cacheWrites (fst (exec world (handleNewQuestion repo question deep)))
     = [(lit "question", id, out, repo)]
  /\ (In slash repo -> id <> Tool.tempCacheKey repo question deep)
  /\ (forall md5hex : jsstring -> jsstring,
        (forall s, Forall (fun c => is_alnum c = true) (md5hex s)) ->
        Spec.ownerRepoForm repo ->
        (In (Cache.writePath md5hex (lit "question") id repo)
            (Cache.readPaths md5hex (lit "question")
               (Tool.tempCacheKey repo question deep) repo)
         <-> (includes (lit "-") id && Nat.ltb 30 (length id) = true
              /\ includes (lit "-") (Tool.tempCacheKey repo question deep)
                 && Nat.ltb 30 (length (Tool.tempCacheKey repo question deep)) = true
              /\ Cache.sanitize id
                 = Cache.sanitize (Tool.tempCacheKey repo question deep))
             \/ (includes (lit "-") id && Nat.ltb 30 (length id) = false
                 /\ includes (lit "-") (Tool.tempCacheKey repo question deep)
                    && Nat.ltb 30 (length (Tool.tempCacheKey repo question deep)) = false
                 /\ md5hex id = md5hex (Tool.tempCacheKey repo question deep)))
        /\ Forall Cache.plainSegment (Cache.writePath md5hex (lit "question") id repo)
        /\ Forall (Forall Cache.plainSegment)
             (Cache.readPaths md5hex (lit "question")
                (Tool.tempCacheKey repo question deep) repo)).
Proof.
  intros W H.
  pose proof (handleNewQuestion_caches world repo question deep out id H) as C.
  revert H. unfold handleNewQuestion. cbn [pbind await exec]. rewrite W.
  destruct (askQuestion typeErrorMessage newUrl settle poll cleanup deep) as [r|e0] eqn:A;
    cbn [liftResult pbind exec fst snd]; [|discriminate].
  destruct (r_success r) eqn:S; cbn [negb exec fst snd]; [|discriminate].
  destruct (askQuestion_success _ _ _ _ _ _ _ A S)
    as (base & id' & data & -> & Hn & Hs & _ & _ & ->).
  destruct (transformResponse _) as [t|e0] eqn:T; cbn [liftResult pbind exec fst snd];
    [|discriminate].
  apply transformResponse_query_id in T.
  cbn [succeeded r_queryId orEmpty toInputResponse queryId] in *.
  destruct id' as [|c id']; [congruence|]. cbn [Validation.truthy pbind await exec].
  match goal with |- context [world _ ?c] => destruct (world _ c) as [[]|e0] end;
    cbn [liftResult pbind exec fst snd]; [|discriminate].
  intro H. inversion H; subst.
  split; [now exists base|].
  do 4 (split; [first [assumption | reflexivity | congruence]|]). split.
  - intros Hr E. rewrite Forall_forall in Hs. apply (Hs slash); [|reflexivity].
    rewrite E. unfold Tool.tempCacheKey.
    apply in_or_app. right. apply in_or_app. now left.
  - intros md5hex Hm Hr.
    destruct (repoFolder_plain repo Hr) as (Pf & Tr).
    destruct (questionFile_plain md5hex Hm (c :: id')) as (P1 & _).
    destruct (questionFile_plain md5hex Hm (Tool.tempCacheKey repo question deep))
      as (K1 & K2 & K3).
    split; [|split].
    + rewrite (lookup_reaches_write md5hex _ _ _ Tr). apply questionFileName_same.
    + unfold Cache.writePath. rewrite Tr.
      repeat first [assumption | apply subfolder_plain | constructor].
    + unfold Cache.readPaths. rewrite Tr. cbn [app].
      repeat first [assumption | apply subfolder_plain | constructor].
Qed.

Lemma new_question_keyed_by_query_id_witness :
  (exists base, Ok (lit "https://deepwiki.com/search/abc_1")
                = Ok (base ++ lit "search/" ++ lit "abc_1"))
  /\ lit "abc_1" <> [] /\ Forall (fun x => x <> slash) (lit "abc_1")
  /\ query_id Cases.doneOutput = lit "abc_1"
  /\ cacheWrites
       (fst (exec Cases.answeringWorld (handleNewQuestion (lit "o/r") (lit "why") false)))
     = [(lit "question", lit "abc_1", Cases.doneOutput, lit "o/r")]
  /\ (In slash (lit "o/r") -> lit "abc_1" <> Tool.tempCacheKey (lit "o/r") (lit "why") false)
  /\ ~ In (Cache.writePath (fun s => if eqb_str s (lit "abc_1") then lit "0" else lit "1")
            (lit "question") (lit "abc_1") (lit "o/r"))
         (Cache.readPaths (fun s => if eqb_str s (lit "abc_1") then lit "0" else lit "1")
            (lit "question") (Tool.tempCacheKey (lit "o/r") (lit "why") false) (lit "o/r")).
Proof.
  pose proof (new_question_keyed_by_query_id [] Cases.answeringWorld (lit "o/r") (lit "why")
                false (Ok (lit "https://deepwiki.com/search/abc_1")) (Ok tt)
                (fun _ _ => Ok (extractDataFromAllQueries [Examples.doneQuery])) (Ok tt)
                Cases.doneOutput (lit "abc_1") eq_refl eq_refl)
    as (H1 & H2 & H3 & H4 & H5 & H6 & H7).
  refine (conj H1 (conj H2 (conj H3 (conj H4 (conj H5 (conj H6 _)))))).
  assert (Hm : forall s,
             Forall (fun c => is_alnum c = true)
               (if eqb_str s (lit "abc_1") then lit "0" else lit "1")).
  { intro s. destruct (eqb_str s (lit "abc_1"));
      (apply Forall_cons; [reflexivity | apply Forall_nil]). }
  assert (Hr : Spec.ownerRepoForm (lit "o/r")).
  { exists (lit "o"), (lit "r"). vm_compute.
    repeat split; try discriminate; repeat (constructor; [now left|]); constructor. }
  intro I. apply (proj1 (proj1 (H7 _ Hm Hr))) in I.
  destruct I as [(D & _) | (_ & _ & D)]; vm_compute in D; discriminate D.
Defined.

End CachedQuestion.


(** ** The validators of the wiki tool *)

Section WikiValidators.
Import Validation WikiValidation.

Lemma validateDepth_ok (depth : Z) : validateDepth depth = Ok tt <-> (1 <= depth <= 4)%Z.
Proof.
  unfold validateDepth.
  destruct (Z.ltb_spec depth 1); destruct (Z.ltb_spec 4 depth); cbn [orb];
    split; try discriminate; try reflexivity; lia.
Qed.

Lemma checkChapters_ok (l : list jsstring) :
  forall i, checkChapters i l = Ok tt <-> Forall (fun chapter => trim chapter <> []) l.
Proof.
  induction l as [|c l IH]; intro i; cbn [checkChapters].
  - split; [constructor | reflexivity].
  - destruct (Nat.eqb (length (trim c)) 0) eqn:E.
    + apply length_zero_iff in E. split; [discriminate|].
      intro F. inversion F; subst. congruence.
    + assert (N : trim c <> []).
      { intro H. rewrite H in E. discriminate. }
      rewrite IH. split.
      * intro F. now constructor.
      * intro F. now inversion F.
Qed.

Lemma checkChapterDepths_ok (l : list (jsstring * Z)) :
  checkChapterDepths l = Ok tt <->
  Forall (fun entry => trim (fst entry) <> [] /\ (1 <= snd entry <= 4)%Z) l.
Proof.
  induction l as [|[c d] l IH]; cbn [checkChapterDepths].
  - split; [constructor | reflexivity].
  - destruct (Nat.eqb (length (trim c)) 0) eqn:E.
    { apply length_zero_iff in E. split; [discriminate|].
      intro F. inversion F; subst. cbn [fst] in *. tauto. }
    assert (N : trim c <> []).
    { intro H. rewrite H in E. discriminate. }
    destruct (validateDepth d) as [[]|e] eqn:D; cbn [bind].
    + apply validateDepth_ok in D. rewrite IH. split.
      * intro F. constructor; [now split | assumption].
      * intro F. now inversion F.
    + split; [discriminate|]. intro F. inversion F; subst. cbn [snd] in *.
      destruct H1 as (_ & B). apply validateDepth_ok in B. congruence.
Qed.

End WikiValidators.

Section WikiValidatorExtras.
Import Validation WikiValidation.

(** X30.  The validators of the wiki tool accept exactly: a depth from
    1 to 4; a list of chapters that is not empty and holds no blank name;
    chapter depths that are not empty, with no blank name and every depth
    from 1 to 4; an action that is [structure] or [extract] once its
    letters are made small, so that [Structure] passes as well. *)
Theorem wiki_validators_accept_exactly :
  (forall depth : Z, validateDepth depth = Ok tt <-> (1 <= depth <= 4)%Z)
  /\ (forall chapters : list jsstring,
        validateChapters chapters = Ok tt <->
        chapters <> [] /\ Forall (fun chapter => trim chapter <> []) chapters)
  /\ (forall entries : list (jsstring * Z),
        validateChapterDepths entries = Ok tt <->
        entries <> []
        /\ Forall (fun entry => trim (fst entry) <> [] /\ (1 <= snd entry <= 4)%Z) entries)
  /\ (forall action : jsstring,
        validateAction action = Ok tt <->
        toLowerCase action = lit "structure" \/ toLowerCase action = lit "extract")
  /\ validateAction (lit "Structure") = Ok tt.
Proof.
  split; [apply validateDepth_ok|]. split; [|split; [|split]].
  - intro chapters. unfold validateChapters.
    destruct chapters as [|c l]; [cbn; split; [discriminate | intros ([] & _); reflexivity]|].
    cbn [length Nat.eqb]. rewrite checkChapters_ok.
    split; [intro F; split; [discriminate | exact F] | tauto].
  - intro entries. unfold validateChapterDepths.
    destruct entries as [|x l]; [cbn; split; [discriminate | intros ([] & _); reflexivity]|].
    cbn [length Nat.eqb]. rewrite checkChapterDepths_ok.
    split; [intro F; split; [discriminate | exact F] | tauto].
  - intro action. unfold validateAction.
    destruct (eqb_str (toLowerCase action) (lit "structure")) eqn:S; cbn [negb andb].
    { apply eqb_str_eq in S. split; [now left | reflexivity]. }
    destruct (eqb_str (toLowerCase action) (lit "extract")) eqn:E; cbn [negb].
    { apply eqb_str_eq in E. split; [now right | reflexivity]. }
    apply eqb_str_neq in S, E. split; [discriminate | tauto].
  - reflexivity.
Qed.

End WikiValidatorExtras.
